(** * AgentRaccoon: pipeline execution engine and result cache

    A shallow embedding of
      - [backend/src/utils/dataTransform.ts]   (module [DataTransform]),
      - [backend/src/cache/CacheManager.ts]    (module [CacheManager]),
      - the pipeline engine ([PipelineEngine], class of the same name),
      - the shared type declarations ([Pipeline], [PipelineNode], ...),
    followed by the properties of the engine, of the cache and of the row
    transforms.

    Conventions.
      - A JavaScript [number] is an IEEE 754 binary64 value: Rocq's primitive
        [float], with the primitive operations for [+], [/], [<], [<=], [==].
      - A row is a plain object: the [gmap string value] of its own
        properties. A field that the row does not have is read from
        [Object.prototype]: it is an inherited object under the names that
        [Object.prototype] defines, and [undefined] under every other name.
        An assignment under ["__proto__"] adds no property.
      - The [Record<string, any[]>] of the engine is the [gmap string (list
        row)] of its own properties, with the array that an assignment under
        ["__proto__"] has made its prototype.
      - A JavaScript [Set<string>] and a [Map<string, _>] iterate in insertion
        order: they are lists kept free of duplicate keys.
      - [Date.now()] reads a clock: the n-th reading is [dateNow n], and the
        world counts the readings made so far.
      - What the code obtains from the JavaScript engine or from another
        service (string/number conversion, collation, MD5 of a JSON text,
        dynamically built functions, the row store) is a field of the classes
        [JSRuntime] and [Host]. The row store, the functions built from
        custom code and the evaluation of a [calculate] expression answer as
        functions of their arguments, which they leave as they are; the
        arrays they return hold rows.
      - A recursive closure of the code takes a budget; the lemmas
        [reachVisit_total] and [topoVisit_total] show that the budget the
        engine passes is never used up. *)

From Stdlib Require Import ZArith Ascii String List Bool Lia.
From Stdlib Require Import Floats.PrimFloat Floats.FloatClass.
From Stdlib Require Import Floats.FloatOps Floats.SpecFloat Floats.FloatAxioms.
From Stdlib Require Import Numbers.Cyclic.Int63.Uint63.
From Stdlib Require Import Sorting.Permutation Sorting.Sorted.
From Stdlib Require Structures.OrderedTypeEx.
From stdpp Require Import base option list gmap strings.

Local Open Scope string_scope.
Local Open Scope list_scope.

(* ================================================================== *)
(** ** JavaScript scalars and the engine's built-ins                   *)
(* ================================================================== *)

(** The values of the fields of a row are scalars. [VObject name] is what a
    plain object inherits under [name] from [Object.prototype]: a built-in
    function, or, for ["__proto__"], [Object.prototype] itself. Two names
    are two objects. *)
Inductive value : Type :=
  | VUndefined
  | VNull
  | VBool (b : bool)
  | VNum (n : float)
  | VStr (s : string)
  | VObject (name : string).

Abbreviation row := (gmap string value).

(** The names that [Object.prototype] defines. *)
Definition objectPrototypeNames : list string :=
  [ "constructor"; "__defineGetter__"; "__defineSetter__"; "hasOwnProperty";
    "__lookupGetter__"; "__lookupSetter__"; "isPrototypeOf"; "propertyIsEnumerable";
    "toString"; "valueOf"; "__proto__"; "toLocaleString" ].

(** [({})[name]]: what a plain object without the property reads. *)
Definition inherited (name : string) : value :=
  if existsb (String.eqb name) objectPrototypeNames then VObject name else VUndefined.

(** [row[field]]. *)
Definition getField (r : row) (field : string) : value :=
  match r !! field with
  | Some v => v
  | None => inherited field
  end.

(** [obj[key] = v] on a plain object. Under ["__proto__"], when the object
    has no such property of its own, the assignment reaches the setter that
    [Object.prototype] holds: it adds no property (it replaces the prototype
    of the object when [v] is [null] or an object, and does nothing
    otherwise; the prototype is not part of a row here). *)
Definition setField (key : string) (v : value) (r : row) : row :=
  if bool_decide (key = "__proto__") then
    match r !! key with
    | Some _ => <[key := v]> r
    | None => r
    end
  else <[key := v]> r.

(** Built-ins of the JavaScript engine that are not interpreted here. *)
Class JSRuntime : Type := {
  (** [Number(s)] on a string: the StringToNumber grammar. *)
  StringToNumber : string -> float;
  (** [String(n)] on a number. *)
  NumberToString : float -> string;
  (** [String(o)] on an inherited object, given by its name: the source text
      of a built-in function, or ["[object Object]"]. *)
  ObjectToString : string -> string;
  (** [a.localeCompare(b)]: the sign of the result. *)
  localeCompare : string -> string -> comparison;
  (** [new Date(v)], as the scalar that stands for the date. *)
  newDate : value -> value;
  (** [String(s).match(new RegExp(pattern))]: the first match, [None] when
      there is none or when the pattern is rejected. *)
  regexFirstMatch : string -> string -> option string;
  (** [s.trim()]. *)
  trim : string -> string;
  (** [DataTransform.evaluateExpression(expression, row)]: the field names
      of the row are replaced by their JSON text in the expression, and the
      text is run through [new Function]; a failure yields [null]. The
      result is taken to depend on the expression and the row only. *)
  evaluateExpression : string -> row -> value
}.

Module JS.

Definition isNaN (f : float) : bool := negb (PrimFloat.eqb f f).

(** An array length or a [Set] size as a number. *)
Definition ofNat (n : nat) : float :=
  PrimFloat.of_uint63 (Uint63.of_Z (Z.of_nat n)).

Section Coercions.
Context {rt : JSRuntime}.

(** [Number(v)]. *)
Definition Number (v : value) : float :=
  match v with
  | VUndefined => PrimFloat.nan
  | VNull => PrimFloat.zero
  | VBool true => PrimFloat.one
  | VBool false => PrimFloat.zero
  | VNum n => n
  | VStr s => StringToNumber s
  | VObject o => StringToNumber (ObjectToString o)
  end.

(** [String(v)]. *)
Definition String (v : value) : string :=
  match v with
  | VUndefined => "undefined"
  | VNull => "null"
  | VBool true => "true"
  | VBool false => "false"
  | VNum n => NumberToString n
  | VStr s => s
  | VObject o => ObjectToString o
  end.

(** [Boolean(v)], also the test of [if (v)] and [!v]. *)
Definition Boolean (v : value) : bool :=
  match v with
  | VUndefined | VNull => false
  | VBool b => b
  | VNum n => negb (isNaN n || PrimFloat.eqb n PrimFloat.zero)
  | VStr s => negb (bool_decide (s = ""))
  | VObject _ => true
  end.

(** [a == b] (IsLooselyEqual). Two objects are equal when they are the same
    object; an object against a scalar is compared through its text. *)
Definition looseEq (a b : value) : bool :=
  match a, b with
  | (VUndefined | VNull), (VUndefined | VNull) => true
  | (VUndefined | VNull), _ => false
  | _, (VUndefined | VNull) => false
  | VObject o, VObject o' => bool_decide (o = o')
  | VObject o, VStr t => bool_decide (ObjectToString o = t)
  | VStr s, VObject o => bool_decide (s = ObjectToString o)
  | VStr s, VStr t => bool_decide (s = t)
  | _, _ => PrimFloat.eqb (Number a) (Number b)
  end.

(** The element conversion of [Array.prototype.join]. *)
Definition joinItem (v : value) : string :=
  match v with
  | VUndefined | VNull => ""
  | _ => String v
  end.
End Coercions.

(** SameValueZero, the equality of [Set]. *)
Definition sameValueZero (a b : value) : bool :=
  match a, b with
  | VUndefined, VUndefined => true
  | VNull, VNull => true
  | VBool x, VBool y => Bool.eqb x y
  | VNum x, VNum y => PrimFloat.eqb x y || (isNaN x && isNaN y)
  | VStr s, VStr t => bool_decide (s = t)
  | VObject o, VObject o' => bool_decide (o = o')
  | _, _ => false
  end.

(** [a === b]. *)
Definition strictEq (a b : value) : bool :=
  match a, b with
  | VUndefined, VUndefined => true
  | VNull, VNull => true
  | VBool x, VBool y => Bool.eqb x y
  | VNum x, VNum y => PrimFloat.eqb x y
  | VStr s, VStr t => bool_decide (s = t)
  | VObject o, VObject o' => bool_decide (o = o')
  | _, _ => false
  end.

(** [new Set(values).size]. *)
Fixpoint distinctValues (seen : list value) (values : list value) : list value :=
  match values with
  | [] => seen
  | v :: rest =>
      if existsb (sameValueZero v) seen then distinctValues seen rest
      else distinctValues (seen ++ [v]) rest
  end.

Definition isNegZero (f : float) : bool :=
  match PrimFloat.classify f with NZero => true | _ => false end.
Definition isPosZero (f : float) : bool :=
  match PrimFloat.classify f with PZero => true | _ => false end.

Definition isInfinite (f : float) : bool :=
  match PrimFloat.classify f with PInf | NInf => true | _ => false end.

(** What [JSON.stringify] writes for a value that JSON cannot hold: [null]
    for [NaN] and for the infinities, [0] for [-0]. *)
Definition jsonValue (v : value) : value :=
  match v with
  | VNum n =>
      if isNaN n || isInfinite n then VNull
      else if isNegZero n then VNum PrimFloat.zero
      else v
  | _ => v
  end.

(** [Math.min(...l)] and [Math.max(...l)]. *)
Definition Math_min (l : list float) : float :=
  if existsb isNaN l then PrimFloat.nan
  else fold_left (fun lowest n =>
         if PrimFloat.ltb n lowest || (isNegZero n && isPosZero lowest)
         then n else lowest) l PrimFloat.infinity.

Definition Math_max (l : list float) : float :=
  if existsb isNaN l then PrimFloat.nan
  else fold_left (fun highest n =>
         if PrimFloat.ltb highest n || (isPosZero n && isNegZero highest)
         then n else highest) l PrimFloat.neg_infinity.

(** [s.startsWith(t)], [s.includes(t)], [s.endsWith(t)]. *)
Definition startsWith (s t : string) : bool := String.prefix t s.
Definition includes (s t : string) : bool :=
  match String.index 0 t s with Some _ => true | None => false end.
Definition endsWith (s t : string) : bool :=
  Nat.leb (String.length t) (String.length s)
  && bool_decide (String.substring (String.length s - String.length t)
                                   (String.length t) s = t).

(** [items.join(sep)]. *)
Fixpoint join (sep : string) (items : list string) : string :=
  match items with
  | [] => ""
  | [x] => x
  | x :: rest => x +:+ sep +:+ join sep rest
  end.

(** [x || dflt] on an optional string: the empty string is falsy. *)
Definition orElse (x : option string) (dflt : string) : string :=
  match x with
  | Some s => if bool_decide (s = "") then dflt else s
  | None => dflt
  end.

(** The truth test of an optional string. *)
Definition truthy (x : option string) : option string :=
  match x with
  | Some s => if bool_decide (s = "") then None else Some s
  | None => None
  end.

(** A thrown value: an [Error] with its message, or something else. *)
Inductive thrown : Type :=
  | ErrorObj (message : string)
  | NotAnError.

(** [error instanceof Error ? error.message : dflt]. *)
Definition messageOr (dflt : string) (e : thrown) : string :=
  match e with
  | ErrorObj m => m
  | NotAnError => dflt
  end.

(** The outcome of a computation that may throw. *)
Inductive completion (A : Type) : Type :=
  | Normal (a : A)
  | Throw (e : thrown).
Arguments Normal {A} a.
Arguments Throw {A} e.

Definition bind {A B} (c : completion A) (k : A -> completion B) : completion B :=
  match c with
  | Normal a => k a
  | Throw e => Throw e
  end.

(** [Array.prototype.sort(cmp)]: the sort is stable, and for a consistent
    comparator its result is the one stable sorted arrangement, which
    insertion from the right computes. *)
Section Sort.
Context {A : Type} (cmp : A -> A -> comparison).

Fixpoint insertSorted (x : A) (l : list A) : list A :=
  match l with
  | [] => [x]
  | y :: rest =>
      match cmp x y with
      | Gt => y :: insertSorted x rest
      | _ => x :: l
      end
  end.

Definition sort (l : list A) : list A := fold_right insertSorted [] l.
End Sort.

(** [Set.prototype.add] and [Map.prototype.set/get/delete]. *)
Definition setAdd (x : string) (s : list string) : list string :=
  if bool_decide (x ∈ s) then s else s ++ [x].

Section JSMap.
Context {V : Type}.

Fixpoint mapGet (k : string) (m : list (string * V)) : option V :=
  match m with
  | [] => None
  | (k', v) :: rest => if bool_decide (k' = k) then Some v else mapGet k rest
  end.

Fixpoint mapSet (k : string) (v : V) (m : list (string * V)) : list (string * V) :=
  match m with
  | [] => [(k, v)]
  | (k', v') :: rest =>
      if bool_decide (k' = k) then (k, v) :: rest else (k', v') :: mapSet k v rest
  end.

Definition mapDelete (k : string) (m : list (string * V)) : list (string * V) :=
  List.filter (fun kv => negb (bool_decide (fst kv = k))) m.
End JSMap.

End JS.

Notation "x <- c ;; k" := (JS.bind c (fun x => k))
  (at level 100, c at next level, right associativity).

(* ================================================================== *)
(** ** Shared type declarations                                        *)
(* ================================================================== *)

(** [NodeType]; [TOther] stands for a tag outside the declared union, which
    the [default] branch of [executeNode] receives. *)
Inductive NodeType : Type :=
  | TDataSource | TFilter | TTransform | TAggregate | TJoin
  | TVisualization | TCustom | TDashboard | TOther.

#[global] Instance NodeType_eq_dec : EqDecision NodeType.
Proof. solve_decision. Defined.

(** The operator of a [FilterCondition]; [OpOther] is the [default] branch. *)
Inductive FilterOperator : Type :=
  | OpEq | OpNe | OpGt | OpGte | OpLt | OpLte
  | OpContains | OpStartsWith | OpEndsWith | OpOther.

Record FilterCondition : Type := {
  fc_field : string;
  fc_operator : FilterOperator;
  fc_value : value
}.

Inductive TransformType : Type :=
  | TrRename | TrCalculate | TrCast | TrExtract | TrDrop | TrOther.

Record TransformOperation : Type := {
  to_type : TransformType;
  to_sourceField : option string;
  to_targetField : option string;
  to_expression : option string;
  to_dataType : option string;
  to_dropFields : option (list string)
}.

(** The function of an [AggregationOperation]; [AggOther] is the [default]
    branch. *)
Inductive AggregationFunction : Type :=
  | AggSum | AggAvg | AggMin | AggMax | AggCount | AggDistinct | AggOther.

Record AggregationOperation : Type := {
  agg_field : string;
  agg_function : AggregationFunction;
  agg_alias : string
}.

Record JoinCondition : Type := {
  leftField : string;
  rightField : string
}.

(** The visualization part of [NodeConfig], which the engine never reads. *)
Record ChartSettings : Type := {
  chartType : option string;
  xAxis : option string;
  yAxis : option (list string);
  nameKey : option string;
  valueKey : option string;
  pieColumn : option string;
  pieSortBy : option string;
  chartConfig : option (list (string * value))
}.

Record NodeConfig : Type := {
  databaseId : option string;
  tableName : option string;
  isInitial : option bool;
  conditions : option (list FilterCondition);
  transformations : option (list TransformOperation);
  groupBy : option (list string);
  aggregations : option (list AggregationOperation);
  joinType : option string;
  joinCondition : option JoinCondition;
  chart : ChartSettings;
  customCode : option string
}.

(** A node. [node_type] and [node_config] are what the engine reads of
    [type] and [config]; [node_shape] stands for what else [JSON.stringify]
    writes of the two: the text of a type outside the declared union, the
    order of the keys of the config and of the objects in it, the keys and
    the tags that the declared types do not name. *)
Record PipelineNode : Type := {
  node_id : string;
  node_type : NodeType;
  node_label : string;
  node_config : NodeConfig;
  node_position : option (float * float);
  node_shape : string
}.

Record PipelineEdge : Type := {
  edge_id : string;
  edge_source : string;
  edge_target : string;
  sourceHandle : option string;
  targetHandle : option string
}.

Record Pipeline : Type := {
  pipeline_id : string;
  pipeline_name : string;
  pipeline_description : option string;
  nodes : list PipelineNode;
  edges : list PipelineEdge;
  createdAt : Z;
  updatedAt : Z
}.

Record LeafNodeResult : Type := {
  nodeId : string;
  nodeLabel : string;
  nodeType : NodeType;
  leaf_data : list row
}.

(** The object [nodeResults] of the engine: its own properties, and the
    array that is its prototype once an assignment under ["__proto__"] has
    taken place ([None]: the prototype of every object literal). *)
Record ResultsObject : Type := {
  entries : gmap string (list row);
  inheritedArray : option (list row)
}.

#[global] Instance ResultsObject_empty : Empty ResultsObject :=
  {| entries := ∅; inheritedArray := None |}.

(** The property that the object has under a key. *)
#[global] Instance ResultsObject_lookup : Lookup string (list row) ResultsObject :=
  fun key results => entries results !! key.

Inductive ExecutionStatus : Type := success | error.

(** [PipelineExecutionResult]; an optional field that is not set is [None],
    and [cached] is [false] when the property is absent. *)
Record PipelineExecutionResult : Type := {
  pipelineId : string;
  status : ExecutionStatus;
  data : option (list row);
  leafResults : option (list LeafNodeResult);
  error_message : option string;
  executionTime : option Z;
  nodeResults : option ResultsObject;
  cached : bool
}.

(* ================================================================== *)
(** ** The row transform library ([dataTransform.ts])                  *)
(* ================================================================== *)

Module DataTransform.
Section WithRuntime.
Context {rt : JSRuntime}.

(** The body of [conditions.every(condition => ...)] for one condition. *)
Definition testCondition (r : row) (condition : FilterCondition) : bool :=
  let value := getField r (fc_field condition) in
  let targetValue := fc_value condition in
  match fc_operator condition with
  | OpEq => JS.looseEq value targetValue
  | OpNe => negb (JS.looseEq value targetValue)
  | OpGt => PrimFloat.ltb (JS.Number targetValue) (JS.Number value)
  | OpGte => PrimFloat.leb (JS.Number targetValue) (JS.Number value)
  | OpLt => PrimFloat.ltb (JS.Number value) (JS.Number targetValue)
  | OpLte => PrimFloat.leb (JS.Number value) (JS.Number targetValue)
  | OpContains => JS.includes (JS.String value) (JS.String targetValue)
  | OpStartsWith => JS.startsWith (JS.String value) (JS.String targetValue)
  | OpEndsWith => JS.endsWith (JS.String value) (JS.String targetValue)
  | OpOther => false
  end.

(** [DataTransform.filter]. *)
Definition filter (data : list row) (conditions : list FilterCondition) : list row :=
  match conditions with
  | [] => data
  | _ => List.filter (fun r => forallb (testCondition r) conditions) data
  end.

(** [DataTransform.castValue]. *)
Definition castValue (v : value) (dataType : string) : value :=
  if bool_decide (dataType = "string") then VStr (JS.String v)
  else if bool_decide (dataType = "number") then VNum (JS.Number v)
  else if bool_decide (dataType = "boolean") then VBool (JS.Boolean v)
  else if bool_decide (dataType = "date") then newDate v
  else v.

(** [DataTransform.extractValue]. *)
Definition extractValue (v : value) (pattern : string) : value :=
  if negb (JS.Boolean v) then VNull
  else match regexFirstMatch pattern (JS.String v) with
       | Some m => VStr m
       | None => VNull
       end.

(** One step of [operations.forEach(op => ...)]: [r] is the input row and
    [newRow] the copy under construction. *)
Definition applyOperation (r : row) (newRow : row) (op : TransformOperation) : row :=
  match to_type op with
  | TrRename =>
      match JS.truthy (to_sourceField op), JS.truthy (to_targetField op) with
      | Some src, Some tgt =>
          if bool_decide (src = tgt) then newRow
          else delete src (setField tgt (getField r src) newRow)
      | _, _ => newRow
      end
  | TrCalculate =>
      match JS.truthy (to_expression op), JS.truthy (to_targetField op) with
      | Some expression, Some tgt => setField tgt (evaluateExpression expression r) newRow
      | _, _ => newRow
      end
  | TrCast =>
      match JS.truthy (to_sourceField op), JS.truthy (to_dataType op),
            JS.truthy (to_targetField op) with
      | Some src, Some dataType, Some tgt =>
          setField tgt (castValue (getField r src) dataType) newRow
      | _, _, _ => newRow
      end
  | TrExtract =>
      match JS.truthy (to_sourceField op), JS.truthy (to_expression op),
            JS.truthy (to_targetField op) with
      | Some src, Some expression, Some tgt =>
          setField tgt (extractValue (getField r src) expression) newRow
      | _, _, _ => newRow
      end
  | TrDrop =>
      match to_dropFields op with
      | Some dropFields => fold_left (fun acc field => delete field acc) dropFields newRow
      | None => newRow
      end
  | TrOther => newRow
  end.

(** [DataTransform.transform]. *)
Definition transform (data : list row) (operations : list TransformOperation) : list row :=
  match operations with
  | [] => data
  | _ => map (fun r => fold_left (applyOperation r) operations r) data
  end.

(** The [values] of [performAggregation]: the field of every row, without
    the [null] and [undefined] ones. *)
Definition presentValue (v : value) : bool :=
  match v with
  | VNull | VUndefined => false
  | _ => true
  end.

Definition aggregationValues (data : list row) (agg : AggregationOperation) : list value :=
  List.filter presentValue (map (fun r => getField r (agg_field agg)) data).

(** The rows whose field is neither [null] nor [undefined]. *)
Definition rowsWithField (field : string) (data : list row) : list row :=
  List.filter (fun r => presentValue (getField r field)) data.

(** [values.reduce((acc, val) => acc + Number(val), 0)]. *)
Definition sumValues (values : list value) : float :=
  fold_left (fun acc val => PrimFloat.add acc (JS.Number val)) values PrimFloat.zero.

(** [DataTransform.performAggregation]. *)
Definition performAggregation (data : list row) (agg : AggregationOperation) : value :=
  let values := aggregationValues data agg in
  match agg_function agg with
  | AggSum => VNum (sumValues values)
  | AggAvg =>
      if Nat.ltb 0 (length values)
      then VNum (PrimFloat.div (sumValues values) (JS.ofNat (length values)))
      else VNum PrimFloat.zero
  | AggMin =>
      if Nat.ltb 0 (length values) then VNum (JS.Math_min (map JS.Number values))
      else VNull
  | AggMax =>
      if Nat.ltb 0 (length values) then VNum (JS.Math_max (map JS.Number values))
      else VNull
  | AggCount => VNum (JS.ofNat (length values))
  | AggDistinct => VNum (JS.ofNat (length (JS.distinctValues [] values)))
  | AggOther => VNull
  end.

(** [aggregations.forEach(agg => result[agg.alias] = performAggregation(...))]. *)
Definition addAggregations (groupData : list row)
    (aggregations : list AggregationOperation) (result : row) : row :=
  fold_left (fun acc agg => setField (agg_alias agg) (performAggregation groupData agg) acc)
            aggregations result.

(** The group key of a row. *)
Definition groupKey (groupBy : list string) (r : row) : string :=
  JS.join "|" (map (fun field => JS.joinItem (getField r field)) groupBy).

(** [data.forEach(row => ...)] filling the [groups] map. *)
Definition addToGroups (groupBy : list string)
    (groups : list (string * list row)) (r : row) : list (string * list row) :=
  let key := groupKey groupBy r in
  match JS.mapGet key groups with
  | Some members => JS.mapSet key (members ++ [r]) groups
  | None => JS.mapSet key [r] groups
  end.

(** [DataTransform.aggregate]. A group is created with its first row, so
    [groupData[0]] exists. *)
Definition aggregate (data : list row) (groupBy : list string)
    (aggregations : list AggregationOperation) : list row :=
  match groupBy with
  | [] => [addAggregations data aggregations ∅]
  | _ =>
      let groups := fold_left (addToGroups groupBy) data [] in
      map (fun g : string * list row =>
             let groupData := snd g in
             let first := default ∅ (head groupData) in
             let result :=
               fold_left (fun acc field => setField field (getField first field) acc)
                         groupBy (∅ : row) in
             addAggregations groupData aggregations result)
          groups
  end.

(** [rightData.filter(rightRow => leftRow[leftField] === rightRow[rightField])]
    and its mirror image. *)
Definition matchesOfLeft (rightData : list row) (leftField rightField : string)
    (leftRow : row) : list row :=
  List.filter
    (fun rightRow => JS.strictEq (getField leftRow leftField) (getField rightRow rightField))
    rightData.

Definition matchesOfRight (leftData : list row) (leftField rightField : string)
    (rightRow : row) : list row :=
  List.filter
    (fun leftRow => JS.strictEq (getField leftRow leftField) (getField rightRow rightField))
    leftData.

(** The body of [leftData.forEach(leftRow => ...)]; [{ ...leftRow, ...rightRow }]
    is the union in which the fields of [rightRow] win. *)
Definition joinLeftRow (rightData : list row) (leftField rightField joinType : string)
    (results : list row) (leftRow : row) : list row :=
  let matches := matchesOfLeft rightData leftField rightField leftRow in
  if Nat.ltb 0 (length matches) then
    fold_left (fun acc rightRow => acc ++ [rightRow ∪ leftRow]) matches results
  else if bool_decide (joinType = "left") then results ++ [leftRow]
  else results.

(** The body of [rightData.forEach(rightRow => ...)]. *)
Definition joinRightRow (leftData : list row) (leftField rightField joinType : string)
    (results : list row) (rightRow : row) : list row :=
  let matches := matchesOfRight leftData leftField rightField rightRow in
  if Nat.eqb (length matches) 0 then
    if bool_decide (joinType = "right") then results ++ [rightRow]
    else if bool_decide (joinType = "outer") then
      let alreadyAdded :=
        existsb (fun r => JS.strictEq (getField r rightField) (getField rightRow rightField))
                results in
      if alreadyAdded then results else results ++ [rightRow]
    else results
  else results.

(** [DataTransform.join]; the join type is the string the caller passes. *)
Definition join (leftData rightData : list row) (leftField rightField : string)
    (joinType : string) : list row :=
  let results :=
    if bool_decide (joinType = "inner") || bool_decide (joinType = "left")
    then fold_left (joinLeftRow rightData leftField rightField joinType) leftData []
    else [] in
  if bool_decide (joinType = "right") || bool_decide (joinType = "outer")
  then fold_left (joinRightRow leftData leftField rightField joinType) rightData results
  else results.

End WithRuntime.
End DataTransform.

(* ================================================================== *)
(** ** The host of the engine                                          *)
(* ================================================================== *)

(** What [calculatePipelineHash] serialises: of a node its id, type and
    config, of an edge its two ends. *)
Record NormalizedNode : Type := {
  n_id : string;
  n_type : NodeType;
  n_config : NodeConfig;
  n_shape : string
}.

Record NormalizedEdge : Type := {
  e_source : string;
  e_target : string
}.

Record NormalizedPipeline : Type := {
  n_nodes : list NormalizedNode;
  n_edges : list NormalizedEdge
}.

(** What [JSON.stringify] writes of the object: the values are replaced by
    what is written for them. Two objects with one image have one text. *)
Definition jsonCondition (c : FilterCondition) : FilterCondition :=
  {| fc_field := fc_field c;
     fc_operator := fc_operator c;
     fc_value := JS.jsonValue (fc_value c) |}.

Definition jsonChart (c : ChartSettings) : ChartSettings :=
  {| chartType := chartType c; xAxis := xAxis c; yAxis := yAxis c;
     nameKey := nameKey c; valueKey := valueKey c;
     pieColumn := pieColumn c; pieSortBy := pieSortBy c;
     chartConfig := map (fun kv => (fst kv, JS.jsonValue (snd kv))) <$> chartConfig c |}.

Definition jsonConfig (c : NodeConfig) : NodeConfig :=
  {| databaseId := databaseId c; tableName := tableName c; isInitial := isInitial c;
     conditions := map jsonCondition <$> conditions c;
     transformations := transformations c; groupBy := groupBy c;
     aggregations := aggregations c;
     joinType := joinType c; joinCondition := joinCondition c;
     chart := jsonChart (chart c); customCode := customCode c |}.

Definition jsonNode (n : NormalizedNode) : NormalizedNode :=
  {| n_id := n_id n; n_type := n_type n; n_config := jsonConfig (n_config n);
     n_shape := n_shape n |}.

Definition jsonOf (np : NormalizedPipeline) : NormalizedPipeline :=
  {| n_nodes := map jsonNode (n_nodes np); n_edges := n_edges np |}.

(** The services around the engine. *)
Class Host : Type := {
  (** [crypto.createHash('md5').update(text).digest('hex')] for the text
      that [JSON.stringify] writes of an object, given by the image of the
      object. *)
  md5HexOfJson : NormalizedPipeline -> string;
  (** The successive readings of [Date.now()], in milliseconds. *)
  dateNow : nat -> Z;
  (** [(await dbManager.getDatabaseData(databaseId, page, limit)).data]. *)
  getDatabaseData : string -> nat -> nat -> JS.completion (list row);
  (** The function [process] that [new Function] builds from the custom
      code of a node, applied to its positional arguments: it throws, or
      returns an array ([Some]), or returns something else ([None]). The
      elements of the array are rows. *)
  userFunction : string -> list (list row) -> JS.completion (option (list row))
}.

(* ================================================================== *)
(** ** The cache manager ([CacheManager.ts])                           *)
(* ================================================================== *)

Module CacheManager.

Record CacheEntry (T : Type) : Type := {
  entry_data : T;
  timestamp : Z;
  ttl : Z
}.
Arguments entry_data {T} _.
Arguments timestamp {T} _.
Arguments ttl {T} _.

(** Row caps and the entry cap are counts; TTLs are milliseconds. *)
Record CacheConfig : Type := {
  maxExecutionResultRows : nat;
  maxNodeResultRows : nat;
  maxDashboardElementRows : nat;
  pipelineExecutionTTL : Z;
  nodeMetadataTTL : Z;
  dashboardCacheTTL : Z;
  maxCacheEntries : nat
}.

Definition DEFAULT_CACHE_CONFIG : CacheConfig := {|
  maxExecutionResultRows := 1000;
  maxNodeResultRows := 10 * 1000;
  maxDashboardElementRows := 500;
  pipelineExecutionTTL := 5 * 60 * 1000;
  nodeMetadataTTL := 30 * 60 * 1000;
  dashboardCacheTTL := 10 * 60 * 1000;
  maxCacheEntries := 100
|}.

Record PipelineExecutionCache : Type := {
  pipelineId : string;
  pipelineHash : string;
  nodeResults : gmap string (list row);
  leafResults : list LeafNodeResult;
  executionTime : Z;
  cachedAt : Z
}.

(** The state the engine runs in: the fields of the cache manager singleton
    that the engine reaches, and the number of clock readings made. *)
Record World : Type := {
  config : CacheConfig;
  pipelineExecutionCache : list (string * CacheEntry PipelineExecutionCache);
  clockReads : nat
}.

Definition setCache (w : World)
    (c : list (string * CacheEntry PipelineExecutionCache)) : World :=
  {| config := config w; pipelineExecutionCache := c; clockReads := clockReads w |}.

Section WithHost.
Context {host : Host}.

(** [Date.now()]. *)
Definition now (w : World) : Z * World :=
  (dateNow (clockReads w),
   {| config := config w;
      pipelineExecutionCache := pipelineExecutionCache w;
      clockReads := S (clockReads w) |}).

(** The object that [calculatePipelineHash] passes to [JSON.stringify]. *)
Definition normalize (pipeline : Pipeline) : NormalizedPipeline :=
  {| n_nodes := map (fun n => {| n_id := node_id n;
                                 n_type := node_type n;
                                 n_config := node_config n;
                                 n_shape := node_shape n |}) (nodes pipeline);
     n_edges := map (fun e => {| e_source := edge_source e;
                                 e_target := edge_target e |}) (edges pipeline) |}.

(** [calculatePipelineHash]. *)
Definition calculatePipelineHash (pipeline : Pipeline) : string :=
  md5HexOfJson (jsonOf (normalize pipeline)).

(** [enforceMaxEntries]. *)
Definition enforceMaxEntries {T} (maxEntries : nat)
    (cache : list (string * CacheEntry T)) : list (string * CacheEntry T) :=
  if Nat.leb (length cache) maxEntries then cache
  else
    let entries :=
      JS.sort (fun a b => Z.compare (timestamp (snd a)) (timestamp (snd b))) cache in
    let toDelete := take (length cache - maxEntries) entries in
    fold_left (fun c kv => JS.mapDelete (fst kv) c) toDelete cache.

(** [leaf => ({ ...leaf, data: leaf.data.slice(0, cap) })]. *)
Definition limitLeaf (cap : nat) (leaf : LeafNodeResult) : LeafNodeResult :=
  {| nodeId := nodeId leaf;
     nodeLabel := nodeLabel leaf;
     nodeType := nodeType leaf;
     leaf_data := take cap (leaf_data leaf) |}.

(** The [cacheData] object that [cachePipelineExecution] builds; [results]
    is [Object.entries(nodeResults)], the properties of the object. *)
Definition limitedCacheData (cfg : CacheConfig) (id hash : string)
    (results : gmap string (list row)) (leaves : list LeafNodeResult)
    (time : Z) (cachedAtNow : Z) : PipelineExecutionCache :=
  {| pipelineId := id;
     pipelineHash := hash;
     nodeResults := take (maxNodeResultRows cfg) <$> results;
     leafResults := map (limitLeaf (maxExecutionResultRows cfg)) leaves;
     executionTime := time;
     cachedAt := cachedAtNow |}.

(** [cachePipelineExecution]. *)
Definition cachePipelineExecution (id hash : string)
    (results : gmap string (list row)) (leaves : list LeafNodeResult)
    (time : Z) (w : World) : World :=
  let '(cachedAtNow, w1) := now w in
  let cacheData := limitedCacheData (config w1) id hash results leaves time cachedAtNow in
  let '(stamp, w2) := now w1 in
  let entry := {| entry_data := cacheData;
                  timestamp := stamp;
                  ttl := pipelineExecutionTTL (config w2) |} in
  let stored := JS.mapSet id entry (pipelineExecutionCache w2) in
  setCache w2 (enforceMaxEntries (maxCacheEntries (config w2)) stored).

(** The entry that [cachePipelineExecution] passes to [Map.set], in terms of
    the world it is called in. *)
Definition writtenEntry (id hash : string) (results : gmap string (list row))
    (leaves : list LeafNodeResult) (time : Z) (w : World)
    : CacheEntry PipelineExecutionCache :=
  {| entry_data := limitedCacheData (config w) id hash results leaves time
                     (dateNow (clockReads w));
     timestamp := dateNow (S (clockReads w));
     ttl := pipelineExecutionTTL (config w) |}.

(** [getPipelineExecution]: [None] is [null]. *)
Definition getPipelineExecution (id hash : string) (w : World)
    : option PipelineExecutionCache * World :=
  match JS.mapGet id (pipelineExecutionCache w) with
  | None => (None, w)
  | Some entry =>
      let '(t, w1) := now w in
      if Z.ltb (ttl entry) (t - timestamp entry) then
        (None, setCache w1 (JS.mapDelete id (pipelineExecutionCache w1)))
      else if negb (bool_decide (pipelineHash (entry_data entry) = hash)) then
        (None, setCache w1 (JS.mapDelete id (pipelineExecutionCache w1)))
      else (Some (entry_data entry), w1)
  end.

(** [invalidatePipelineExecution]. *)
Definition invalidatePipelineExecution (id : string) (w : World) : World :=
  setCache w (JS.mapDelete id (pipelineExecutionCache w)).

(** [invalidatePipelinesByDatabase]. *)
Definition usesDatabase (db : string) (pipeline : Pipeline) : bool :=
  existsb (fun node => bool_decide (node_type node = TDataSource)
                       && bool_decide (databaseId (node_config node) = Some db))
          (nodes pipeline).

Definition invalidatePipelinesByDatabase (db : string) (allPipelines : list Pipeline)
    (w : World) : World :=
  let affectedPipelineIds := map pipeline_id (List.filter (usesDatabase db) allPipelines) in
  fold_left (fun w' id => invalidatePipelineExecution id w') affectedPipelineIds w.

(** [Partial<CacheConfig>]: a field that is not given is [None]. *)
Record PartialCacheConfig : Type := {
  new_maxExecutionResultRows : option nat;
  new_maxNodeResultRows : option nat;
  new_maxDashboardElementRows : option nat;
  new_pipelineExecutionTTL : option Z;
  new_nodeMetadataTTL : option Z;
  new_dashboardCacheTTL : option Z;
  new_maxCacheEntries : option nat
}.

(** [{ ...base, ...given }]. *)
Definition mergeConfig (base : CacheConfig) (given : PartialCacheConfig) : CacheConfig :=
  {| maxExecutionResultRows :=
       default (maxExecutionResultRows base) (new_maxExecutionResultRows given);
     maxNodeResultRows := default (maxNodeResultRows base) (new_maxNodeResultRows given);
     maxDashboardElementRows :=
       default (maxDashboardElementRows base) (new_maxDashboardElementRows given);
     pipelineExecutionTTL :=
       default (pipelineExecutionTTL base) (new_pipelineExecutionTTL given);
     nodeMetadataTTL := default (nodeMetadataTTL base) (new_nodeMetadataTTL given);
     dashboardCacheTTL := default (dashboardCacheTTL base) (new_dashboardCacheTTL given);
     maxCacheEntries := default (maxCacheEntries base) (new_maxCacheEntries given) |}.

(** [getConfig] and [updateConfig]. *)
Definition getConfig (w : World) : CacheConfig := config w.

Definition updateConfig (given : PartialCacheConfig) (w : World) : World :=
  {| config := mergeConfig (config w) given;
     pipelineExecutionCache := pipelineExecutionCache w;
     clockReads := clockReads w |}.

(** [NodeMetadata]. *)
Record NodeMetadata : Type := {
  meta_nodeId : string;
  meta_pipelineId : string;
  columns : list string;
  rowCount : option nat;
  lastUpdated : Z
}.

(** The singleton with its three maps: the world of the engine, the node
    metadata and the dashboard elements. *)
Record Caches : Type := {
  world : World;
  nodeMetadataCache : list (string * CacheEntry NodeMetadata);
  dashboardElementCache : list (string * CacheEntry (list row))
}.

(** The key [`${owner}:${item}`] of the metadata and dashboard maps. *)
Definition compositeKey (owner item : string) : string := owner +:+ ":" +:+ item.

(** [Date.now() - entry.timestamp > entry.ttl]. *)
Definition expired {T} (t : Z) (entry : CacheEntry T) : bool :=
  Z.ltb (ttl entry) (t - timestamp entry).

(** [keysToDelete.forEach(key => cache.delete(key))]. *)
Definition deleteKeys {T} (keysToDelete : list string)
    (cache : list (string * CacheEntry T)) : list (string * CacheEntry T) :=
  fold_left (fun c key => JS.mapDelete key c) keysToDelete cache.

(** The keys that [cache.forEach] collects under a test. *)
Definition keysWhere {T} (test : string -> CacheEntry T -> bool)
    (cache : list (string * CacheEntry T)) : list string :=
  map fst (List.filter (fun kv => test (fst kv) (snd kv)) cache).

(** [cacheNodeMetadata]. *)
Definition cacheNodeMetadata (pipelineId nodeId : string) (cols : list string)
    (rows : option nat) (c : Caches) : Caches :=
  let key := compositeKey pipelineId nodeId in
  let '(lastUpdatedNow, w1) := now (world c) in
  let '(stamp, w2) := now w1 in
  let entry := {| entry_data := {| meta_nodeId := nodeId;
                                   meta_pipelineId := pipelineId;
                                   columns := cols;
                                   rowCount := rows;
                                   lastUpdated := lastUpdatedNow |};
                  timestamp := stamp;
                  ttl := nodeMetadataTTL (config w2) |} in
  {| world := w2;
     nodeMetadataCache :=
       enforceMaxEntries (maxCacheEntries (config w2))
         (JS.mapSet key entry (nodeMetadataCache c));
     dashboardElementCache := dashboardElementCache c |}.

(** [getNodeMetadata]: [None] is [null]. *)
Definition getNodeMetadata (pipelineId nodeId : string) (c : Caches)
    : option NodeMetadata * Caches :=
  let key := compositeKey pipelineId nodeId in
  match JS.mapGet key (nodeMetadataCache c) with
  | None => (None, c)
  | Some entry =>
      let '(t, w1) := now (world c) in
      if expired t entry then
        (None, {| world := w1;
                  nodeMetadataCache := JS.mapDelete key (nodeMetadataCache c);
                  dashboardElementCache := dashboardElementCache c |})
      else (Some (entry_data entry),
            {| world := w1;
               nodeMetadataCache := nodeMetadataCache c;
               dashboardElementCache := dashboardElementCache c |})
  end.

(** [invalidateNodeMetadata]: the node id is optional. *)
Definition invalidateNodeMetadata (pipelineId : string) (nodeId : option string)
    (c : Caches) : Caches :=
  {| world := world c;
     nodeMetadataCache :=
       match JS.truthy nodeId with
       | Some node => JS.mapDelete (compositeKey pipelineId node) (nodeMetadataCache c)
       | None =>
           deleteKeys
             (keysWhere (fun key _ => JS.startsWith key (pipelineId +:+ ":"))
                        (nodeMetadataCache c))
             (nodeMetadataCache c)
       end;
     dashboardElementCache := dashboardElementCache c |}.

(** [cacheDashboardElement]. *)
Definition cacheDashboardElement (dashboardId elementId : string) (rows : list row)
    (c : Caches) : Caches :=
  let key := compositeKey dashboardId elementId in
  let limitedData := take (maxDashboardElementRows (config (world c))) rows in
  let '(stamp, w1) := now (world c) in
  let entry := {| entry_data := limitedData;
                  timestamp := stamp;
                  ttl := dashboardCacheTTL (config w1) |} in
  {| world := w1;
     nodeMetadataCache := nodeMetadataCache c;
     dashboardElementCache :=
       enforceMaxEntries (maxCacheEntries (config w1))
         (JS.mapSet key entry (dashboardElementCache c)) |}.

(** [getDashboardElement]: [None] is [null]. *)
Definition getDashboardElement (dashboardId elementId : string) (c : Caches)
    : option (list row) * Caches :=
  let key := compositeKey dashboardId elementId in
  match JS.mapGet key (dashboardElementCache c) with
  | None => (None, c)
  | Some entry =>
      let '(t, w1) := now (world c) in
      if expired t entry then
        (None, {| world := w1;
                  nodeMetadataCache := nodeMetadataCache c;
                  dashboardElementCache := JS.mapDelete key (dashboardElementCache c) |})
      else (Some (entry_data entry),
            {| world := w1;
               nodeMetadataCache := nodeMetadataCache c;
               dashboardElementCache := dashboardElementCache c |})
  end.

(** [invalidateDashboard]. *)
Definition invalidateDashboard (dashboardId : string) (c : Caches) : Caches :=
  {| world := world c;
     nodeMetadataCache := nodeMetadataCache c;
     dashboardElementCache :=
       deleteKeys
         (keysWhere (fun key _ => JS.startsWith key (dashboardId +:+ ":"))
                    (dashboardElementCache c))
         (dashboardElementCache c) |}.

(** [cleanExpiredCache]: one reading of the clock serves the three maps. *)
Definition cleanExpired {T} (t : Z) (cache : list (string * CacheEntry T))
    : list (string * CacheEntry T) :=
  deleteKeys (keysWhere (fun _ entry => expired t entry) cache) cache.

Definition cleanExpiredCache (c : Caches) : Caches :=
  let '(t, w1) := now (world c) in
  {| world := setCache w1 (cleanExpired t (pipelineExecutionCache w1));
     nodeMetadataCache := cleanExpired t (nodeMetadataCache c);
     dashboardElementCache := cleanExpired t (dashboardElementCache c) |}.

(** [clearAll]. *)
Definition clearAll (c : Caches) : Caches :=
  {| world := setCache (world c) [];
     nodeMetadataCache := [];
     dashboardElementCache := [] |}.

(** [getStats]: of every map its size and its keys, and the configuration. *)
Record CacheStats : Type := {
  stats_size : nat;
  stats_entries : list string
}.

Definition statsOf {T} (cache : list (string * CacheEntry T)) : CacheStats :=
  {| stats_size := length cache; stats_entries := map fst cache |}.

Definition getStats (c : Caches) : CacheStats * CacheStats * CacheStats * CacheConfig :=
  (statsOf (pipelineExecutionCache (world c)),
   statsOf (nodeMetadataCache c),
   statsOf (dashboardElementCache c),
   config (world c)).

End WithHost.
End CacheManager.

(* ================================================================== *)
(** ** The pipeline engine ([PipelineEngine])                          *)
(* ================================================================== *)

Module PipelineEngine.

(** What [getNodeInputData] returns: one row array ([any[]]), or for a
    custom node with several incoming edges an array of row arrays. *)
Inductive inputData : Type :=
  | Single (rows : list row)
  | Multi (inputs : list (list row)).

(** The row array a handler for one input works on. Only a custom node
    ever receives [Multi] (lemma [getNodeInputData_Multi]). *)
Definition rowsOf (input : inputData) : list row :=
  match input with
  | Single rows => rows
  | Multi _ => []
  end.

Section WithHost.
Context {rt : JSRuntime} {host : Host}.

(** [pipeline.nodes.find(n => n.id === nodeId)]. *)
Definition findNode (pipeline : Pipeline) (id : string) : option PipelineNode :=
  List.find (fun n => bool_decide (node_id n = id)) (nodes pipeline).

(** [items.forEach(item => visit(item))] for a closure [visit] that works
    on a state and may run out of budget ([None]). *)
Definition forEachVisit {S E : Type} (visit : E -> S -> option S)
    (items : list E) (init : option S) : option S :=
  fold_left
    (fun acc item =>
       match acc with
       | Some s => visit item s
       | None => None
       end)
    items init.

(** The closure [visit] of [findReachableNodes], with the edges it follows.
    The sets [reachable] and [visited] receive the same insertions: one list
    stands for both. [None] means that the recursion budget ran out. *)
Fixpoint reachVisit (fuel : nat) (es : list PipelineEdge)
    (id : string) (visited : list string) : option (list string) :=
  if bool_decide (id ∈ visited) then Some visited
  else match fuel with
       | O => None
       | S fuel' =>
           forEachVisit (fun edge v => reachVisit fuel' es (edge_target edge) v)
             (base.filter (fun e => edge_source e = id) es)
             (Some (visited ++ [id]))
       end.

(** [findReachableNodes]. Every call of [visit] that passes the guard adds
    a new node, and only the start and the edge targets can be added: a
    budget of one more than the number of edges is never used up (lemma
    [reachVisit_total]). *)
Definition findReachableNodes (pipeline : Pipeline) (startNodeId : string) : list string :=
  default [] (reachVisit (S (length (edges pipeline))) (edges pipeline) startNodeId []).

(** [findLeafNodes]. *)
Definition findLeafNodes (pipeline : Pipeline) (reachableNodes : list string) : list string :=
  List.filter
    (fun id => negb (existsb (fun e => bool_decide (edge_source e = id)) (edges pipeline)))
    reachableNodes.

(** [executeDataSource]. *)
Definition executeDataSource (node : PipelineNode) : JS.completion (list row) :=
  match JS.truthy (databaseId (node_config node)) with
  | None =>
      JS.Throw (JS.ErrorObj
        ("データソース「" +:+ node_label node +:+
         "」に参照データが設定されていません。ノードをクリックして設定パネルからデータベースを選択してください。"))
  | Some dbId =>
      match getDatabaseData dbId 1 (10 * 1000) with
      | JS.Normal rows => JS.Normal rows
      | JS.Throw e =>
          JS.Throw (JS.ErrorObj
            ("データソース「" +:+ node_label node +:+
             "」のデータ取得に失敗しました: " +:+ JS.messageOr "不明なエラー" e))
      end
  end.

(** [executeFilter]. *)
Definition executeFilter (node : PipelineNode) (input : list row) : list row :=
  match conditions (node_config node) with
  | None | Some [] => input
  | Some cs => DataTransform.filter input cs
  end.

(** [executeTransform]. *)
Definition executeTransform (node : PipelineNode) (input : list row) : list row :=
  match transformations (node_config node) with
  | None | Some [] => input
  | Some ops => DataTransform.transform input ops
  end.

(** [executeAggregate]. *)
Definition executeAggregate (node : PipelineNode) (input : list row) : list row :=
  match aggregations (node_config node) with
  | None | Some [] => input
  | Some aggs => DataTransform.aggregate input (default [] (groupBy (node_config node))) aggs
  end.

(** [executeJoin]: both branches return the input. *)
Definition executeJoin (node : PipelineNode) (input : list row) : list row :=
  match joinCondition (node_config node) with
  | None => input
  | Some _ => input
  end.

(** [Array.isArray(inputData[0]) && Array.isArray(inputData)]: a row is an
    object, so only an array of row arrays with a first element passes. *)
Definition positionalArguments (input : inputData) : list (list row) :=
  match input with
  | Multi (first :: rest) => first :: rest
  | Multi [] => [[]]
  | Single rows => [rows]
  end.

(** [executeCustom]. *)
Definition executeCustom (node : PipelineNode) (input : inputData) : JS.completion (list row) :=
  match JS.truthy (customCode (node_config node)) with
  | None =>
      match input with
      | Multi (first :: _) => JS.Normal first
      | Multi [] => JS.Normal []
      | Single rows => JS.Normal rows
      end
  | Some code =>
      if bool_decide (trim code = "") then
        match input with
        | Multi (first :: _) => JS.Normal first
        | Multi [] => JS.Normal []
        | Single rows => JS.Normal rows
        end
      else
        let attempt :=
          match userFunction code (positionalArguments input) with
          | JS.Normal (Some result) => JS.Normal result
          | JS.Normal None => JS.Throw (JS.ErrorObj "Custom function must return an array")
          | JS.Throw e => JS.Throw e
          end in
        match attempt with
        | JS.Normal result => JS.Normal result
        | JS.Throw e =>
            JS.Throw (JS.ErrorObj
              ("Custom code execution failed: " +:+ JS.messageOr "Unknown error" e))
        end
  end.

(** [executeNode]. *)
Definition executeNode (node : PipelineNode) (input : inputData) : JS.completion (list row) :=
  match node_type node with
  | TDataSource => executeDataSource node
  | TFilter => JS.Normal (executeFilter node (rowsOf input))
  | TTransform => JS.Normal (executeTransform node (rowsOf input))
  | TAggregate => JS.Normal (executeAggregate node (rowsOf input))
  | TJoin => JS.Normal (executeJoin node (rowsOf input))
  | TVisualization => JS.Normal (rowsOf input)
  | TDashboard => JS.Normal (rowsOf input)
  | TCustom => executeCustom node input
  | TOther => JS.Normal (rowsOf input)
  end.

(** [nodeResults[nodeId] = outputData]. [nodeResults] starts as [{}] and so
    has no property ["__proto__"] of its own: under that name the assignment
    reaches the setter of [Object.prototype], which makes the array the
    prototype of [nodeResults] and adds no property. *)
Definition storeResult (id : string) (outputData : list row)
    (results : ResultsObject) : ResultsObject :=
  if bool_decide (id = "__proto__")
  then {| entries := entries results; inheritedArray := Some outputData |}
  else {| entries := <[id := outputData]> (entries results);
          inheritedArray := inheritedArray results |}.

(** [nodeResults[id] || []]: the array stored under the id; under
    ["__proto__"] the array that is the prototype; [[]] otherwise. *)
Definition resultOf (results : ResultsObject) (id : string) : list row :=
  match entries results !! id with
  | Some rows => rows
  | None =>
      if bool_decide (id = "__proto__") then default [] (inheritedArray results) else []
  end.

(** The comparator of [getNodeInputData]. *)
Definition compareHandles (a b : PipelineEdge) : comparison :=
  localeCompare (JS.orElse (targetHandle a) "input-0")
                (JS.orElse (targetHandle b) "input-0").

(** [getNodeInputData]. *)
Definition getNodeInputData (node : PipelineNode) (pipeline : Pipeline)
    (results : ResultsObject) : inputData :=
  let incomingEdges :=
    base.filter (fun e => edge_target e = node_id node) (edges pipeline) in
  match incomingEdges with
  | [] => Single []
  | [edge] => Single (resultOf results (edge_source edge))
  | first :: _ =>
      if bool_decide (node_type node = TCustom) then
        let sortedEdges := JS.sort compareHandles incomingEdges in
        Multi (map (fun edge => resultOf results (edge_source edge)) sortedEdges)
      else Single (resultOf results (edge_source first))
  end.

(** The closure [visit] of [topologicalSort]; the state is the [visited] set
    and the [result] array. [None] means that the budget ran out. *)
Fixpoint topoVisit (fuel : nat) (es : list PipelineEdge) (reachableNodes : list string)
    (id : string) (st : list string * list string)
    : option (list string * list string) :=
  if bool_decide (id ∈ fst st) then Some st
  else if negb (bool_decide (id ∈ reachableNodes)) then Some st
  else match fuel with
       | O => None
       | S fuel' =>
           match forEachVisit
                   (fun edge s => topoVisit fuel' es reachableNodes (edge_source edge) s)
                   (base.filter (fun e => edge_target e = id) es)
                   (Some (fst st ++ [id], snd st)) with
           | Some s => Some (fst s, snd s ++ [id])
           | None => None
           end
       end.

(** [topologicalSort]. A call of [visit] that passes both guards marks a
    new reachable node: a budget of the size of the reachable set is never
    used up (lemma [topoVisit_total]). *)
Definition topologicalSort (pipeline : Pipeline) (reachableNodes : list string) : list string :=
  let fuel := length reachableNodes in
  let noIncomingEdges :=
    List.filter
      (fun node =>
         bool_decide (node_id node ∈ reachableNodes)
         && negb (existsb (fun e => bool_decide (edge_target e = node_id node))
                          (edges pipeline)))
      (nodes pipeline) in
  let visit := topoVisit fuel (edges pipeline) reachableNodes in
  let st1 := forEachVisit visit (map node_id noIncomingEdges) (Some ([], [])) in
  let st2 := forEachVisit visit reachableNodes st1 in
  match st2 with
  | Some s => snd s
  | None => []
  end.

(** The data source nodes and the union of what they reach. *)
Definition dataSourceNodes (pipeline : Pipeline) : list PipelineNode :=
  List.filter (fun n => bool_decide (node_type n = TDataSource)) (nodes pipeline).

Definition collectReachable (pipeline : Pipeline) (sources : list PipelineNode) : list string :=
  fold_left
    (fun reachableNodes dataSourceNode =>
       fold_left (fun acc id => JS.setAdd id acc)
                 (findReachableNodes pipeline (node_id dataSourceNode))
                 reachableNodes)
    sources [].

(** The loop [for (const nodeId of executionOrder)]. *)
Fixpoint runNodes (pipeline : Pipeline) (executionOrder : list string)
    (results : ResultsObject) : JS.completion ResultsObject :=
  match executionOrder with
  | [] => JS.Normal results
  | id :: rest =>
      match findNode pipeline id with
      | None => runNodes pipeline rest results
      | Some node =>
          outputData <- executeNode node (getNodeInputData node pipeline results);;
          runNodes pipeline rest (storeResult id outputData results)
      end
  end.

(** [leafNodes.map(nodeId => ...)]: reading [node.label] of a node that
    [find] did not return is a [TypeError]. *)
Fixpoint collectLeafResults (pipeline : Pipeline) (results : ResultsObject)
    (leafNodes : list string) : JS.completion (list LeafNodeResult) :=
  match leafNodes with
  | [] => JS.Normal []
  | id :: rest =>
      match findNode pipeline id with
      | None =>
          JS.Throw (JS.ErrorObj "Cannot read properties of undefined (reading 'label')")
      | Some node =>
          others <- collectLeafResults pipeline results rest;;
          JS.Normal ({| nodeId := id;
                        nodeLabel := node_label node;
                        nodeType := node_type node;
                        leaf_data := resultOf results id |} :: others)
      end
  end.

(** The [try] block of [execute] up to the leaf results. *)
Definition computeResults (pipeline : Pipeline)
    : JS.completion (ResultsObject * list LeafNodeResult) :=
  match dataSourceNodes pipeline with
  | [] => JS.Throw (JS.ErrorObj "No data source node found in pipeline")
  | sources =>
      let reachableNodes := collectReachable pipeline sources in
      let executionOrder := topologicalSort pipeline reachableNodes in
      results <- runNodes pipeline executionOrder ∅;;
      let leafNodes := findLeafNodes pipeline reachableNodes in
      leaves <- collectLeafResults pipeline results leafNodes;;
      JS.Normal (results, leaves)
  end.

(** [execute] around its [try] block: [tryBlock] is how the block ends up to
    the leaf results, with what it returns or what it throws. The promise
    is fulfilled ([JS.Normal]) or rejected ([JS.Throw]). *)
Definition executeWith (pipeline : Pipeline) (useCache : bool)
    (tryBlock : JS.completion (ResultsObject * list LeafNodeResult))
    (w : CacheManager.World)
    : JS.completion PipelineExecutionResult * CacheManager.World :=
  let '(startTime, w0) := CacheManager.now w in
  let '(cachedResult, w1) :=
    if useCache
    then CacheManager.getPipelineExecution (pipeline_id pipeline)
           (CacheManager.calculatePipelineHash pipeline) w0
    else (None, w0) in
  match cachedResult with
  | Some c =>
      (JS.Normal
         {| pipelineId := pipeline_id pipeline;
            status := success;
            data := Some (match CacheManager.leafResults c with
                          | leaf :: _ => leaf_data leaf
                          | [] => []
                          end);
            leafResults := Some (CacheManager.leafResults c);
            error_message := None;
            executionTime := Some (CacheManager.executionTime c);
            nodeResults := Some {| entries := CacheManager.nodeResults c;
                                   inheritedArray := None |};
            cached := true |}, w1)
  | None =>
      match tryBlock with
      | JS.Normal (results, leaves) =>
          let '(finished, w2) := CacheManager.now w1 in
          let elapsed := (finished - startTime)%Z in
          let firstLeafData :=
            match leaves with
            | leaf :: _ => leaf_data leaf
            | [] => []
            end in
          let w3 :=
            if useCache
            then CacheManager.cachePipelineExecution (pipeline_id pipeline)
                   (CacheManager.calculatePipelineHash pipeline) (entries results)
                   leaves elapsed w2
            else w2 in
          (JS.Normal
             {| pipelineId := pipeline_id pipeline;
                status := success;
                data := Some firstLeafData;
                leafResults := Some leaves;
                error_message := None;
                executionTime := Some elapsed;
                nodeResults := Some results;
                cached := false |}, w3)
      | JS.Throw e =>
          let '(failed, w2) := CacheManager.now w1 in
          (JS.Normal
             {| pipelineId := pipeline_id pipeline;
                status := error;
                data := None;
                leafResults := None;
                error_message := Some (JS.messageOr "Unknown error" e);
                executionTime := Some (failed - startTime)%Z;
                nodeResults := None;
                cached := false |}, w2)
      end
  end.

(** [execute]. *)
Definition execute (pipeline : Pipeline) (useCache : bool) (w : CacheManager.World)
    : JS.completion PipelineExecutionResult * CacheManager.World :=
  executeWith pipeline useCache (computeResults pipeline) w.

End WithHost.
End PipelineEngine.

(* ================================================================== *)
(** ** The vocabulary of the specification                             *)
(* ================================================================== *)

Module Spec.

(** There is an edge [u -> v]. *)
Definition edgeRel (es : list PipelineEdge) (u v : string) : Prop :=
  ∃ e, e ∈ es ∧ edge_source e = u ∧ edge_target e = v.

(** A node is reachable when a directed path, possibly empty, leads to it
    from some node of type [dataSource]. *)
Definition Reachable (pipeline : Pipeline) (x : string) : Prop :=
  ∃ n, n ∈ nodes pipeline ∧ node_type n = TDataSource
       ∧ rtc (edgeRel (edges pipeline)) (node_id n) x.

(** The invariant of a pipeline: node ids are unique and edges reference
    existing node ids. *)
Definition namesNode (pipeline : Pipeline) (id : string) : Prop :=
  ∃ n, n ∈ nodes pipeline ∧ node_id n = id.

Definition wellFormed (pipeline : Pipeline) : Prop :=
  NoDup (map node_id (nodes pipeline))
  ∧ ∀ e, e ∈ edges pipeline →
         namesNode pipeline (edge_source e) ∧ namesNode pipeline (edge_target e).

(** The edge relation restricted to the reachable set, and its acyclicity. *)
Definition reachableEdge (pipeline : Pipeline) (u v : string) : Prop :=
  edgeRel (edges pipeline) u v ∧ Reachable pipeline u ∧ Reachable pipeline v.

Definition acyclicOnReachable (pipeline : Pipeline) : Prop :=
  ∀ x, ¬ tc (reachableEdge pipeline) x x.

(** [u] stands strictly before [v] in a list. *)
Definition before (u v : string) (l : list string) : Prop :=
  ∃ i j, l !! i = Some u ∧ l !! j = Some v ∧ i < j.

(** A comparator as ECMAScript requires of [localeCompare]: a consistent
    comparison, that is a total preorder. *)
Record ConsistentComparator {A : Type} (cmp : A -> A -> comparison) : Prop := {
  cmp_antisym : ∀ a b, cmp b a = CompOpp (cmp a b);
  cmp_trans : ∀ a b c, cmp a b ≠ Gt → cmp b c ≠ Gt → cmp a c ≠ Gt
}.

(** The orders a comparator induces. *)
Definition cmpLe {A : Type} (cmp : A -> A -> comparison) (a b : A) : Prop := cmp a b ≠ Gt.

(** The edges into a node and out of a node. *)
Definition incoming (es : list PipelineEdge) (id : string) : list PipelineEdge :=
  base.filter (fun e => edge_target e = id) es.
Definition outgoing (es : list PipelineEdge) (id : string) : list PipelineEdge :=
  base.filter (fun e => edge_source e = id) es.




(** A row passes every condition of a list. *)
Definition passes {rt : JSRuntime} (cs : list FilterCondition) (r : row) : bool :=
  forallb (DataTransform.testCondition r) cs.

(** The operators that compare numbers. *)
Definition numericOperator (op : FilterOperator) : bool :=
  match op with
  | OpGt | OpGte | OpLt | OpLte => true
  | _ => false
  end.

(** The keys of a list in the order of their first occurrence. *)
Fixpoint distinctKeys (keys : list string) : list string :=
  match keys with
  | [] => []
  | k :: rest => k :: List.filter (fun k' => negb (bool_decide (k' = k))) (distinctKeys rest)
  end.

(** The rows of a group: the rows with a given group key, in their order. *)
Definition rowsOfGroup {rt : JSRuntime} (groupBy : list string) (key : string)
    (data : list row) : list row :=
  List.filter (fun r => bool_decide (DataTransform.groupKey groupBy r = key)) data.

(** What a left row adds to an inner or a left join. *)
Definition joinedWith {rt : JSRuntime} (rightData : list row)
    (leftField rightField joinType : string) (leftRow : row) : list row :=
  match DataTransform.matchesOfLeft rightData leftField rightField leftRow with
  | [] => if bool_decide (joinType = "left") then [leftRow] else []
  | matches => map (fun rightRow => rightRow ∪ leftRow) matches
  end.

(** A right row that no left row matches. *)
Definition unmatched {rt : JSRuntime} (leftData : list row) (leftField rightField : string)
    (rightRow : row) : bool :=
  Nat.eqb (length (DataTransform.matchesOfRight leftData leftField rightField rightRow)) 0.

(** A map holds one entry per key, as a JavaScript [Map] does. *)
Definition wellKeyed {V : Type} (m : list (string * V)) : Prop := NoDup (map fst m).

(** A string without a colon. *)
Definition colonFree (s : string) : Prop := ~ In ":"%char (list_ascii_of_string s).

(** The comparator of [enforceMaxEntries]. *)
Definition byTimestamp {T : Type} (a b : string * CacheManager.CacheEntry T) : comparison :=
  Z.compare (CacheManager.timestamp (snd a)) (CacheManager.timestamp (snd b)).

End Spec.

(* ================================================================== *)
(** ** Invariants of the two traversals                                *)
(* ================================================================== *)

Module Traversal.
Import Spec.

(** The number of candidates that are not yet in the visited set: the
    measure that bounds the depth of both traversals. *)
Definition unvisited (universe visited : list string) : nat :=
  length (base.filter (fun x => x ∉ visited) universe).

(** What a returning [visit] of [findReachableNodes] has done to the set. *)
Definition reachStep (es : list PipelineEdge) (id : string) (v v' : list string) : Prop :=
  (∀ x, x ∈ v → x ∈ v')
  ∧ id ∈ v'
  ∧ (∀ x, x ∈ v' → x ∈ v ∨ rtc (edgeRel es) id x)
  ∧ (∀ x y, x ∈ v' → x ∉ v → edgeRel es x y → y ∈ v').

(** What returning visits of [topologicalSort] have done to the state: the
    visited set grows, the result grows at its end by the newly visited
    nodes, each once. *)
Definition topoStep (R : list string) (s s' : list string * list string) : Prop :=
  (∀ x, x ∈ fst s → x ∈ fst s')
  ∧ (∃ dr, snd s' = snd s ++ dr ∧ NoDup dr
           ∧ ∀ x, x ∈ dr → (x ∈ fst s') ∧ (x ∉ fst s) ∧ (x ∈ R))
  ∧ (∀ x, x ∈ fst s' → x ∉ fst s → x ∈ snd s').

(** The edge relation restricted to a set of nodes given as a list. *)
Definition restrictedEdge (es : list PipelineEdge) (R : list string) (u v : string) : Prop :=
  edgeRel es u v ∧ u ∈ R ∧ v ∈ R.

(** A finished node has its predecessors before it. *)
Definition ordered (es : list PipelineEdge) (R : list string) (res : list string) : Prop :=
  ∀ u v, restrictedEdge es R u v → v ∈ res → before u v res.

(** The state of a visit in progress: every visited node is finished or on
    the stack of the calls in progress. *)
Definition topoInv (es : list PipelineEdge) (R : list string) (stack : list string)
    (s : list string * list string) : Prop :=
  (∀ x, x ∈ fst s → x ∈ snd s ∨ x ∈ stack) ∧ ordered es R (snd s).

End Traversal.

(* ================================================================== *)
(** ** Scenarios                                                       *)
(* ================================================================== *)

Module Scenario.

Definition noChart : ChartSettings :=
  {| chartType := None; xAxis := None; yAxis := None; nameKey := None;
     valueKey := None; pieColumn := None; pieSortBy := None; chartConfig := None |}.

Definition emptyConfig : NodeConfig :=
  {| databaseId := None; tableName := None; isInitial := None; conditions := None;
     transformations := None; groupBy := None; aggregations := None;
     joinType := None; joinCondition := None; chart := noChart; customCode := None |}.

(** [{ databaseId: db }]. *)
Definition sourceConfig (db : string) : NodeConfig :=
  {| databaseId := Some db; tableName := None; isInitial := None; conditions := None;
     transformations := None; groupBy := None; aggregations := None;
     joinType := None; joinCondition := None; chart := noChart; customCode := None |}.

(** [{ conditions: [{ field: 'a', operator: 'gt', value: 1 }] }]. *)
Definition filterConfig : NodeConfig :=
  {| databaseId := None; tableName := None; isInitial := None;
     conditions := Some [ {| fc_field := "a"; fc_operator := OpGt; fc_value := VNum 1 |} ];
     transformations := None; groupBy := None; aggregations := None;
     joinType := None; joinCondition := None; chart := noChart; customCode := None |}.

(** [{ aggregations: [{ field: 'a', function: 'sum', alias: 'total' }] }]. *)
Definition sumConfig : NodeConfig :=
  {| databaseId := None; tableName := None; isInitial := None; conditions := None;
     transformations := None; groupBy := None;
     aggregations :=
       Some [ {| agg_field := "a"; agg_function := AggSum; agg_alias := "total" |} ];
     joinType := None; joinCondition := None; chart := noChart; customCode := None |}.

(** [{ customCode: code }]. *)
Definition customConfig (code : string) : NodeConfig :=
  {| databaseId := None; tableName := None; isInitial := None; conditions := None;
     transformations := None; groupBy := None; aggregations := None;
     joinType := None; joinCondition := None; chart := noChart; customCode := Some code |}.

Definition mkNode (id : string) (type : NodeType) (config : NodeConfig) : PipelineNode :=
  {| node_id := id; node_type := type; node_label := id; node_config := config;
     node_position := None; node_shape := "" |}.

Definition mkEdge (source target : string) (handle : option string) : PipelineEdge :=
  {| edge_id := source +:+ "->" +:+ target; edge_source := source; edge_target := target;
     sourceHandle := None; targetHandle := handle |}.

Definition mkPipeline (ns : list PipelineNode) (es : list PipelineEdge) : Pipeline :=
  {| pipeline_id := "pipeline-1"; pipeline_name := "scenario"; pipeline_description := None;
     nodes := ns; edges := es; createdAt := 0; updatedAt := 0 |}.

Definition rowA (n : float) : row := {[ "a" := VNum n ]}.

(** [{ type: 'rename', sourceField, targetField }] and
    [{ type: 'cast', sourceField, dataType, targetField }]. *)
Definition renameOp (source target : string) : TransformOperation :=
  {| to_type := TrRename; to_sourceField := Some source; to_targetField := Some target;
     to_expression := None; to_dataType := None; to_dropFields := None |}.


(** Conditions on the field [a], and rows with a city. *)
Definition conditionOnA (op : FilterOperator) (v : value) : FilterCondition :=
  {| fc_field := "a"; fc_operator := op; fc_value := v |}.

Definition rowIn (city : value) : row := {[ "city" := city ]}.

Definition countCities : AggregationOperation :=
  {| agg_field := "city"; agg_function := AggCount; agg_alias := "n" |}.

(** [Source -> Filter(a > 1) -> Aggregate(sum(a) as total)]. *)
Definition linear : Pipeline :=
  mkPipeline
    [ mkNode "source" TDataSource (sourceConfig "db");
      mkNode "filter" TFilter filterConfig;
      mkNode "aggregate" TAggregate sumConfig ]
    [ mkEdge "source" "filter" None; mkEdge "filter" "aggregate" None ].

Definition sourceRows : list row := [rowA 1; rowA 2; rowA 3].


(** The same with a node that no data source reaches, wired into the
    aggregate. *)
Definition withOrphan : Pipeline :=
  mkPipeline
    [ mkNode "source" TDataSource (sourceConfig "db");
      mkNode "filter" TFilter filterConfig;
      mkNode "aggregate" TAggregate sumConfig;
      mkNode "orphan" TTransform emptyConfig ]
    [ mkEdge "source" "filter" None; mkEdge "filter" "aggregate" None;
      mkEdge "orphan" "aggregate" None ].


(** Two data sources into a custom node; the edges carry the given handles
    and are declared in the given order. *)
Definition mergeNode : PipelineNode :=
  mkNode "merge" TCustom (customConfig "function process(a, b) { return a.concat(b) }").

Definition merging (es : list PipelineEdge) : Pipeline :=
  mkPipeline
    [ mkNode "left" TDataSource (sourceConfig "left-db");
      mkNode "right" TDataSource (sourceConfig "right-db");
      mergeNode ]
    es.

Definition taggedEdges : list PipelineEdge :=
  [ mkEdge "left" "merge" (Some "input-1"); mkEdge "right" "merge" (Some "input-0") ].



Definition mergeResults : ResultsObject :=
  {| entries := <["left" := [rowA 1]]> (<["right" := [rowA 2]]> ∅);
     inheritedArray := None |}.

(** A runtime for the scenarios. They exercise [localeCompare] on ASCII
    handles, where the collation agrees with the code-unit order, and the
    conversion to a number of the text of an inherited function, which is
    [NaN]; the other built-ins are never called and are given trivial
    values. *)
Definition runtime : JSRuntime :=
  {| StringToNumber := fun _ => PrimFloat.nan;
     NumberToString := fun _ => "NaN";
     ObjectToString := fun name =>
       if String.eqb name "__proto__" then "[object Object]"
       else if String.eqb name "constructor" then "function Object() { [native code] }"
       else "function " +:+ name +:+ "() { [native code] }";
     localeCompare := String.compare;
     newDate := fun v => v;
     regexFirstMatch := fun _ _ => None;
     trim := fun s => s;
     evaluateExpression := fun _ _ => VNull |}.

(** A digest for the scenarios: it reads the ids and the database
    references off the normal form. *)
Definition digest (np : NormalizedPipeline) : string :=
  JS.join ","
    (map (fun n => n_id n +:+ "=" +:+ default "" (databaseId (n_config n))) (n_nodes np)).

(** A host whose row store answers by [db], whose clock advances by one
    millisecond per reading, and whose custom functions concatenate their
    arguments. *)
Definition hostWith (db : string -> JS.completion (list row)) : Host :=
  {| md5HexOfJson := digest;
     dateNow := Z.of_nat;
     getDatabaseData := fun id _ _ => db id;
     userFunction := fun _ args => JS.Normal (Some (concat args)) |}.

Definition host : Host := hostWith (fun _ => JS.Normal sourceRows).



(** A row store that fails. *)
Definition failingHost : Host :=
  hostWith (fun _ => JS.Throw (JS.ErrorObj "SQLITE_ERROR: no such table")).

(** The engine at start-up: default configuration, empty cache. *)
Definition startWorld : CacheManager.World :=
  {| CacheManager.config := CacheManager.DEFAULT_CACHE_CONFIG;
     CacheManager.pipelineExecutionCache := [];
     CacheManager.clockReads := 0 |}.

(** The ranks of the nodes of [linear]: every edge goes up. *)
Definition linearRank (id : string) : nat :=
  if bool_decide (id = "source") then 0
  else if bool_decide (id = "filter") then 1 else 2.

(** An entry stamped at 1000 ms with a TTL of 300000 ms, the world that
    holds it, and a host whose clock reads [t]. *)
Definition stampedEntry : CacheManager.CacheEntry CacheManager.PipelineExecutionCache :=
  {| CacheManager.entry_data :=
       {| CacheManager.pipelineId := "pipeline-1"; CacheManager.pipelineHash := "h";
          CacheManager.nodeResults := ∅; CacheManager.leafResults := [];
          CacheManager.executionTime := 7; CacheManager.cachedAt := 1000 |};
     CacheManager.timestamp := 1000;
     CacheManager.ttl := 300000 |}.

Definition stampedWorld : CacheManager.World :=
  {| CacheManager.config := CacheManager.DEFAULT_CACHE_CONFIG;
     CacheManager.pipelineExecutionCache := [("pipeline-1", stampedEntry)];
     CacheManager.clockReads := 0 |}.

Definition hostAt (t : Z) : Host :=
  {| md5HexOfJson := digest; dateNow := fun _ => t;
     getDatabaseData := fun _ _ _ => JS.Normal [];
     userFunction := fun _ _ => JS.Normal (Some []) |}.

(** The three maps at start-up, and with the stamped entry. *)
Definition startCaches : CacheManager.Caches :=
  {| CacheManager.world := startWorld;
     CacheManager.nodeMetadataCache := [];
     CacheManager.dashboardElementCache := [] |}.

Definition stampedCaches : CacheManager.Caches :=
  {| CacheManager.world := stampedWorld;
     CacheManager.nodeMetadataCache := [];
     CacheManager.dashboardElementCache := [] |}.

(** A map of three entries stamped at 5, 3 and 9 ms. *)
Definition stampedAt (t : Z) : CacheManager.CacheEntry (list row) :=
  {| CacheManager.entry_data := []; CacheManager.timestamp := t; CacheManager.ttl := 0 |}.

Definition threeEntries : list (string * CacheManager.CacheEntry (list row)) :=
  [ ("a", stampedAt 5); ("b", stampedAt 3); ("c", stampedAt 9) ].

(** The engine with a cache that may hold no entry. *)
Definition noCapacity : CacheManager.World :=
  {| CacheManager.config :=
       CacheManager.mergeConfig CacheManager.DEFAULT_CACHE_CONFIG
         {| CacheManager.new_maxExecutionResultRows := None;
            CacheManager.new_maxNodeResultRows := None;
            CacheManager.new_maxDashboardElementRows := None;
            CacheManager.new_pipelineExecutionTTL := None;
            CacheManager.new_nodeMetadataTTL := None;
            CacheManager.new_dashboardCacheTTL := None;
            CacheManager.new_maxCacheEntries := Some 0 |};
     CacheManager.pipelineExecutionCache := [];
     CacheManager.clockReads := 0 |}.

(** A join node in the place of the merging node, the handles of the
    tagged edges exchanged, and a pipeline with an edge to a node that does
    not exist. *)
Definition joinNode : PipelineNode := mkNode "merge" TJoin emptyConfig.

Definition swappedHandles : list PipelineEdge :=
  [ mkEdge "left" "merge" (Some "input-0"); mkEdge "right" "merge" (Some "input-1") ].

Definition dangling : Pipeline :=
  mkPipeline [ mkNode "source" TDataSource (sourceConfig "db") ]
             [ mkEdge "source" "ghost" None ].



(** One data source, named ["__proto__"]. *)
Definition protoOnly : Pipeline :=
  mkPipeline [ mkNode "__proto__" TDataSource (sourceConfig "db") ] [].

End Scenario.

(* ================================================================== *)
(** ** Properties                                                      *)
(* ================================================================== *)

Import PipelineEngine Spec Traversal.

(* ------------------------------------------------------------------ *)
(** *** Loops over a closure *)
(* ------------------------------------------------------------------ *)

Section ForEach.
Context {S E : Type} (visit : E -> S -> option S).

Lemma forEachVisit_None (items : list E) : forEachVisit visit items None = None.
Proof. induction items as [|x l IH]; [done|]. apply IH. Qed.

Lemma forEachVisit_cons (x : E) (items : list E) (s : S) :
  forEachVisit visit (x :: items) (Some s) = forEachVisit visit items (visit x s).
Proof. reflexivity. Qed.

Lemma forEachVisit_app (l1 l2 : list E) (init : option S) :
  forEachVisit visit (l1 ++ l2) init = forEachVisit visit l2 (forEachVisit visit l1 init).
Proof. unfold forEachVisit. apply fold_left_app. Qed.

(** An invariant indexed by the items already visited. *)
Lemma forEachVisit_inv (I : list E -> S -> Prop) (items : list E) (s0 sN : S) :
  I [] s0 ->
  (forall seen x s s', x ∈ items -> I seen s -> visit x s = Some s' -> I (seen ++ [x]) s') ->
  forEachVisit visit items (Some s0) = Some sN ->
  I items sN.
Proof.
  intros H0 Hstep.
  assert (Hgen : forall rest seen s,
            (forall x, x ∈ rest -> x ∈ items) -> I seen s ->
            forEachVisit visit rest (Some s) = Some sN -> I (seen ++ rest) sN).
  { induction rest as [|x rest IH]; intros seen s Hsub Hd Hrun.
    - cbn in Hrun. injection Hrun as <-. by rewrite app_nil_r.
    - rewrite forEachVisit_cons in Hrun.
      destruct (visit x s) as [s'|] eqn:Hv.
      + replace (seen ++ x :: rest) with ((seen ++ [x]) ++ rest)
          by (by rewrite <- app_assoc).
        apply (IH _ s'); [|by eapply Hstep; eauto; apply Hsub; left|done].
        intros y Hy. apply Hsub. by right.
      + by rewrite forEachVisit_None in Hrun. }
  intros Hrun. apply (Hgen items [] s0); auto.
Qed.

(** Progress: when every visit returns from a state that satisfies [J] into
    one that satisfies it, the loop returns. *)
Lemma forEachVisit_total (J : S -> Prop) (items : list E) (s0 : S) :
  J s0 ->
  (forall x s, x ∈ items -> J s -> exists s', visit x s = Some s' /\ J s') ->
  exists sN, forEachVisit visit items (Some s0) = Some sN /\ J sN.
Proof.
  revert s0. induction items as [|x items IH]; intros s0 H0 Hstep.
  - by exists s0.
  - rewrite forEachVisit_cons.
    destruct (Hstep x s0) as (s' & -> & Hs'); [by left|done|].
    apply IH; [done|]. intros y s Hy. apply Hstep. by right.
Qed.
End ForEach.

(* ------------------------------------------------------------------ *)
(** *** Maps in insertion order *)
(* ------------------------------------------------------------------ *)

Section MapFacts.
Context {V : Type}.
Implicit Types (m : list (string * V)) (k : string) (v : V).

Lemma mapGet_mapSet_eq k v m : JS.mapGet k (JS.mapSet k v m) = Some v.
Proof.
  induction m as [|[k' v'] m IH]; cbn.
  - by rewrite bool_decide_eq_true_2.
  - case_bool_decide as Hk; cbn.
    + by rewrite bool_decide_eq_true_2.
    + by rewrite bool_decide_eq_false_2.
Qed.

Lemma mapGet_mapSet_ne k k' v m : k <> k' -> JS.mapGet k' (JS.mapSet k v m) = JS.mapGet k' m.
Proof.
  intros Hne. induction m as [|[k0 v0] m IH]; cbn.
  - by rewrite bool_decide_eq_false_2.
  - case_bool_decide as Hk; cbn.
    + subst k0. by rewrite !bool_decide_eq_false_2.
    + case_bool_decide; [done|apply IH].
Qed.

Lemma mapDelete_cons k k' v m :
  JS.mapDelete k ((k', v) :: m) =
  if bool_decide (k' = k) then JS.mapDelete k m else (k', v) :: JS.mapDelete k m.
Proof. unfold JS.mapDelete. cbn. by destruct (bool_decide (k' = k)). Qed.

Lemma mapGet_mapDelete_eq k m : JS.mapGet k (JS.mapDelete k m) = None.
Proof.
  induction m as [|[k' v'] m IH]; [done|].
  rewrite mapDelete_cons. case_bool_decide as Hk; [done|].
  cbn. by rewrite bool_decide_eq_false_2.
Qed.

Lemma mapGet_mapDelete_ne k k' m : k <> k' -> JS.mapGet k' (JS.mapDelete k m) = JS.mapGet k' m.
Proof.
  intros Hne. induction m as [|[k0 v0] m IH]; [done|].
  rewrite mapDelete_cons. case_bool_decide as Hk; cbn.
  - subst k0. by rewrite bool_decide_eq_false_2.
  - by rewrite IH.
Qed.

Lemma mapGet_mapDelete_Some k k' m v :
  JS.mapGet k' (JS.mapDelete k m) = Some v -> JS.mapGet k' m = Some v.
Proof.
  destruct (decide (k = k')) as [->|Hne].
  - by rewrite mapGet_mapDelete_eq.
  - by rewrite mapGet_mapDelete_ne.
Qed.

Lemma mapGet_deleteAll_Some (ks : list (string * V)) k' m v :
  JS.mapGet k' (fold_left (fun c kv => JS.mapDelete (fst kv) c) ks m) = Some v ->
  JS.mapGet k' m = Some v.
Proof.
  revert m. induction ks as [|kv ks IH]; intros m; cbn; [done|].
  intros Hg. apply IH in Hg. by eapply mapGet_mapDelete_Some.
Qed.
End MapFacts.

Section Retention.
Context {V : Type}.
Implicit Types (m : list (string * V)) (k : string) (v : V).

Lemma mapGet_None_keys k m : JS.mapGet k m = None <-> k ∉ map fst m.
Proof.
  induction m as [|[k' v'] m IH]; cbn.
  - split; [intros _; apply not_elem_of_nil|done].
  - case_bool_decide as Hk.
    + subst. split; [done|]. intros Hn. exfalso. apply Hn. by left.
    + rewrite IH, not_elem_of_cons. cbn. split; [by intros ?; split|by intros [_ ?]].
Qed.

Lemma mapSet_new k v m : JS.mapGet k m = None -> JS.mapSet k v m = m ++ [(k, v)].
Proof.
  induction m as [|[k' v'] m IH]; cbn; [done|].
  case_bool_decide; [done|]. intros Hm. by rewrite IH.
Qed.

Lemma mapSet_length_existing k v m :
  is_Some (JS.mapGet k m) -> length (JS.mapSet k v m) = length m.
Proof.
  induction m as [|[k' v'] m IH]; cbn; [by intros [? ?]|].
  case_bool_decide; [done|]. intros Hm. cbn. by rewrite IH.
Qed.
End Retention.

(* ------------------------------------------------------------------ *)
(** *** Sorting *)
(* ------------------------------------------------------------------ *)

Section SortFacts.
Context {A : Type} (cmp : A -> A -> comparison).

Lemma insertSorted_perm (x : A) (l : list A) : JS.insertSorted cmp x l ≡ₚ x :: l.
Proof.
  induction l as [|y l IH]; cbn; [done|].
  destruct (cmp x y); [done|done|]. rewrite IH. apply perm_swap.
Qed.

Lemma sort_perm (l : list A) : JS.sort cmp l ≡ₚ l.
Proof.
  induction l as [|x l IH]; cbn; [done|].
  change (fold_right (JS.insertSorted cmp) [] l) with (JS.sort cmp l).
  by rewrite insertSorted_perm, IH.
Qed.

Hypothesis consistent : ConsistentComparator cmp.

Lemma cmp_flip_Gt (a b : A) : cmp a b = Gt -> cmp b a = Lt.
Proof. intros Hab. by rewrite (cmp_antisym cmp consistent a b), Hab. Qed.

Lemma insertSorted_sorted (x : A) (l : list A) :
  StronglySorted (cmpLe cmp) l -> StronglySorted (cmpLe cmp) (JS.insertSorted cmp x l).
Proof.
  induction 1 as [|y l Hl IH Hy]; cbn; [repeat constructor|].
  destruct (cmp x y) eqn:Hxy.
  - constructor; [by constructor|]. constructor; [unfold cmpLe; congruence|].
    eapply Forall_impl; [exact Hy|]. intros z Hz.
    apply (cmp_trans cmp consistent x y z); [congruence|done].
  - constructor; [by constructor|]. constructor; [unfold cmpLe; congruence|].
    eapply Forall_impl; [exact Hy|]. intros z Hz.
    apply (cmp_trans cmp consistent x y z); [congruence|done].
  - constructor; [done|].
    rewrite insertSorted_perm. constructor; [|done].
    unfold cmpLe. rewrite (cmp_flip_Gt _ _ Hxy). done.
Qed.

Lemma sort_sorted (l : list A) : StronglySorted (cmpLe cmp) (JS.sort cmp l).
Proof.
  induction l as [|x l IH]; cbn; [constructor|]. by apply insertSorted_sorted.
Qed.




End SortFacts.

Section SortLast.
Context {A : Type} (cmp : A -> A -> comparison) (newest : A).

Lemma insertSorted_keeps_last (x : A) (s : list A) :
  cmp x newest <> Gt ->
  exists s', JS.insertSorted cmp x (s ++ [newest]) = s' ++ [newest] /\ s' ≡ₚ x :: s.
Proof.
  intros Hle. induction s as [|y s (s' & Heq & Hp)]; cbn.
  - exists [x]. split; [|done]. by destruct (cmp x newest).
  - destruct (cmp x y).
    + by exists (x :: y :: s).
    + by exists (x :: y :: s).
    + exists (y :: s'). rewrite Heq. split; [done|]. rewrite Hp. apply perm_swap.
Qed.

Lemma sort_keeps_last (l : list A) :
  Forall (fun x => cmp x newest <> Gt) l ->
  exists s, JS.sort cmp (l ++ [newest]) = s ++ [newest] /\ s ≡ₚ l.
Proof.
  induction 1 as [|x l Hx _ (s & Heq & Hp)]; cbn.
  - by exists [].
  - change (fold_right (JS.insertSorted cmp) [] (l ++ [newest]))
      with (JS.sort cmp (l ++ [newest])).
    rewrite Heq. destruct (insertSorted_keeps_last x s Hx) as (s' & Heq' & Hp').
    exists s'. split; [done|]. by rewrite Hp', Hp.
Qed.
End SortLast.


(* ------------------------------------------------------------------ *)
(** *** Reading and writing a row *)
(* ------------------------------------------------------------------ *)

Lemma inherited_spec (name : string) :
  inherited name = if bool_decide (name ∈ objectPrototypeNames) then VObject name
                   else VUndefined.
Proof.
  unfold inherited. case_bool_decide as Hin.
  - replace (existsb _ _) with true; [done|]. symmetry. apply existsb_exists.
    exists name. split; [by apply list_elem_of_In|apply String.eqb_refl].
  - replace (existsb _ _) with false; [done|]. symmetry. apply not_true_is_false.
    intros (x & Hx & Heq)%existsb_exists. apply String.eqb_eq in Heq as <-.
    by apply Hin, list_elem_of_In.
Qed.

Lemma getField_own (r : row) (field : string) (v : value) :
  r !! field = Some v -> getField r field = v.
Proof. unfold getField. by intros ->. Qed.

Lemma getField_absent (r : row) (field : string) :
  r !! field = None -> field ∉ objectPrototypeNames -> getField r field = VUndefined.
Proof.
  unfold getField. intros -> Hname. by rewrite inherited_spec, bool_decide_eq_false_2.
Qed.

Lemma getField_inherited (r : row) (field : string) :
  r !! field = None -> field ∈ objectPrototypeNames -> getField r field = VObject field.
Proof.
  unfold getField. intros -> Hname. by rewrite inherited_spec, bool_decide_eq_true_2.
Qed.

Lemma setField_ordinary (key : string) (v : value) (r : row) :
  key <> "__proto__" -> setField key v r = <[key := v]> r.
Proof. intros Hkey. unfold setField. by rewrite bool_decide_eq_false_2. Qed.

Lemma setField_proto (v : value) (r : row) :
  r !! "__proto__" = None -> setField "__proto__" v r = r.
Proof. intros Hr. unfold setField. by rewrite bool_decide_eq_true_2, Hr. Qed.



(* ------------------------------------------------------------------ *)
(** *** Aggregation *)
(* ------------------------------------------------------------------ *)

Section Aggregation.
Context {rt : JSRuntime}.
Import DataTransform.

Lemma aggregationValues_present (data : list row) (agg : AggregationOperation) :
  aggregationValues data agg
  = map (fun r => getField r (agg_field agg)) (rowsWithField (agg_field agg) data).
Proof.
  unfold aggregationValues, rowsWithField.
  induction data as [|r data IH]; cbn; [done|].
  destruct (presentValue (getField r (agg_field agg))); cbn; by rewrite IH.
Qed.

Lemma rowsWithField_idem (field : string) (data : list row) :
  rowsWithField field (rowsWithField field data) = rowsWithField field data.
Proof.
  unfold rowsWithField. induction data as [|r data IH]; cbn; [done|].
  destruct (presentValue (getField r field)) eqn:Hp; cbn; [by rewrite Hp, IH|done].
Qed.

Lemma aggregationValues_absent (data : list row) (agg : AggregationOperation) :
  Forall (fun r => presentValue (getField r (agg_field agg)) = false) data ->
  aggregationValues data agg = [].
Proof.
  unfold aggregationValues. induction 1 as [|r data Hr _ IH]; cbn; [done|].
  by rewrite Hr.
Qed.

(** C9, as amended. Aggregating rows in none of which the field reads a
    value (it reads [null] or [undefined] in every row; the empty row set in
    particular) yields 0 for [sum], [avg], [count] and [distinct], a 0 that
    is not NaN, and [null] for [min] and [max]. A row that does not have the
    field reads [undefined] when the name of the field is not one of those
    that [Object.prototype] defines. The aggregate of all rows without
    grouping is then the one row that holds this value under the alias. *)
Theorem aggregation_without_values (data : list row) (agg : AggregationOperation) :
  Forall (fun r => getField r (agg_field agg) = VNull
                   \/ getField r (agg_field agg) = VUndefined) data ->
  performAggregation data agg =
    match agg_function agg with
    | AggSum | AggAvg | AggCount | AggDistinct => VNum 0
    | AggMin | AggMax | AggOther => VNull
    end
  /\ JS.isNaN 0 = false
  /\ performAggregation [] agg = performAggregation data agg
  /\ (agg_alias agg <> "__proto__" ->
      aggregate data [] [agg] = [ {[ agg_alias agg := performAggregation data agg ]} ])
  /\ (forall r, r !! agg_field agg = None -> agg_field agg ∉ objectPrototypeNames ->
        getField r (agg_field agg) = VUndefined).
Proof.
  intros Habsent.
  assert (Hvalues : aggregationValues data agg = []).
  { apply aggregationValues_absent. eapply Forall_impl; [exact Habsent|].
    intros r [-> | ->]; done. }
  assert (Hagg : forall d, aggregationValues d agg = [] ->
            performAggregation d agg =
            match agg_function agg with
            | AggSum | AggAvg | AggCount | AggDistinct => VNum 0
            | AggMin | AggMax | AggOther => VNull
            end).
  { intros d Hd. unfold performAggregation. rewrite Hd. by destruct (agg_function agg). }
  split; [by apply Hagg|]. split; [done|]. split; [by rewrite !Hagg|].
  split.
  - intros Halias. cbn. by rewrite setField_ordinary, insert_empty.
  - intros r. apply getField_absent.
Qed.

(** C10, as amended. Every aggregation function works on the rows in which
    the field reads neither [null] nor [undefined]: the result is the one
    computed from these rows alone, [count] is their number, and [sum],
    [avg], [min], [max] and [distinct] are computed from their values. A row
    that does not have the field is not among them when the name of the
    field is not one of those that [Object.prototype] defines. *)
Theorem aggregation_ignores_absent_fields (data : list row) (agg : AggregationOperation) :
  let present := rowsWithField (agg_field agg) data in
  let values := map (fun r => getField r (agg_field agg)) present in
  aggregationValues data agg = values
  /\ performAggregation data agg = performAggregation present agg
  /\ performAggregation data agg =
       match agg_function agg with
       | AggSum => VNum (sumValues values)
       | AggAvg =>
           if Nat.ltb 0 (length present)
           then VNum (PrimFloat.div (sumValues values) (JS.ofNat (length present)))
           else VNum 0
       | AggMin =>
           if Nat.ltb 0 (length present) then VNum (JS.Math_min (map JS.Number values))
           else VNull
       | AggMax =>
           if Nat.ltb 0 (length present) then VNum (JS.Math_max (map JS.Number values))
           else VNull
       | AggCount => VNum (JS.ofNat (length present))
       | AggDistinct => VNum (JS.ofNat (length (JS.distinctValues [] values)))
       | AggOther => VNull
       end
  /\ (forall r, r ∈ present <->
                r ∈ data /\ getField r (agg_field agg) <> VNull
                /\ getField r (agg_field agg) <> VUndefined)
  /\ (forall r, r !! agg_field agg = None -> agg_field agg ∉ objectPrototypeNames ->
                r ∉ present).
Proof.
  cbv zeta.
  assert (Hpresent : forall r, r ∈ rowsWithField (agg_field agg) data <->
            r ∈ data /\ getField r (agg_field agg) <> VNull
            /\ getField r (agg_field agg) <> VUndefined).
  { intros r. unfold rowsWithField. rewrite !list_elem_of_In, filter_In.
    destruct (getField r (agg_field agg)); cbn; intuition congruence. }
  split; [apply aggregationValues_present|]. split; [|split; [|split; [exact Hpresent|]]].
  - unfold performAggregation.
    by rewrite !aggregationValues_present, rowsWithField_idem.
  - unfold performAggregation. rewrite aggregationValues_present, !length_map. done.
  - intros r Hnone Hname (_ & _ & Hread)%Hpresent. by apply Hread, getField_absent.
Qed.
End Aggregation.

Lemma aggregation_without_values_witness :
  DataTransform.performAggregation (rt := Scenario.runtime)
    [ {[ "a" := VNull ]}; {[ "b" := VNum 1 ]} ]
    {| agg_field := "a"; agg_function := AggAvg; agg_alias := "mean" |}
  = VNum 0.
Proof.
  refine (proj1 (@aggregation_without_values Scenario.runtime
                   [ {[ "a" := VNull ]}; {[ "b" := VNum 1 ]} ]
                   {| agg_field := "a"; agg_function := AggAvg; agg_alias := "mean" |} _)).
  apply Forall_cons. split; [by left|].
  apply Forall_cons. split; [right; reflexivity|]. apply Forall_nil_2.
Defined.

(** C9 as stated fails: in rows that do not have the field [constructor]
    the field reads the function that every object inherits under that
    name; [avg] over these rows is NaN, not 0, and [count] is their
    number. *)
Lemma aggregation_of_inherited_field_is_NaN :
  Forall (fun r : row => r !! "constructor" = None) Scenario.sourceRows
  /\ DataTransform.performAggregation (rt := Scenario.runtime) Scenario.sourceRows
       {| agg_field := "constructor"; agg_function := AggAvg; agg_alias := "mean" |}
     = VNum PrimFloat.nan
  /\ JS.isNaN PrimFloat.nan = true
  /\ DataTransform.performAggregation (rt := Scenario.runtime) Scenario.sourceRows
       {| agg_field := "constructor"; agg_function := AggCount; agg_alias := "n" |}
     = VNum 3
  /\ DataTransform.performAggregation (rt := Scenario.runtime) Scenario.sourceRows
       {| agg_field := "constructor"; agg_function := AggAvg; agg_alias := "mean" |}
     <> VNum 0.
Proof.
  split; [repeat constructor|]. split; [reflexivity|]. split; [reflexivity|].
  split; [reflexivity|]. intros Heq. discriminate Heq.
Qed.

(** [count] counts the rows that have the field, not all rows. *)
Lemma count_skips_rows_without_field :
  DataTransform.performAggregation (rt := Scenario.runtime)
    [ Scenario.rowA 1; {[ "b" := VNum 1 ]}; Scenario.rowA 3; {[ "a" := VNull ]} ]
    {| agg_field := "a"; agg_function := AggCount; agg_alias := "n" |}
  = VNum 2.
Proof. reflexivity. Qed.

(** C10 as stated fails: two rows without a field [toString] both
    contribute to the aggregates of that field. *)
Lemma rows_without_inherited_field_are_counted :
  Forall (fun r : row => r !! "toString" = None) [Scenario.rowA 1; Scenario.rowA 2]
  /\ DataTransform.rowsWithField "toString" [Scenario.rowA 1; Scenario.rowA 2]
     = [Scenario.rowA 1; Scenario.rowA 2]
  /\ DataTransform.performAggregation (rt := Scenario.runtime)
       [Scenario.rowA 1; Scenario.rowA 2]
       {| agg_field := "toString"; agg_function := AggCount; agg_alias := "n" |}
     = VNum 2
  /\ DataTransform.performAggregation (rt := Scenario.runtime)
       [Scenario.rowA 1; Scenario.rowA 2]
       {| agg_field := "toString"; agg_function := AggDistinct; agg_alias := "n" |}
     = VNum 1
  /\ DataTransform.performAggregation (rt := Scenario.runtime) []
       {| agg_field := "toString"; agg_function := AggCount; agg_alias := "n" |}
     = VNum 0.
Proof. split; [repeat constructor|]. repeat split. Qed.

(* ------------------------------------------------------------------ *)
(** *** The cache *)
(* ------------------------------------------------------------------ *)

Section Cache.
Context {host : Host}.
Import CacheManager.

Lemma enforceMaxEntries_room {T} (maxEntries : nat) (cache : list (string * CacheEntry T)) :
  length cache <= maxEntries -> enforceMaxEntries maxEntries cache = cache.
Proof. intros Hle. unfold enforceMaxEntries. by rewrite (proj2 (Nat.leb_le _ _) Hle). Qed.

Lemma enforceMaxEntries_Some {T} (maxEntries : nat) (cache : list (string * CacheEntry T)) k e :
  JS.mapGet k (enforceMaxEntries maxEntries cache) = Some e -> JS.mapGet k cache = Some e.
Proof.
  unfold enforceMaxEntries. destruct (Nat.leb _ _); [done|]. apply mapGet_deleteAll_Some.
Qed.

Lemma cachePipelineExecution_unfold id hash results leaves time w :
  cachePipelineExecution id hash results leaves time w =
  {| config := config w;
     pipelineExecutionCache :=
       enforceMaxEntries (maxCacheEntries (config w))
         (JS.mapSet id (writtenEntry id hash results leaves time w)
            (pipelineExecutionCache w));
     clockReads := S (S (clockReads w)) |}.
Proof. reflexivity. Qed.

Lemma cachePipelineExecution_lookup id hash results leaves time w entry :
  JS.mapGet id (pipelineExecutionCache (cachePipelineExecution id hash results leaves time w))
    = Some entry ->
  entry = writtenEntry id hash results leaves time w.
Proof.
  rewrite cachePipelineExecution_unfold. cbn. intros Hg.
  apply enforceMaxEntries_Some in Hg. rewrite mapGet_mapSet_eq in Hg. congruence.
Qed.

Lemma cachePipelineExecution_stored id hash results leaves time w :
  length (JS.mapSet id (writtenEntry id hash results leaves time w)
            (pipelineExecutionCache w)) <= maxCacheEntries (config w) ->
  JS.mapGet id (pipelineExecutionCache (cachePipelineExecution id hash results leaves time w))
    = Some (writtenEntry id hash results leaves time w).
Proof.
  intros Hroom. rewrite cachePipelineExecution_unfold. cbn.
  rewrite enforceMaxEntries_room by done. apply mapGet_mapSet_eq.
Qed.

Lemma getPipelineExecution_unfold id hash w :
  getPipelineExecution id hash w =
  match JS.mapGet id (pipelineExecutionCache w) with
  | None => (None, w)
  | Some entry =>
      let w1 := {| config := config w;
                   pipelineExecutionCache := pipelineExecutionCache w;
                   clockReads := S (clockReads w) |} in
      if Z.ltb (ttl entry) (dateNow (clockReads w) - timestamp entry)
         || negb (bool_decide (pipelineHash (entry_data entry) = hash))
      then (None, setCache w1 (JS.mapDelete id (pipelineExecutionCache w)))
      else (Some (entry_data entry), w1)
  end.
Proof.
  unfold getPipelineExecution. destruct (JS.mapGet _ _) as [entry|]; [|done].
  cbn. destruct (Z.ltb _ _); [done|]. cbn. by destruct (bool_decide _).
Qed.
End Cache.

Section Kept.
Context {host : Host}.
Import CacheManager.

(** The entry just written survives [enforceMaxEntries]: the map was within
    its capacity of at least one entry, and no entry carries a later
    timestamp. *)
Lemma enforceMaxEntries_keeps_written {T} (maxEntries : nat)
    (cache : list (string * CacheEntry T)) (id : string) (entry : CacheEntry T) :
  1 <= maxEntries ->
  length cache <= maxEntries ->
  Forall (fun kv => (timestamp (snd kv) <= timestamp entry)%Z) cache ->
  JS.mapGet id (enforceMaxEntries maxEntries (JS.mapSet id entry cache)) = Some entry.
Proof.
  intros Hmax Hlen Hold.
  destruct (JS.mapGet id cache) as [old|] eqn:Hget.
  - rewrite enforceMaxEntries_room; [apply mapGet_mapSet_eq|].
    by rewrite mapSet_length_existing.
  - pose proof (mapSet_new id entry cache Hget) as Hset.
    destruct (decide (S (length cache) <= maxEntries)) as [Hroom|Hfull].
    + rewrite enforceMaxEntries_room; [apply mapGet_mapSet_eq|].
      rewrite Hset, length_app. cbn. lia.
    + unfold enforceMaxEntries. rewrite Hset. rewrite length_app. cbn [length].
      rewrite (proj2 (Nat.leb_gt _ _)) by lia.
      replace (length cache + 1 - maxEntries) with 1 by lia.
      destruct (sort_keeps_last
                  (fun a b : string * CacheEntry T =>
                     Z.compare (timestamp (snd a)) (timestamp (snd b)))
                  (id, entry) cache) as (s & Hsort & Hperm).
      { eapply Forall_impl; [exact Hold|]. intros kv Hkv. cbn. by apply Z.compare_le_iff. }
      rewrite Hsort.
      destruct s as [|first s].
      { apply Permutation_length in Hperm. cbn in Hperm. lia. }
      change (take 1 ((first :: s) ++ [(id, entry)])) with [first]. cbn [fold_left].
      rewrite <- Hset.
      rewrite mapGet_mapDelete_ne; [apply mapGet_mapSet_eq|].
      intros Heq. apply mapGet_None_keys in Hget. apply Hget.
      rewrite <- Heq. apply list_elem_of_fmap. exists first. split; [done|].
      rewrite <- Hperm. by left.
Qed.

Lemma cachePipelineExecution_kept id hash results leaves time w :
  1 <= maxCacheEntries (config w) ->
  length (pipelineExecutionCache w) <= maxCacheEntries (config w) ->
  Forall (fun kv => (timestamp (snd kv) <= dateNow (S (clockReads w)))%Z)
         (pipelineExecutionCache w) ->
  JS.mapGet id (pipelineExecutionCache (cachePipelineExecution id hash results leaves time w))
    = Some (writtenEntry id hash results leaves time w).
Proof.
  intros Hmax Hlen Hold. rewrite cachePipelineExecution_unfold. cbn.
  by apply enforceMaxEntries_keeps_written.
Qed.
End Kept.

Section CacheClaims.
Context {host : Host}.
Import CacheManager.

(** C5. [getPipelineExecution] returns [null] exactly when no entry is
    stored, or the TTL has elapsed ([now - timestamp > ttl]), or the stored
    hash differs from the supplied one; in the last two cases the entry is
    deleted; otherwise the stored payload is returned and the map is left as
    it is. An entry is a hit strictly before [timestamp + ttl] and a miss
    strictly after it. The result is an optional value in every case. *)
Theorem getPipelineExecution_contract (id hash : string) (w : World) :
  let cache := pipelineExecutionCache w in
  let t := dateNow (clockReads w) in
  let result := fst (getPipelineExecution id hash w) in
  let cache' := pipelineExecutionCache (snd (getPipelineExecution id hash w)) in
  (result = None <->
     JS.mapGet id cache = None
     \/ exists entry, JS.mapGet id cache = Some entry
          /\ (ttl entry < t - timestamp entry
              \/ pipelineHash (entry_data entry) <> hash))%Z
  /\ (JS.mapGet id cache = None -> snd (getPipelineExecution id hash w) = w)
  /\ (forall entry, JS.mapGet id cache = Some entry ->
        (ttl entry < t - timestamp entry)%Z \/ pipelineHash (entry_data entry) <> hash ->
        result = None /\ cache' = JS.mapDelete id cache /\ JS.mapGet id cache' = None)
  /\ (forall entry, JS.mapGet id cache = Some entry ->
        ~ (ttl entry < t - timestamp entry)%Z -> pipelineHash (entry_data entry) = hash ->
        result = Some (entry_data entry) /\ cache' = cache)
  /\ (forall entry, JS.mapGet id cache = Some entry -> pipelineHash (entry_data entry) = hash ->
        (t < timestamp entry + ttl entry)%Z -> result = Some (entry_data entry))
  /\ (forall entry, JS.mapGet id cache = Some entry ->
        (timestamp entry + ttl entry < t)%Z -> result = None).
Proof.
  cbv zeta. rewrite getPipelineExecution_unfold.
  destruct (JS.mapGet id (pipelineExecutionCache w)) as [entry|] eqn:Hget.
  - cbv zeta.
    destruct (Z.ltb_spec (ttl entry) (dateNow (clockReads w) - timestamp entry)) as [Hexp|Hfresh];
      [|case_bool_decide as Hhash]; cbn [orb negb fst snd pipelineExecutionCache setCache].
    all: repeat split; intros;
         repeat match goal with
                | Heq : Some _ = Some _ |- _ => injection Heq as <-
                end;
         try done; try lia; try apply mapGet_mapDelete_eq;
         try (right; exists entry; split; [done|]; auto; fail);
         try (exfalso;
              repeat match goal with
                     | Hd : _ ∨ _ |- _ => destruct Hd as [Hd|Hd]
                     | Hd : ∃ _, _ |- _ => destruct Hd as (? & Hd)
                     | Hd : _ ∧ _ |- _ => destruct Hd as (? & Hd)
                     | Hd : Some _ = Some _ |- _ => injection Hd as <-
                     | Hd : Some _ = None |- _ => discriminate Hd
                     end; (lia || congruence)).
  - cbn. repeat split; try done. intros _. by left.
Qed.
End CacheClaims.

(** The boundary of the validity window: with a TTL of 300000 ms an entry
    stamped at 1000 is a hit at 300999 and at 301000, and a miss at 301001;
    a lookup under another hash is a miss, and both misses delete the entry. *)
Lemma ttl_boundary :
  fst (@CacheManager.getPipelineExecution (Scenario.hostAt 300999) "pipeline-1" "h" Scenario.stampedWorld)
    = Some (CacheManager.entry_data Scenario.stampedEntry)
  /\ fst (@CacheManager.getPipelineExecution (Scenario.hostAt 301000) "pipeline-1" "h" Scenario.stampedWorld)
    = Some (CacheManager.entry_data Scenario.stampedEntry)
  /\ @CacheManager.getPipelineExecution (Scenario.hostAt 301001) "pipeline-1" "h" Scenario.stampedWorld
    = (None, {| CacheManager.config := CacheManager.DEFAULT_CACHE_CONFIG;
                CacheManager.pipelineExecutionCache := [];
                CacheManager.clockReads := 1 |})
  /\ @CacheManager.getPipelineExecution (Scenario.hostAt 300999) "pipeline-1" "other" Scenario.stampedWorld
    = (None, {| CacheManager.config := CacheManager.DEFAULT_CACHE_CONFIG;
                CacheManager.pipelineExecutionCache := [];
                CacheManager.clockReads := 1 |}).
Proof. repeat split. Qed.

(* ------------------------------------------------------------------ *)
(** *** Reachability *)
(* ------------------------------------------------------------------ *)

Section Reach.
Variable es : list PipelineEdge.
Lemma reachVisit_unfold fuel id visited :
  reachVisit fuel es id visited =
  if bool_decide (id ∈ visited) then Some visited
  else match fuel with
       | O => None
       | S fuel' =>
           forEachVisit (fun edge v => reachVisit fuel' es (edge_target edge) v)
             (outgoing es id) (Some (visited ++ [id]))
       end.
Proof. destruct fuel; reflexivity. Qed.

Lemma reachVisit_spec fuel : forall id v v',
  reachVisit fuel es id v = Some v' -> reachStep es id v v'.
Proof.
  induction fuel as [|fuel IH]; intros id v v'; rewrite reachVisit_unfold;
    case_bool_decide as Hin; intros Hrun; try discriminate;
    try (injection Hrun as <-; by repeat split; auto; intros; tauto).
  pose (I := fun (seen : list PipelineEdge) (s : list string) =>
     (forall x, x ∈ v ++ [id] -> x ∈ s)
     /\ (forall e, e ∈ seen -> edge_target e ∈ s)
     /\ (forall x, x ∈ s -> x ∈ v ++ [id] \/ rtc (edgeRel es) id x)
     /\ (forall x y, x ∈ s -> x ∉ v ++ [id] -> edgeRel es x y -> y ∈ s)).
  assert (HI : I (outgoing es id) v').
  { refine (forEachVisit_inv _ I _ _ _ _ _ Hrun).
    - split; [auto|]. split; [intros e He; by apply elem_of_nil in He|].
      split; [auto|]. intros x y Hx Hnx. done.
    - intros seen e s s' He (Hsub & Hdone & Hsound & Hclosed) Hv.
      apply IH in Hv as (Hsub' & Hid' & Hsound' & Hclosed').
      apply list_elem_of_filter in He as [Hsrc He].
      repeat split.
      + auto.
      + intros e' [He'| ->%list_elem_of_singleton]%elem_of_app; auto.
      + intros x Hx. destruct (Hsound' x Hx) as [Hs|Hr]; [auto|].
        right. eapply rtc_l; [|exact Hr]. by exists e.
      + intros x y Hx Hnx HE.
        destruct (decide (x ∈ s)) as [Hxs|Hxs]; [|by eapply Hclosed'].
        apply Hsub'. by eapply Hclosed. }
  destruct HI as (Hsub & Hdone & Hsound & Hclosed).
  repeat split.
  - intros x Hx. apply Hsub, elem_of_app. by left.
  - apply Hsub, elem_of_app. right. by left.
  - intros x Hx. destruct (Hsound x Hx) as [[?| ->%list_elem_of_singleton]%elem_of_app|?]; auto.
    right. done.
  - intros x y Hx Hnx HE.
    destruct (decide (x = id)) as [->|Hne].
    + destruct HE as (e & He & Hs & <-). apply Hdone.
      apply list_elem_of_filter. done.
    + eapply Hclosed; eauto. intros [?| ->%list_elem_of_singleton]%elem_of_app; done.
Qed.

Lemma unvisited_mono universe v v' :
  (forall x, x ∈ v -> x ∈ v') -> unvisited universe v' <= unvisited universe v.
Proof.
  intros Hsub. unfold unvisited. induction universe as [|u l IH]; [done|].
  rewrite !filter_cons. repeat case_decide; cbn; try lia.
  exfalso. auto.
Qed.

Lemma unvisited_add universe v id :
  id ∈ universe -> id ∉ v -> unvisited universe (v ++ [id]) < unvisited universe v.
Proof.
  intros Hu Hv. unfold unvisited. induction universe as [|u l IH]; [by apply elem_of_nil in Hu|].
  assert (Hmono : unvisited l (v ++ [id]) <= unvisited l v).
  { apply unvisited_mono. intros x Hx. apply elem_of_app. by left. }
  unfold unvisited in Hmono.
  rewrite !filter_cons. apply elem_of_cons in Hu as [<-|Hu].
  - rewrite decide_False, decide_True; cbn; [lia|done|].
    intros Hn. apply Hn, elem_of_app. right. by left.
  - specialize (IH Hu).
    destruct (decide (u ∉ v ++ [id])) as [Hnew|Hnew];
      destruct (decide (u ∉ v)) as [Hold|Hold]; cbn; try lia.
    exfalso. apply Hold. intros Hin. apply Hnew, elem_of_app. by left.
Qed.

Lemma reachVisit_total (universe : list string) fuel : forall id v,
  (forall e, e ∈ es -> edge_target e ∈ universe) ->
  id ∈ universe ->
  unvisited universe v <= fuel ->
  exists v', reachVisit fuel es id v = Some v' /\ (forall x, x ∈ v -> x ∈ v').
Proof.
  induction fuel as [|fuel IH]; intros id v Htgt Hid Hm; rewrite reachVisit_unfold;
    case_bool_decide as Hin; try by (exists v).
  - pose proof (unvisited_add universe v id Hid Hin). lia.
  - pose proof (unvisited_add universe v id Hid Hin) as Hlt.
    destruct (forEachVisit_total
                (fun edge v0 => reachVisit fuel es (edge_target edge) v0)
                (fun s => forall x, x ∈ v ++ [id] -> x ∈ s)
                (outgoing es id) (v ++ [id])) as (v' & Hrun & Hsub); [done| |].
    + intros e s [_ He]%list_elem_of_filter Hs.
      destruct (IH (edge_target e) s) as (s' & Hs' & Hsub'); auto.
      { pose proof (unvisited_mono universe _ _ Hs). lia. }
      exists s'. split; [done|]. auto.
    + exists v'. split; [done|]. intros x Hx. apply Hsub, elem_of_app. by left.
Qed.
End Reach.

Lemma unvisited_le universe v : unvisited universe v <= length universe.
Proof. apply length_filter. Qed.

Lemma findReachableNodes_total (pipeline : Pipeline) (start : string) :
  exists v, reachVisit (S (length (edges pipeline))) (edges pipeline) start [] = Some v.
Proof.
  destruct (reachVisit_total (edges pipeline) (start :: map edge_target (edges pipeline))
              (S (length (edges pipeline))) start []) as (v & Hv & _).
  - intros e He. right. apply list_elem_of_fmap. by exists e.
  - by left.
  - etrans; [apply unvisited_le|]. cbn. by rewrite length_map.
  - by exists v.
Qed.

Lemma findReachableNodes_spec (pipeline : Pipeline) (start x : string) :
  x ∈ findReachableNodes pipeline start <-> rtc (edgeRel (edges pipeline)) start x.
Proof.
  unfold findReachableNodes.
  destruct (findReachableNodes_total pipeline start) as (v & Hv). rewrite Hv. cbn.
  apply reachVisit_spec in Hv as (_ & Hstart & Hsound & Hclosed).
  split.
  - intros Hx. destruct (Hsound x Hx) as [Hnil|Hr]; [by apply elem_of_nil in Hnil|done].
  - revert x. apply rtc_ind_r; [done|]. intros y z _ Hyz Hy.
    eapply Hclosed; eauto. apply not_elem_of_nil.
Qed.

Lemma elem_of_setAdd (x y : string) (s : list string) :
  x ∈ JS.setAdd y s <-> x = y \/ x ∈ s.
Proof.
  unfold JS.setAdd. case_bool_decide.
  - split; [by right|]. by intros [->|?].
  - rewrite elem_of_app, list_elem_of_singleton. tauto.
Qed.

Lemma elem_of_setAdd_all (x : string) (l acc : list string) :
  x ∈ fold_left (fun a id => JS.setAdd id a) l acc <-> x ∈ l \/ x ∈ acc.
Proof.
  revert acc. induction l as [|y l IH]; intros acc; cbn.
  - split; [by right|]. intros [H|H]; [by apply elem_of_nil in H|done].
  - rewrite IH, elem_of_setAdd, elem_of_cons. tauto.
Qed.

Lemma elem_of_collectReachable (pipeline : Pipeline) (sources : list PipelineNode) (x : string) :
  x ∈ collectReachable pipeline sources <->
  exists n, n ∈ sources /\ rtc (edgeRel (edges pipeline)) (node_id n) x.
Proof.
  unfold collectReachable.
  assert (Hgen : forall acc,
    x ∈ fold_left
          (fun reachableNodes dataSourceNode =>
             fold_left (fun a id => JS.setAdd id a)
               (findReachableNodes pipeline (node_id dataSourceNode)) reachableNodes)
          sources acc
    <-> x ∈ acc \/ exists n, n ∈ sources /\ rtc (edgeRel (edges pipeline)) (node_id n) x).
  { induction sources as [|n l IH]; intros acc; cbn [fold_left].
    - split; [by left|]. intros [H|(n & Hn & _)]; [done|by apply elem_of_nil in Hn].
    - rewrite IH, elem_of_setAdd_all, findReachableNodes_spec. split.
      + intros [[H|H]|(m & Hm & Hr)]; [right; exists n; split; [by left|done]|by left|].
        right. exists m. split; [by right|done].
      + intros [H|(m & [->|Hm]%elem_of_cons & Hr)]; [by left; right|by left; left|].
        right. by exists m. }
  rewrite Hgen. split; [intros [H|H]; [by apply elem_of_nil in H|done]|by right].
Qed.

Lemma elem_of_dataSourceNodes (pipeline : Pipeline) (n : PipelineNode) :
  n ∈ dataSourceNodes pipeline <-> n ∈ nodes pipeline /\ node_type n = TDataSource.
Proof.
  unfold dataSourceNodes. rewrite !list_elem_of_In, filter_In, bool_decide_eq_true. done.
Qed.

Lemma reachableNodes_spec (pipeline : Pipeline) (x : string) :
  x ∈ collectReachable pipeline (dataSourceNodes pipeline) <-> Reachable pipeline x.
Proof.
  rewrite elem_of_collectReachable. unfold Reachable.
  split; intros (n & Hn & Hr); exists n.
  - apply elem_of_dataSourceNodes in Hn. tauto.
  - split; [apply elem_of_dataSourceNodes; tauto|tauto].
Qed.

(* ------------------------------------------------------------------ *)
(** *** Topological order *)
(* ------------------------------------------------------------------ *)

Section Topo.
Variables (es : list PipelineEdge) (R : list string).

Lemma topoVisit_unfold fuel id st :
  topoVisit fuel es R id st =
  if bool_decide (id ∈ fst st) then Some st
  else if negb (bool_decide (id ∈ R)) then Some st
  else match fuel with
       | O => None
       | S fuel' =>
           match forEachVisit (fun edge s => topoVisit fuel' es R (edge_source edge) s)
                   (incoming es id) (Some (fst st ++ [id], snd st)) with
           | Some s => Some (fst s, snd s ++ [id])
           | None => None
           end
       end.
Proof. destruct fuel; reflexivity. Qed.

Lemma topoStep_refl s : topoStep R s s.
Proof.
  split; [done|]. split; [|done].
  exists []. rewrite app_nil_r. split; [done|]. split; [constructor|].
  intros x Hx. by apply elem_of_nil in Hx.
Qed.

Lemma topoStep_trans s1 s2 s3 : topoStep R s1 s2 -> topoStep R s2 s3 -> topoStep R s1 s3.
Proof.
  intros (Hv1 & (dr1 & Hr1 & Hnd1 & Hdr1) & Hnew1) (Hv2 & (dr2 & Hr2 & Hnd2 & Hdr2) & Hnew2).
  split; [auto|]. split.
  - exists (dr1 ++ dr2). rewrite Hr2, Hr1, app_assoc. split; [done|]. split.
    + apply NoDup_app. split; [done|]. split; [|done].
      intros x Hx1 Hx2. apply Hdr1 in Hx1 as (Hx1 & _). apply Hdr2 in Hx2 as (_ & Hx2 & _). done.
    + intros x [Hx|Hx]%elem_of_app.
      * apply Hdr1 in Hx as (? & ? & ?). auto.
      * apply Hdr2 in Hx as (? & ? & ?). split; [done|]. split; [|done]. intros ?. auto.
  - intros x Hx3 Hx1. destruct (decide (x ∈ fst s2)) as [Hx2|Hx2].
    + rewrite Hr2. apply elem_of_app. left. auto.
    + auto.
Qed.

Lemma topoVisit_step fuel : forall id s s',
  topoVisit fuel es R id s = Some s' -> topoStep R s s' /\ (id ∈ R -> id ∈ fst s').
Proof.
  induction fuel as [|fuel IH]; intros id s s'; rewrite topoVisit_unfold;
    case_bool_decide as Hvis; [intros [= <-]; split; [apply topoStep_refl|done]| |
                               intros [= <-]; split; [apply topoStep_refl|done]| ];
    case_bool_decide as HR; cbn [negb];
    try (intros [= <-]; split; [apply topoStep_refl|done]); [discriminate|].
  destruct (forEachVisit _ _ _) as [s2|] eqn:Hrun; [|discriminate].
  intros [= <-].
  assert (Hstep : topoStep R (fst s ++ [id], snd s) s2).
  { refine (forEachVisit_inv _ (fun _ t => topoStep R (fst s ++ [id], snd s) t) _ _ _ _ _ Hrun).
    - apply topoStep_refl.
    - intros seen e t t' _ Ht Hv. apply IH in Hv as [Hv _]. by eapply topoStep_trans. }
  destruct Hstep as (Hv & (dr & Hr & Hnd & Hdr) & Hnew). cbn [fst snd] in *.
  assert (Hid : id ∈ fst s2) by (apply Hv, elem_of_app; right; by left).
  split; [|done].
  split; cbn [fst snd].
  - intros x Hx. apply Hv, elem_of_app. by left.
  - split.
    + exists (dr ++ [id]). rewrite Hr, app_assoc. split; [done|]. split.
      * apply NoDup_app. split; [done|]. split; [|apply NoDup_singleton].
        intros x Hx ->%list_elem_of_singleton. apply Hdr in Hx as (_ & Hx & _).
        apply Hx, elem_of_app. right. by left.
      * intros x [Hx| ->%list_elem_of_singleton]%elem_of_app; [|done].
        apply Hdr in Hx as (? & Hx & ?). split; [done|]. split; [|done].
        intros ?. apply Hx, elem_of_app. by left.
    + intros x Hx Hnx. apply elem_of_app.
      destruct (decide (x = id)) as [->|Hne]; [right; by left|].
      left. apply Hnew; [done|]. intros [?| ->%list_elem_of_singleton]%elem_of_app; done.
Qed.

Lemma topoVisit_total fuel : forall id s,
  unvisited R (fst s) <= fuel ->
  exists s', topoVisit fuel es R id s = Some s' /\ (forall x, x ∈ fst s -> x ∈ fst s').
Proof.
  induction fuel as [|fuel IH]; intros id s Hm; rewrite topoVisit_unfold;
    case_bool_decide as Hvis; try (by exists s);
    case_bool_decide as HR; cbn [negb]; try (by exists s).
  - pose proof (unvisited_add R (fst s) id HR Hvis). lia.
  - pose proof (unvisited_add R (fst s) id HR Hvis) as Hlt.
    destruct (forEachVisit_total
                (fun edge t => topoVisit fuel es R (edge_source edge) t)
                (fun t => forall x, x ∈ fst s ++ [id] -> x ∈ fst t)
                (incoming es id) (fst s ++ [id], snd s)) as (s2 & Hrun & Hsub); [done| |].
    + intros e t _ Ht.
      destruct (IH (edge_source e) t) as (t' & Ht' & Hsub').
      { pose proof (unvisited_mono R _ _ Ht). lia. }
      exists t'. split; [done|]. auto.
    + rewrite Hrun. eexists. split; [done|]. cbn [fst].
      intros x Hx. apply Hsub, elem_of_app. by left.
Qed.

Lemma topoVisitAll_step fuel (ids : list string) s s' :
  forEachVisit (topoVisit fuel es R) ids (Some s) = Some s' ->
  topoStep R s s' /\ (forall x, x ∈ ids -> x ∈ R -> x ∈ fst s').
Proof.
  intros Hrun.
  refine (forEachVisit_inv _
            (fun seen t => topoStep R s t /\ (forall x, x ∈ seen -> x ∈ R -> x ∈ fst t))
            _ _ _ _ _ Hrun).
  - split; [apply topoStep_refl|]. intros x Hx. by apply elem_of_nil in Hx.
  - intros seen x t t' _ [Ht Hseen] Hv. apply topoVisit_step in Hv as [Hv Hx].
    split; [by eapply topoStep_trans|].
    intros y [Hy| ->%list_elem_of_singleton]%elem_of_app HyR; [|auto].
    destruct Hv as (Hsub & _). auto.
Qed.

Lemma topoVisitAll_total fuel (ids : list string) s :
  length R <= fuel ->
  exists s', forEachVisit (topoVisit fuel es R) ids (Some s) = Some s'.
Proof.
  intros Hfuel.
  destruct (forEachVisit_total (topoVisit fuel es R) (fun _ => True) ids s)
    as (s' & Hs' & _); [done| |by exists s'].
  intros x t _ _. destruct (topoVisit_total fuel x t) as (t' & Ht' & _).
  - etrans; [apply unvisited_le|done].
  - by exists t'.
Qed.

(** ** The order, when the reachable part has no cycle *)

Hypothesis acyclic : forall x, ~ tc (restrictedEdge es R) x x.

Lemma before_app (u v : string) (l l' : list string) :
  before u v l -> before u v (l ++ l').
Proof.
  intros (i & j & Hi & Hj & Hlt). exists i, j.
  split; [by apply lookup_app_l_Some|]. split; [by apply lookup_app_l_Some|done].
Qed.

Lemma before_snoc (u v : string) (l : list string) :
  u ∈ l -> before u v (l ++ [v]).
Proof.
  intros [i Hi]%list_elem_of_lookup. exists i, (length l).
  split; [by apply lookup_app_l_Some|]. split.
  - by rewrite list_lookup_middle.
  - by eapply lookup_lt_Some.
Qed.

Lemma topoVisit_skip fuel id s :
  id ∉ R -> topoVisit fuel es R id s = Some s.
Proof.
  intros HR. rewrite topoVisit_unfold. case_bool_decide; [done|].
  by rewrite bool_decide_eq_false_2.
Qed.

Lemma topoVisit_ordered fuel : forall id stack s s',
  topoInv es R stack s ->
  (forall t, t ∈ stack -> tc (restrictedEdge es R) id t) ->
  topoVisit fuel es R id s = Some s' ->
  topoInv es R stack s' /\ (exists dr, snd s' = snd s ++ dr) /\ (id ∈ R -> id ∈ snd s').
Proof.
  induction fuel as [|fuel IH]; intros id stack s s' [Hcover Hord] Hstack;
    rewrite topoVisit_unfold; case_bool_decide as Hvis.
  1,3: intros [= <-]; split; [done|]; split; [exists []; by rewrite app_nil_r|];
       intros _; destruct (Hcover id Hvis) as [?|Hst]; [done|];
       exfalso; by eapply acyclic, Hstack.
  all: case_bool_decide as HR; cbn [negb];
       try (intros [= <-]; split; [done|]; split; [exists []; by rewrite app_nil_r|done]).
  { discriminate. }
  destruct (forEachVisit _ _ _) as [s2|] eqn:Hrun; [|discriminate].
  intros [= <-].
  pose (I := fun (seen : list PipelineEdge) (t : list string * list string) =>
     topoInv es R (id :: stack) t
     /\ (exists dr, snd t = snd s ++ dr)
     /\ (forall e, e ∈ seen -> edge_source e ∈ R -> edge_source e ∈ snd t)).
  assert (HI : I (incoming es id) s2).
  { refine (forEachVisit_inv _ I _ _ _ _ _ Hrun).
    - split; [|split].
      + split; cbn [fst snd]; [|done].
        intros x [Hx| ->%list_elem_of_singleton]%elem_of_app.
        * destruct (Hcover x Hx); [by left|right; by right].
        * right. by left.
      + exists []. by rewrite app_nil_r.
      + intros e He. by apply elem_of_nil in He.
    - intros seen e t t' He (Hinv & (dr & Hdr) & Hseen) Hv.
      apply list_elem_of_filter in He as [Htgt He].
      destruct (decide (edge_source e ∈ R)) as [HsR|HsR].
      + apply IH with (stack := id :: stack) in Hv as (Hinv' & (dr' & Hdr') & Hsrc); [|done|].
        * split; [done|]. split; [exists (dr ++ dr'); by rewrite Hdr', Hdr, app_assoc|].
          intros e' [He'| ->%list_elem_of_singleton]%elem_of_app HR'; [|auto].
          rewrite Hdr'. apply elem_of_app. left. auto.
        * assert (Hedge : restrictedEdge es R (edge_source e) id).
          { split; [by exists e|done]. }
          intros x [->|Hx]%elem_of_cons; [by apply tc_once|].
          eapply tc_l; [exact Hedge|auto].
      + rewrite topoVisit_skip in Hv by done. injection Hv as <-.
        split; [done|]. split; [by exists dr|].
        intros e' [He'| ->%list_elem_of_singleton]%elem_of_app HR'; [auto|done]. }
  destruct HI as ([Hcover2 Hord2] & (dr & Hdr) & Hpreds). cbn [fst snd] in *.
  split; [|split].
  - split; cbn [fst snd].
    + intros x Hx. destruct (Hcover2 x Hx) as [?|[->|?]%elem_of_cons].
      * left. apply elem_of_app. by left.
      * left. apply elem_of_app. right. by left.
      * by right.
    + intros u v Huv [Hv| ->%list_elem_of_singleton]%elem_of_app.
      * apply before_app. by apply Hord2.
      * apply before_snoc. destruct Huv as ((e & He & <- & Ht) & HuR & _).
        apply Hpreds; [|done]. by apply list_elem_of_filter.
  - exists (dr ++ [id]). by rewrite Hdr, app_assoc.
  - intros _. apply elem_of_app. right. by left.
Qed.

Lemma topoVisitAll_ordered fuel (ids : list string) s s' :
  topoInv es R [] s ->
  forEachVisit (topoVisit fuel es R) ids (Some s) = Some s' ->
  topoInv es R [] s'.
Proof.
  intros Hinv Hrun.
  refine (forEachVisit_inv _ (fun _ t => topoInv es R [] t) _ _ _ _ _ Hrun); [done|].
  intros _ x t t' _ Ht Hv.
  apply topoVisit_ordered with (stack := []) in Hv as (Hinv' & _); [done|done|].
  intros y Hy. by apply elem_of_nil in Hy.
Qed.
End Topo.

(* ------------------------------------------------------------------ *)
(** *** The engine *)
(* ------------------------------------------------------------------ *)

Section Engine.
Context {rt : JSRuntime} {host : Host}.

Lemma topologicalSort_run (pipeline : Pipeline) (R : list string) :
  exists s1 s2,
    forEachVisit (topoVisit (length R) (edges pipeline) R)
      (map node_id
         (List.filter
            (fun node =>
               bool_decide (node_id node ∈ R)
               && negb (existsb (fun e => bool_decide (edge_target e = node_id node))
                                (edges pipeline)))
            (nodes pipeline)))
      (Some ([], [])) = Some s1
    /\ forEachVisit (topoVisit (length R) (edges pipeline) R) R (Some s1) = Some s2
    /\ topologicalSort pipeline R = snd s2.
Proof.
  unfold topologicalSort.
  destruct (topoVisitAll_total (edges pipeline) R (length R)
              (map node_id
                 (List.filter
                    (fun node =>
                       bool_decide (node_id node ∈ R)
                       && negb (existsb (fun e => bool_decide (edge_target e = node_id node))
                                        (edges pipeline)))
                    (nodes pipeline)))
              ([], [])) as (s1 & Hs1); [done|].
  destruct (topoVisitAll_total (edges pipeline) R (length R) R s1) as (s2 & Hs2); [done|].
  exists s1, s2. cbv zeta. rewrite Hs1, Hs2. done.
Qed.

Lemma topologicalSort_elements (pipeline : Pipeline) (R : list string) :
  NoDup (topologicalSort pipeline R)
  /\ forall x, x ∈ topologicalSort pipeline R <-> x ∈ R.
Proof.
  destruct (topologicalSort_run pipeline R) as (s1 & s2 & Hs1 & Hs2 & ->).
  apply topoVisitAll_step in Hs1 as [Hstep1 _].
  apply topoVisitAll_step in Hs2 as [Hstep2 Hall].
  pose proof (topoStep_trans _ _ _ _ Hstep1 Hstep2) as (_ & (dr & Hdr & Hnd & Hin) & Hnew).
  cbn [fst snd] in *. rewrite Hdr. cbn. split; [done|].
  intros x. split.
  - intros Hx. by apply Hin in Hx as (_ & _ & ?).
  - intros Hx. rewrite <- (app_nil_l dr). change ([] ++ dr) with (@nil string ++ dr).
    rewrite <- Hdr. apply Hnew; [by apply Hall|]. apply not_elem_of_nil.
Qed.

Lemma topologicalSort_ordered (pipeline : Pipeline) (R : list string) :
  (forall x, ~ tc (restrictedEdge (edges pipeline) R) x x) ->
  forall u v, restrictedEdge (edges pipeline) R u v ->
              before u v (topologicalSort pipeline R).
Proof.
  intros Hacyc u v Huv.
  pose proof (topologicalSort_elements pipeline R) as [_ Hel].
  destruct (topologicalSort_run pipeline R) as (s1 & s2 & Hs1 & Hs2 & Heq).
  rewrite Heq in *.
  apply topoVisitAll_ordered in Hs1; [|done|].
  - apply topoVisitAll_ordered in Hs2 as [_ Hord]; [|done|done].
    apply Hord; [done|]. apply Hel. by destruct Huv as (_ & _ & ?).
  - split; [intros x Hx; by apply elem_of_nil in Hx|].
    intros a b _ Hb. by apply elem_of_nil in Hb.
Qed.

Lemma findNode_Some (pipeline : Pipeline) (id : string) (n : PipelineNode) :
  findNode pipeline id = Some n -> n ∈ nodes pipeline /\ node_id n = id.
Proof.
  unfold findNode. intros Hf. apply find_some in Hf as [Hin Hid].
  apply bool_decide_eq_true in Hid. by rewrite list_elem_of_In.
Qed.

Lemma findNode_is_Some (pipeline : Pipeline) (id : string) :
  is_Some (findNode pipeline id) <-> namesNode pipeline id.
Proof.
  split.
  - intros [n Hn]. exists n. by apply findNode_Some.
  - intros (n & Hin & Hid). unfold findNode.
    destruct (List.find _ _) eqn:Hf; [done|].
    apply list_elem_of_In in Hin. apply (find_none _ _ Hf n) in Hin.
    apply bool_decide_eq_false in Hin. done.
Qed.

Lemma runNodes_app (pipeline : Pipeline) (l1 l2 : list string) results :
  runNodes pipeline (l1 ++ l2) results =
  (r1 <- runNodes pipeline l1 results;; runNodes pipeline l2 r1).
Proof.
  revert results. induction l1 as [|id l1 IH]; intros results; cbn; [done|].
  destruct (findNode pipeline id) as [node|]; [|apply IH].
  destruct (executeNode node _); cbn; [apply IH|done].
Qed.

Lemma entries_empty : entries ∅ = ∅.
Proof. reflexivity. Qed.

Lemma dom_storeResult (id : string) (out : list row) (results : ResultsObject)
    (x : string) :
  x ∈ dom (entries (storeResult id out results))
  <-> x ∈ dom (entries results) \/ (x = id /\ x <> "__proto__").
Proof.
  unfold storeResult. case_bool_decide as Hid; cbn [entries].
  - subst id. split; [by left|]. intros [?|[? ?]]; done.
  - rewrite dom_insert, elem_of_union, elem_of_singleton. split.
    + intros [->|?]; [right|left]; done.
    + intros [?|[-> _]]; [right|left]; done.
Qed.

Lemma runNodes_dom (pipeline : Pipeline) (order : list string) : forall results results',
  runNodes pipeline order results = JS.Normal results' ->
  forall x, x ∈ dom (entries results') <->
            x ∈ dom (entries results)
            \/ (x ∈ order /\ is_Some (findNode pipeline x) /\ x <> "__proto__").
Proof.
  induction order as [|id order IH]; intros results results' Hrun x; cbn in Hrun.
  - injection Hrun as <-. split; [by left|].
    intros [?|[Hx _]]; [done|by apply elem_of_nil in Hx].
  - destruct (findNode pipeline id) as [node|] eqn:Hfind.
    + destruct (executeNode node _) as [out|]; cbn in Hrun; [|discriminate].
      rewrite (IH _ _ Hrun), dom_storeResult, elem_of_cons.
      split.
      * intros [[?|[-> ?]]|(? & ? & ?)]; [by left| |].
        -- right. split; [by left|]. split; [by rewrite Hfind|done].
        -- right. split; [by right|done].
      * intros [?|([->|?] & ? & ?)]; [left; by left|left; by right|by right].
    + rewrite (IH _ _ Hrun), elem_of_cons. split.
      * intros [?|(? & ? & ?)]; [by left|]. right. split; [by right|done].
      * intros [?|([->|?] & Hs & ?)]; [by left| |by right].
        rewrite Hfind in Hs. by destruct Hs.
Qed.

Lemma runNodes_inheritedArray (pipeline : Pipeline) (order : list string) :
  forall results results',
    runNodes pipeline order results = JS.Normal results' ->
    is_Some (inheritedArray results') <->
    is_Some (inheritedArray results)
    \/ ("__proto__" ∈ order /\ is_Some (findNode pipeline "__proto__")).
Proof.
  induction order as [|id order IH]; intros results results' Hrun; cbn in Hrun.
  - injection Hrun as <-. split; [by left|].
    intros [?|[Hx _]]; [done|by apply elem_of_nil in Hx].
  - destruct (findNode pipeline id) as [node|] eqn:Hfind.
    + destruct (executeNode node _) as [out|]; cbn in Hrun; [|discriminate].
      rewrite (IH _ _ Hrun), elem_of_cons. unfold storeResult.
      case_bool_decide as Hid; cbn [inheritedArray].
      * subst id. split; [intros _|intros _; left; by eexists].
        right. split; [by left|by rewrite Hfind].
      * split; [intros [?|[? ?]]; [by left|right; split; [by right|done]]|].
        intros [?|[[?|?] ?]]; [by left|congruence|by right].
    + rewrite (IH _ _ Hrun), elem_of_cons. split.
      * intros [?|[? ?]]; [by left|]. right. split; [by right|done].
      * intros [?|[[Heq|?] Hs]]; [by left| |by right].
        rewrite Heq, Hfind in Hs. by destruct Hs.
Qed.

Lemma computeResults_inv (pipeline : Pipeline) results leaves :
  computeResults pipeline = JS.Normal (results, leaves) ->
  let reachableNodes := collectReachable pipeline (dataSourceNodes pipeline) in
  dataSourceNodes pipeline <> []
  /\ runNodes pipeline (topologicalSort pipeline reachableNodes) ∅ = JS.Normal results
  /\ collectLeafResults pipeline results (findLeafNodes pipeline reachableNodes)
     = JS.Normal leaves.
Proof.
  unfold computeResults. intros Hc. cbv zeta.
  destruct (dataSourceNodes pipeline) as [|n l] eqn:Hds; [discriminate|].
  destruct (runNodes _ _ _) as [r|] eqn:Hr; cbv beta iota delta [JS.bind] in Hc;
    [|discriminate].
  destruct (collectLeafResults _ _ _) as [lv|] eqn:Hl; [|discriminate].
  injection Hc as <- <-. done.
Qed.

End Engine.

Section NodeHandlers.
Context {rt : JSRuntime} {host : Host}.

Lemma runNodes_found (pipeline : Pipeline) (id : string) (rest : list string)
    (results : ResultsObject) (node : PipelineNode) (out : list row) :
  findNode pipeline id = Some node ->
  executeNode node (getNodeInputData node pipeline results) = JS.Normal out ->
  runNodes pipeline (id :: rest) results
  = runNodes pipeline rest (storeResult id out results).
Proof. intros Hfind Hexec. cbn. by rewrite Hfind, Hexec. Qed.

Lemma executeDataSource_fetched (node : PipelineNode) (dbId : string) (rows : list row) :
  JS.truthy (databaseId (node_config node)) = Some dbId ->
  getDatabaseData dbId 1 (10 * 1000) = JS.Normal rows ->
  executeDataSource node = JS.Normal rows.
Proof. intros Hid Hdb. unfold executeDataSource. by rewrite Hid, Hdb. Qed.

Lemma executeDataSource_unconfigured (node : PipelineNode) :
  JS.truthy (databaseId (node_config node)) = None ->
  executeDataSource node
  = JS.Throw (JS.ErrorObj
      ("データソース「" +:+ node_label node +:+
       "」に参照データが設定されていません。ノードをクリックして設定パネルからデータベースを選択してください。")).
Proof. intros Hid. unfold executeDataSource. by rewrite Hid. Qed.

Lemma executeDataSource_fetch_failed (node : PipelineNode) (dbId : string) (e : JS.thrown) :
  JS.truthy (databaseId (node_config node)) = Some dbId ->
  getDatabaseData dbId 1 (10 * 1000) = JS.Throw e ->
  executeDataSource node
  = JS.Throw (JS.ErrorObj
      ("データソース「" +:+ node_label node +:+
       "」のデータ取得に失敗しました: " +:+ JS.messageOr "不明なエラー" e)).
Proof. intros Hid Hdb. unfold executeDataSource. by rewrite Hid, Hdb. Qed.

Lemma executeCustom_failed (node : PipelineNode) (input : inputData) (code : string)
    (e : JS.thrown) :
  JS.truthy (customCode (node_config node)) = Some code ->
  trim code <> "" ->
  userFunction code (positionalArguments input) = JS.Throw e ->
  executeCustom node input
  = JS.Throw (JS.ErrorObj
      ("Custom code execution failed: " +:+ JS.messageOr "Unknown error" e)).
Proof.
  intros Hcode Htrim Hrun. unfold executeCustom.
  by rewrite Hcode, bool_decide_eq_false_2, Hrun.
Qed.

Lemma executeCustom_not_an_array (node : PipelineNode) (input : inputData) (code : string) :
  JS.truthy (customCode (node_config node)) = Some code ->
  trim code <> "" ->
  userFunction code (positionalArguments input) = JS.Normal None ->
  executeCustom node input
  = JS.Throw (JS.ErrorObj
      "Custom code execution failed: Custom function must return an array").
Proof.
  intros Hcode Htrim Hrun. unfold executeCustom.
  by rewrite Hcode, bool_decide_eq_false_2, Hrun.
Qed.

Lemma executeCustom_returned (node : PipelineNode) (input : inputData) (code : string)
    (result : list row) :
  JS.truthy (customCode (node_config node)) = Some code ->
  trim code <> "" ->
  userFunction code (positionalArguments input) = JS.Normal (Some result) ->
  executeCustom node input = JS.Normal result.
Proof.
  intros Hcode Htrim Hrun. unfold executeCustom.
  by rewrite Hcode, bool_decide_eq_false_2, Hrun.
Qed.
End NodeHandlers.

Section Execute.
Context {rt : JSRuntime} {host : Host}.

Lemma restrictedEdge_reachableEdge (pipeline : Pipeline) (u v : string) :
  restrictedEdge (edges pipeline) (collectReachable pipeline (dataSourceNodes pipeline)) u v
  <-> reachableEdge pipeline u v.
Proof. unfold restrictedEdge, reachableEdge. by rewrite !reachableNodes_spec. Qed.

Lemma acyclic_restricted (pipeline : Pipeline) :
  acyclicOnReachable pipeline ->
  forall x, ~ tc (restrictedEdge (edges pipeline)
                    (collectReachable pipeline (dataSourceNodes pipeline))) x x.
Proof.
  intros Hacyc x Hx. apply (Hacyc x).
  eapply tc_congruence with (f := fun y => y); [|exact Hx].
  intros a b. apply restrictedEdge_reachableEdge.
Qed.

(** The two ways [execute] ends after a miss, and the one after a hit. *)
Lemma execute_fresh_inv (pipeline : Pipeline) (useCache : bool) w r w' :
  execute pipeline useCache w = (JS.Normal r, w') ->
  cached r = false ->
  match computeResults pipeline with
  | JS.Normal (results, leaves) =>
      status r = success /\ nodeResults r = Some results /\ leafResults r = Some leaves
      /\ data r = Some (match leaves with leaf :: _ => leaf_data leaf | [] => [] end)
      /\ error_message r = None
  | JS.Throw e =>
      status r = error /\ nodeResults r = None /\ leafResults r = None /\ data r = None
      /\ error_message r = Some (JS.messageOr "Unknown error" e)
      /\ executionTime r
         = Some (dateNow (pred (CacheManager.clockReads w'))
                 - dateNow (CacheManager.clockReads w))%Z
  end.
Proof.
  unfold execute, executeWith. cbn [CacheManager.now].
  destruct (if useCache then _ else _) as [[c|] w1] eqn:Hlookup.
  - intros [= <- <-]. discriminate.
  - destruct (computeResults pipeline) as [[results leaves]|e].
    + intros [= <- <-] _. done.
    + intros [= <- <-] _. cbn. done.
Qed.

Lemma execute_total (pipeline : Pipeline) (useCache : bool) w :
  exists r w', execute pipeline useCache w = (JS.Normal r, w').
Proof.
  unfold execute, executeWith. cbn [CacheManager.now].
  destruct (if useCache then _ else _) as [[c|] w1]; [by eexists _, _|].
  destruct (computeResults pipeline) as [[results leaves]|e]; by eexists _, _.
Qed.
End Execute.

(* ------------------------------------------------------------------ *)
(** *** The scenario *)
(* ------------------------------------------------------------------ *)

Lemma linear_sources :
  dataSourceNodes Scenario.linear
  = [Scenario.mkNode "source" TDataSource (Scenario.sourceConfig "db")].
Proof. vm_compute. reflexivity. Qed.

Lemma linear_reachable :
  collectReachable Scenario.linear
    [Scenario.mkNode "source" TDataSource (Scenario.sourceConfig "db")]
  = ["source"; "filter"; "aggregate"].
Proof. vm_compute. reflexivity. Qed.

Lemma linear_order :
  topologicalSort Scenario.linear ["source"; "filter"; "aggregate"]
  = ["source"; "filter"; "aggregate"].
Proof. vm_compute. reflexivity. Qed.

Section ScenarioRun.
Context {rt : JSRuntime} {host : Host}.

Lemma computeResults_linear :
  getDatabaseData "db" 1 (10 * 1000) = JS.Normal Scenario.sourceRows ->
  computeResults Scenario.linear
  = JS.Normal
      ({| entries :=
            <["aggregate" := [ ({[ "total" := VNum 5 ]} : row) ]]>
              (<["filter" := [Scenario.rowA 2; Scenario.rowA 3]]>
                 (<["source" := Scenario.sourceRows]> ∅));
          inheritedArray := None |},
       [ {| nodeId := "aggregate"; nodeLabel := "aggregate"; nodeType := TAggregate;
            leaf_data := [ {[ "total" := VNum 5 ]} ] |} ]).
Proof.
  intros Hdb. unfold computeResults.
  rewrite linear_sources. cbv beta iota zeta. rewrite linear_reachable, linear_order.
  rewrite (runNodes_found _ "source" _ _
             (Scenario.mkNode "source" TDataSource (Scenario.sourceConfig "db"))
             Scenario.sourceRows); [|vm_compute; reflexivity|].
  2:{ apply (executeDataSource_fetched _ "db"); [vm_compute; reflexivity|exact Hdb]. }
  rewrite (runNodes_found _ "filter" _ _
             (Scenario.mkNode "filter" TFilter Scenario.filterConfig)
             [Scenario.rowA 2; Scenario.rowA 3]); [|vm_compute; reflexivity|vm_compute; reflexivity].
  rewrite (runNodes_found _ "aggregate" _ _
             (Scenario.mkNode "aggregate" TAggregate Scenario.sumConfig)
             [ {[ "total" := VNum 5 ]} ]); [|vm_compute; reflexivity|vm_compute; reflexivity].
  cbn [runNodes JS.bind].
  replace (findLeafNodes Scenario.linear ["source"; "filter"; "aggregate"])
    with ["aggregate"] by (vm_compute; reflexivity).
  reflexivity.
Qed.

(** C1. For the pipeline [Source -> Filter(a > 1) -> Aggregate(sum(a) as
    total)] over the rows [{a:1}, {a:2}, {a:3}], a call of [execute] that
    is not answered from the cache returns status [success]; the filter
    keeps the rows with [a = 2] and [a = 3], and the leaf result, also
    exposed as [data], is exactly [[{total: 5}]]. *)
Theorem scenario_filter_sum_total (useCache : bool) (w : CacheManager.World) :
  getDatabaseData "db" 1 (10 * 1000) = JS.Normal Scenario.sourceRows ->
  (useCache = true ->
   JS.mapGet (pipeline_id Scenario.linear) (CacheManager.pipelineExecutionCache w) = None) ->
  exists r w',
    execute Scenario.linear useCache w = (JS.Normal r, w')
    /\ status r = success
    /\ cached r = false
    /\ leafResults r
       = Some [ {| nodeId := "aggregate"; nodeLabel := "aggregate"; nodeType := TAggregate;
                   leaf_data := [ {[ "total" := VNum 5 ]} ] |} ]
    /\ data r = Some [ {[ "total" := VNum 5 ]} ]
    /\ (exists results,
          nodeResults r = Some results
          /\ results !! "filter" = Some [Scenario.rowA 2; Scenario.rowA 3]).
Proof.
  intros Hdb Hmiss. unfold execute, executeWith. cbn [CacheManager.now].
  assert (Hlookup :
    (if useCache
     then CacheManager.getPipelineExecution (pipeline_id Scenario.linear)
            (CacheManager.calculatePipelineHash Scenario.linear)
            {| CacheManager.config := CacheManager.config w;
               CacheManager.pipelineExecutionCache := CacheManager.pipelineExecutionCache w;
               CacheManager.clockReads := S (CacheManager.clockReads w) |}
     else (None,
            {| CacheManager.config := CacheManager.config w;
               CacheManager.pipelineExecutionCache := CacheManager.pipelineExecutionCache w;
               CacheManager.clockReads := S (CacheManager.clockReads w) |}))
    = (None,
        {| CacheManager.config := CacheManager.config w;
           CacheManager.pipelineExecutionCache := CacheManager.pipelineExecutionCache w;
           CacheManager.clockReads := S (CacheManager.clockReads w) |})).
  { destruct useCache; [|done]. rewrite getPipelineExecution_unfold.
    cbn [CacheManager.pipelineExecutionCache]. by rewrite (Hmiss eq_refl). }
  rewrite Hlookup, (computeResults_linear Hdb). cbn [CacheManager.now].
  eexists _, _. split; [reflexivity|]. cbn.
  repeat split. eexists. split; [reflexivity|]. reflexivity.
Qed.
End ScenarioRun.

Lemma scenario_filter_sum_total_witness :
  exists r w',
    @execute Scenario.runtime Scenario.host Scenario.linear true Scenario.startWorld
      = (JS.Normal r, w')
    /\ leafResults r
       = Some [ {| nodeId := "aggregate"; nodeLabel := "aggregate"; nodeType := TAggregate;
                   leaf_data := [ {[ "total" := VNum 5 ]} ] |} ].
Proof.
  destruct (@scenario_filter_sum_total Scenario.runtime Scenario.host true
              Scenario.startWorld eq_refl (fun _ => eq_refl))
    as (r & w' & Hrun & _ & _ & Hleaves & _).
  by exists r, w'.
Defined.

(* ------------------------------------------------------------------ *)
(** *** Errors *)
(* ------------------------------------------------------------------ *)

Section Failures.
Context {rt : JSRuntime} {host : Host}.

Lemma computeResults_no_source (pipeline : Pipeline) :
  dataSourceNodes pipeline = [] ->
  computeResults pipeline = JS.Throw (JS.ErrorObj "No data source node found in pipeline").
Proof. unfold computeResults. by intros ->. Qed.

Lemma runNodes_node_throws (pipeline : Pipeline) (prefix : list string) (id : string)
    (rest : list string) results node e :
  runNodes pipeline prefix ∅ = JS.Normal results ->
  findNode pipeline id = Some node ->
  executeNode node (getNodeInputData node pipeline results) = JS.Throw e ->
  runNodes pipeline (prefix ++ id :: rest) ∅ = JS.Throw e.
Proof.
  intros Hdone Hfind Hthrow. rewrite runNodes_app, Hdone. cbn. by rewrite Hfind, Hthrow.
Qed.

Lemma computeResults_node_throws (pipeline : Pipeline) (prefix : list string) (id : string)
    (rest : list string) results node e :
  dataSourceNodes pipeline <> [] ->
  topologicalSort pipeline (collectReachable pipeline (dataSourceNodes pipeline))
    = prefix ++ id :: rest ->
  runNodes pipeline prefix ∅ = JS.Normal results ->
  findNode pipeline id = Some node ->
  executeNode node (getNodeInputData node pipeline results) = JS.Throw e ->
  computeResults pipeline = JS.Throw e.
Proof.
  intros Hds Hord Hdone Hfind Hthrow. unfold computeResults.
  destruct (dataSourceNodes pipeline) as [|n l] eqn:Heq; [done|].
  rewrite Hord, (runNodes_node_throws _ _ _ _ _ _ _ Hdone Hfind Hthrow). done.
Qed.

(** C7. [execute] always returns a result and never rejects, whatever its
    [try] block returns or throws. When the run is not answered from the
    cache and the [try] block throws, [execute] returns the result of status
    [error] that carries the message of the error (["Unknown error"] for a
    thrown value that is not an [Error]), the time read in the handler minus
    the start time, no [data], no [leafResults] and no [nodeResults]. The
    [try] block of [execute] throws when the pipeline has no data source and
    when a node of the loop throws: a data source without a database, a
    data source whose rows cannot be fetched, a custom node whose code
    throws or returns something that is not an array. *)
Theorem execute_never_rejects (pipeline : Pipeline) (useCache : bool) (w : CacheManager.World) :
  let started :=
    {| CacheManager.config := CacheManager.config w;
       CacheManager.pipelineExecutionCache := CacheManager.pipelineExecutionCache w;
       CacheManager.clockReads := S (CacheManager.clockReads w) |} in
  let lookup :=
    if useCache
    then CacheManager.getPipelineExecution (pipeline_id pipeline)
           (CacheManager.calculatePipelineHash pipeline) started
    else (None, started) in
  let failure (e : JS.thrown) :=
    {| pipelineId := pipeline_id pipeline;
       status := error;
       data := None;
       leafResults := None;
       error_message := Some (match e with
                              | JS.ErrorObj message => message
                              | JS.NotAnError => "Unknown error"
                              end);
       executionTime := Some (dateNow (CacheManager.clockReads (snd lookup))
                              - dateNow (CacheManager.clockReads w))%Z;
       nodeResults := None;
       cached := false |} in
  execute pipeline useCache w = executeWith pipeline useCache (computeResults pipeline) w
  /\ (forall tryBlock,
        exists r w', executeWith pipeline useCache tryBlock w = (JS.Normal r, w'))
  /\ (forall tryBlock e,
        fst lookup = None -> tryBlock = JS.Throw e ->
        executeWith pipeline useCache tryBlock w
        = (JS.Normal (failure e), snd (CacheManager.now (snd lookup))))
  /\ (forall tryBlock results leaves,
        fst lookup = None -> tryBlock = JS.Normal (results, leaves) ->
        exists r w',
          executeWith pipeline useCache tryBlock w = (JS.Normal r, w')
          /\ status r = success /\ cached r = false
          /\ nodeResults r = Some results /\ leafResults r = Some leaves)
  /\ (forall tryBlock c,
        fst lookup = Some c ->
        exists r,
          executeWith pipeline useCache tryBlock w = (JS.Normal r, snd lookup)
          /\ status r = success /\ cached r = true)
  /\ (useCache = false -> lookup = (None, started))
  /\ (JS.mapGet (pipeline_id pipeline) (CacheManager.pipelineExecutionCache w) = None ->
      lookup = (None, started))
  /\ (forall e,
        fst lookup = None -> computeResults pipeline = JS.Throw e ->
        execute pipeline useCache w
        = (JS.Normal (failure e), snd (CacheManager.now (snd lookup))))
  /\ (dataSourceNodes pipeline = [] ->
        computeResults pipeline
        = JS.Throw (JS.ErrorObj "No data source node found in pipeline"))
  /\ (forall prefix id rest results node e,
        dataSourceNodes pipeline <> [] ->
        topologicalSort pipeline (collectReachable pipeline (dataSourceNodes pipeline))
          = prefix ++ id :: rest ->
        runNodes pipeline prefix ∅ = JS.Normal results ->
        findNode pipeline id = Some node ->
        executeNode node (getNodeInputData node pipeline results) = JS.Throw e ->
        computeResults pipeline = JS.Throw e)
  /\ (forall node input,
        node_type node = TDataSource ->
        executeNode node input
        = match JS.truthy (databaseId (node_config node)) with
          | None =>
              JS.Throw (JS.ErrorObj
                ("データソース「" +:+ node_label node +:+
                 "」に参照データが設定されていません。ノードをクリックして設定パネルからデータベースを選択してください。"))
          | Some dbId =>
              match getDatabaseData dbId 1 (10 * 1000) with
              | JS.Normal rows => JS.Normal rows
              | JS.Throw e =>
                  JS.Throw (JS.ErrorObj
                    ("データソース「" +:+ node_label node +:+
                     "」のデータ取得に失敗しました: " +:+
                     match e with
                     | JS.ErrorObj message => message
                     | JS.NotAnError => "不明なエラー"
                     end))
              end
          end)
  /\ (forall node input code,
        node_type node = TCustom ->
        JS.truthy (customCode (node_config node)) = Some code -> trim code <> "" ->
        executeNode node input
        = match userFunction code (positionalArguments input) with
          | JS.Normal (Some result) => JS.Normal result
          | JS.Normal None =>
              JS.Throw (JS.ErrorObj
                "Custom code execution failed: Custom function must return an array")
          | JS.Throw e =>
              JS.Throw (JS.ErrorObj
                ("Custom code execution failed: " +:+
                 match e with
                 | JS.ErrorObj message => message
                 | JS.NotAnError => "Unknown error"
                 end))
          end).
Proof.
  cbv zeta. split; [reflexivity|].
  split; [|split; [|split; [|split; [|split; [|split; [|split; [|split; [|split; [|split]]]]]]]]].
  - intros tryBlock. unfold executeWith. cbn [CacheManager.now].
    destruct (if useCache then _ else _) as [[c|] w1]; [by eexists _, _|].
    destruct tryBlock as [[results leaves]|e]; by eexists _, _.
  - intros tryBlock e Hmiss ->. unfold executeWith. cbn [CacheManager.now].
    destruct (if useCache then _ else _) as [[c|] w1]; [discriminate Hmiss|].
    by destruct e.
  - intros tryBlock results leaves Hmiss ->. unfold executeWith. cbn [CacheManager.now].
    destruct (if useCache then _ else _) as [[c|] w1]; [discriminate Hmiss|].
    eexists _, _. split; [reflexivity|]. done.
  - intros tryBlock c Hhit. unfold executeWith. cbn [CacheManager.now].
    destruct (if useCache then _ else _) as [[c'|] w1]; [|discriminate Hhit].
    eexists. split; [reflexivity|]. done.
  - by intros ->.
  - intros Hnone. destruct useCache; [|done]. rewrite getPipelineExecution_unfold.
    cbn [CacheManager.pipelineExecutionCache]. by rewrite Hnone.
  - intros e Hmiss He. unfold execute, executeWith. rewrite He. cbn [CacheManager.now].
    destruct (if useCache then _ else _) as [[c|] w1]; [discriminate Hmiss|].
    by destruct e.
  - apply computeResults_no_source.
  - apply computeResults_node_throws.
  - intros node input Htype. unfold executeNode, executeDataSource. rewrite Htype.
    destruct (JS.truthy _) as [dbId|]; [|done].
    by destruct (getDatabaseData dbId 1 (10 * 1000)) as [rows|[m|]].
  - intros node input code Htype Hcode Htrim. unfold executeNode, executeCustom.
    rewrite Htype, Hcode, bool_decide_eq_false_2 by done.
    by destruct (userFunction _ _) as [[?|]|[m|]].
Qed.
End Failures.

(** A row store that fails: the run ends in an error result that names the
    data source. *)
Lemma failing_fetch_is_reported :
  exists r w',
    @execute Scenario.runtime Scenario.failingHost Scenario.linear false Scenario.startWorld
      = (JS.Normal r, w')
    /\ status r = error
    /\ error_message r
       = Some "データソース「source」のデータ取得に失敗しました: SQLITE_ERROR: no such table"
    /\ nodeResults r = None /\ leafResults r = None /\ data r = None
    /\ executionTime r = Some 1%Z.
Proof. eexists _, _. split; [reflexivity|]. repeat split. Qed.

(* ------------------------------------------------------------------ *)
(** *** Reachable nodes and their order *)
(* ------------------------------------------------------------------ *)

Section Order.
Context {rt : JSRuntime} {host : Host}.

(** C2, as amended. For a pipeline whose node ids are unique and whose
    edges reference existing node ids, a successful run that was not answered
    from the cache returns a [nodeResults] whose keys are exactly the nodes,
    other than a node named ["__proto__"], that a directed path of length
    >= 0 reaches from some [dataSource] node: exactly the reachable nodes
    when no node has that id. A reachable node named ["__proto__"] is
    executed, and its rows are the prototype of [nodeResults], not a key. A
    node that no data source reaches is never executed and has no entry. *)
Theorem nodeResults_exactly_reachable (pipeline : Pipeline) (useCache : bool)
    (w w' : CacheManager.World) (r : PipelineExecutionResult) :
  wellFormed pipeline ->
  execute pipeline useCache w = (JS.Normal r, w') ->
  status r = success ->
  cached r = false ->
  exists results,
    nodeResults r = Some results
    /\ (forall x, x ∈ dom (entries results) <-> Reachable pipeline x /\ x <> "__proto__")
    /\ ((forall n, n ∈ nodes pipeline -> node_id n <> "__proto__") ->
        forall x, x ∈ dom (entries results) <-> Reachable pipeline x)
    /\ (is_Some (inheritedArray results) <-> Reachable pipeline "__proto__")
    /\ (forall x, ~ Reachable pipeline x -> entries results !! x = None).
Proof.
  intros [_ Hedges] Hrun Hok Hfresh.
  pose proof (execute_fresh_inv pipeline useCache w r w' Hrun Hfresh) as Hinv.
  destruct (computeResults pipeline) as [[results leaves]|e] eqn:Hc;
    [|destruct Hinv as (? & _); congruence].
  destruct Hinv as (_ & Hnr & _). exists results. split; [done|].
  apply computeResults_inv in Hc as (_ & Hloop & _).
  assert (Hnamed : forall x, Reachable pipeline x -> namesNode pipeline x).
  { intros x (n & Hn & _ & Hpath).
    apply rtc_inv_r in Hpath as [<-|(y & _ & (e & He & _ & <-))].
    - by exists n.
    - by apply Hedges. }
  destruct (topologicalSort_elements pipeline
              (collectReachable pipeline (dataSourceNodes pipeline))) as [_ Hel].
  assert (Hdom : forall x, x ∈ dom (entries results)
                           <-> Reachable pipeline x /\ x <> "__proto__").
  { intros x. rewrite (runNodes_dom _ _ _ _ Hloop x), entries_empty, dom_empty, elem_of_empty.
    rewrite Hel, reachableNodes_spec, findNode_is_Some.
    split; [tauto|]. intros [Hx ?]. right. split; [done|]. split; [by apply Hnamed|done]. }
  split; [exact Hdom|]. split; [|split].
  - intros Hids x. rewrite Hdom. split; [tauto|]. intros Hx. split; [done|].
    destruct (Hnamed x Hx) as (n & Hn & <-). by apply Hids.
  - rewrite (runNodes_inheritedArray _ _ _ _ Hloop), Hel, reachableNodes_spec,
      findNode_is_Some.
    split; [intros [[? Hnone]|[? ?]]; [discriminate Hnone|done]|].
    intros Hx. right. split; [done|by apply Hnamed].
  - intros x Hx. apply not_elem_of_dom. rewrite Hdom. tauto.
Qed.


End Order.

Lemma wellFormed_withOrphan : wellFormed Scenario.withOrphan.
Proof.
  split.
  - cbn. repeat (apply NoDup_cons_2;
                 [intros Hin;
                  repeat (apply elem_of_cons in Hin as [Hin|Hin]; [discriminate Hin|]);
                  by apply elem_of_nil in Hin|]).
    apply NoDup_nil_2.
  - intros e He. cbn in He.
    repeat (apply elem_of_cons in He as [->|He]);
      [| | |by apply elem_of_nil in He];
      split; apply findNode_is_Some; vm_compute; by eexists.
Qed.

Lemma nodeResults_exactly_reachable_witness :
  exists r w',
    @execute Scenario.runtime Scenario.host Scenario.withOrphan false Scenario.startWorld
      = (JS.Normal r, w')
    /\ exists results,
         nodeResults r = Some results
         /\ (forall x, x ∈ dom (entries results) <-> Reachable Scenario.withOrphan x)
         /\ entries results !! "orphan" = None
         /\ dom (entries results) = {[ "source"; "filter"; "aggregate" ]}.
Proof.
  eexists _, _. split; [reflexivity|].
  destruct (@nodeResults_exactly_reachable Scenario.runtime Scenario.host
              Scenario.withOrphan false Scenario.startWorld _ _
              wellFormed_withOrphan eq_refl eq_refl eq_refl)
    as (results & Hnr & _ & Hdom & _).
  exists results. split; [exact Hnr|]. split.
  - apply Hdom. intros n Hn. cbn in Hn.
    repeat (apply elem_of_cons in Hn as [->|Hn]); [| | | |by apply elem_of_nil in Hn];
      discriminate.
  - injection Hnr as <-. split; reflexivity.
Defined.

Lemma wellFormed_protoOnly : wellFormed Scenario.protoOnly.
Proof.
  split.
  - cbn. apply NoDup_singleton.
  - intros e He. by apply elem_of_nil in He.
Qed.

(** C2 as stated fails: a data source named ["__proto__"] is reachable and
    is executed, its rows are the leaf result of the run, and the
    successful run returns a [nodeResults] without any key. *)
Lemma nodeResults_has_no_proto_key :
  wellFormed Scenario.protoOnly
  /\ Reachable Scenario.protoOnly "__proto__"
  /\ exists r w' results,
       @execute Scenario.runtime Scenario.host Scenario.protoOnly false Scenario.startWorld
         = (JS.Normal r, w')
       /\ status r = success /\ cached r = false
       /\ data r = Some Scenario.sourceRows
       /\ nodeResults r = Some results
       /\ entries results = ∅
       /\ inheritedArray results = Some Scenario.sourceRows
       /\ ~ (forall x, x ∈ dom (entries results) <-> Reachable Scenario.protoOnly x).
Proof.
  assert (Hreach : Reachable Scenario.protoOnly "__proto__").
  { exists (Scenario.mkNode "__proto__" TDataSource (Scenario.sourceConfig "db")).
    split; [by left|]. split; [reflexivity|]. apply rtc_refl. }
  split; [exact wellFormed_protoOnly|]. split; [exact Hreach|].
  eexists _, _, _. split; [reflexivity|]. split; [reflexivity|]. split; [reflexivity|].
  split; [reflexivity|]. split; [reflexivity|]. split; [reflexivity|].
  split; [reflexivity|].
  change (~ (forall x, x ∈ dom (∅ : gmap string (list row))
                       <-> Reachable Scenario.protoOnly x)).
  intros Hall. apply Hall in Hreach. by rewrite dom_empty in Hreach.
Qed.

(** A pipeline whose edges all go up along a rank has no cycle. *)
Lemma acyclic_by_rank (pipeline : Pipeline) (rank : string -> nat) :
  (forall e, e ∈ edges pipeline -> rank (edge_source e) < rank (edge_target e)) ->
  acyclicOnReachable pipeline.
Proof.
  intros Hrank x Hcycle.
  assert (Hlt : forall a b, tc (reachableEdge pipeline) a b -> rank a < rank b).
  { induction 1 as [a b ((e & He & <- & <-) & _)|a b c ((e & He & <- & <-) & _) _ IH].
    - by apply Hrank.
    - etrans; [by apply Hrank|done]. }
  specialize (Hlt x x Hcycle). lia.
Qed.

Lemma linear_acyclic : acyclicOnReachable Scenario.linear.
Proof.
  apply (acyclic_by_rank _ Scenario.linearRank). intros e He. cbn in He.
  repeat (apply elem_of_cons in He as [->|He]); [| |by apply elem_of_nil in He];
    vm_compute; lia.
Qed.




(* ------------------------------------------------------------------ *)
(** *** Cached runs *)
(* ------------------------------------------------------------------ *)

Section CacheEngine.
Context {rt : JSRuntime} {host : Host}.

Lemma limitLeaf_length (cap : nat) (leaf : LeafNodeResult) :
  length (leaf_data (CacheManager.limitLeaf cap leaf))
  = Nat.min (length (leaf_data leaf)) cap.
Proof. cbn. rewrite length_take. lia. Qed.




(** A run that was answered from the cache. *)
Lemma execute_hit_inv (pipeline : Pipeline) w r w' :
  execute pipeline true w = (JS.Normal r, w') ->
  cached r = true ->
  exists entry,
    JS.mapGet (pipeline_id pipeline) (CacheManager.pipelineExecutionCache w) = Some entry
    /\ CacheManager.pipelineHash (CacheManager.entry_data entry)
       = CacheManager.calculatePipelineHash pipeline
    /\ CacheManager.pipelineExecutionCache w' = CacheManager.pipelineExecutionCache w
    /\ status r = success
    /\ leafResults r = Some (CacheManager.leafResults (CacheManager.entry_data entry))
    /\ executionTime r = Some (CacheManager.executionTime (CacheManager.entry_data entry)).
Proof.
  unfold execute, executeWith. cbn [CacheManager.now]. rewrite getPipelineExecution_unfold.
  cbn [CacheManager.pipelineExecutionCache CacheManager.clockReads].
  destruct (JS.mapGet (pipeline_id pipeline) (CacheManager.pipelineExecutionCache w))
    as [entry|] eqn:Hentry.
  - cbv zeta. destruct (Z.ltb _ _); cbn [orb].
    { destruct (computeResults pipeline) as [[? ?]|?]; intros [= <- <-]; discriminate. }
    case_bool_decide as Hhash; cbn [negb].
    + intros [= <- <-] _. exists entry. done.
    + destruct (computeResults pipeline) as [[? ?]|?]; intros [= <- <-]; discriminate.
  - destruct (computeResults pipeline) as [[? ?]|?]; intros [= <- <-]; discriminate.
Qed.

(** C6. What [cachePipelineExecution] leaves in the map for the pipeline is
    the entry with every node result cut to the node-result cap and every
    leaf result cut to the leaf-result cap (by default the smaller one), and
    it is there whenever the map has room for it, or was within a capacity
    of at least one entry and holds no later timestamp: [n] rows under a cap
    of [c] are stored as [min n c] rows, 50,000 rows under a cap of 500 as
    500. A run that is not answered
    from the cache returns the node results and the leaf results as they
    were computed, whatever the caps are. *)
Theorem cache_rows_bounded_fresh_rows_not :
  (forall id hash results leaves time w,
      let w' := CacheManager.cachePipelineExecution id hash results leaves time w in
      let cfg := CacheManager.config w in
      (forall entry,
          JS.mapGet id (CacheManager.pipelineExecutionCache w') = Some entry ->
          CacheManager.nodeResults (CacheManager.entry_data entry)
            = take (CacheManager.maxNodeResultRows cfg) <$> results
          /\ CacheManager.leafResults (CacheManager.entry_data entry)
            = map (CacheManager.limitLeaf (CacheManager.maxExecutionResultRows cfg)) leaves)
      /\ (length (JS.mapSet id (CacheManager.writtenEntry id hash results leaves time w)
                   (CacheManager.pipelineExecutionCache w))
          <= CacheManager.maxCacheEntries cfg ->
          JS.mapGet id (CacheManager.pipelineExecutionCache w')
          = Some (CacheManager.writtenEntry id hash results leaves time w))
      /\ (1 <= CacheManager.maxCacheEntries cfg ->
          length (CacheManager.pipelineExecutionCache w) <= CacheManager.maxCacheEntries cfg ->
          Forall (fun kv => (CacheManager.timestamp (snd kv)
                             <= dateNow (S (CacheManager.clockReads w)))%Z)
                 (CacheManager.pipelineExecutionCache w) ->
          JS.mapGet id (CacheManager.pipelineExecutionCache w')
          = Some (CacheManager.writtenEntry id hash results leaves time w)))
  /\ CacheManager.maxExecutionResultRows CacheManager.DEFAULT_CACHE_CONFIG
     < CacheManager.maxNodeResultRows CacheManager.DEFAULT_CACHE_CONFIG
  /\ (forall cap leaf,
        length (leaf_data (CacheManager.limitLeaf cap leaf))
        = Nat.min (length (leaf_data leaf)) cap)
  /\ (forall cap (results : gmap string (list row)) id rows,
        results !! id = Some rows ->
        exists stored, (take cap <$> results) !! id = Some stored
                       /\ length stored = Nat.min (length rows) cap)
  /\ (forall leaf,
        length (leaf_data leaf) = 50 * 1000 ->
        length (leaf_data (CacheManager.limitLeaf 500 leaf)) = 500)
  /\ (forall pipeline useCache w r w',
        execute pipeline useCache w = (JS.Normal r, w') ->
        cached r = false -> status r = success ->
        exists results leaves,
          computeResults pipeline = JS.Normal (results, leaves)
          /\ nodeResults r = Some results /\ leafResults r = Some leaves).
Proof.
  split; [|split; [|split; [|split; [|split]]]].
  - intros id hash results leaves time w. cbv zeta. split; [|split].
    + intros entry Hget. apply cachePipelineExecution_lookup in Hget as ->. done.
    + apply cachePipelineExecution_stored.
    + apply cachePipelineExecution_kept.
  - cbn. lia.
  - apply limitLeaf_length.
  - intros cap results id rows Hrows. exists (take cap rows).
    rewrite lookup_fmap, Hrows. split; [done|]. rewrite length_take. lia.
  - intros leaf Hlen. rewrite limitLeaf_length, Hlen. reflexivity.
  - intros pipeline useCache w r w' Hrun Hc Hok.
    pose proof (execute_fresh_inv pipeline useCache w r w' Hrun Hc) as Hinv.
    destruct (computeResults pipeline) as [[results leaves]|e].
    + exists results, leaves. tauto.
    + destruct Hinv as (? & _). congruence.
Qed.

End CacheEngine.



(* ------------------------------------------------------------------ *)
(** *** Custom nodes *)
(* ------------------------------------------------------------------ *)

Section Custom.
Context {rt : JSRuntime} {host : Host}.



Lemma getNodeInputData_Multi (node : PipelineNode) (pipeline : Pipeline)
    (results : ResultsObject) (inputs : list (list row)) :
  getNodeInputData node pipeline results = Multi inputs -> node_type node = TCustom.
Proof.
  unfold getNodeInputData. destruct (base.filter _ _) as [|e1 [|e2 l]]; [done|done|].
  case_bool_decide; [done|discriminate].
Qed.


End Custom.



(* ================================================================== *)
(** ** Further properties                                             *)
(* ================================================================== *)

(* ------------------------------------------------------------------ *)
(** *** Lists and comparisons with [NaN] *)

(** Tests between string literals. *)
Ltac decide_literals :=
  repeat match goal with
         | |- context [bool_decide (?a = ?b)] =>
             first [ change (bool_decide (a = b)) with true
                   | change (bool_decide (a = b)) with false ]
         end.

Section ListFacts.
Context {A : Type}.
Implicit Types (f g : A -> bool) (l : list A).

Lemma elem_of_list_filter f l (x : A) : x ∈ List.filter f l <-> x ∈ l /\ f x = true.
Proof. rewrite !list_elem_of_In. apply filter_In. Qed.

Lemma list_filter_sublist f l : sublist (List.filter f l) l.
Proof.
  induction l as [|x l IH]; [constructor|]. cbn.
  destruct (f x); by constructor.
Qed.

Lemma list_filter_filter f g l :
  List.filter g (List.filter f l) = List.filter (fun x => f x && g x) l.
Proof.
  induction l as [|x l IH]; [done|]. cbn.
  destruct (f x); cbn; [destruct (g x)|]; by rewrite IH.
Qed.

Lemma list_filter_ext_in f g l :
  (forall x, x ∈ l -> f x = g x) -> List.filter f l = List.filter g l.
Proof.
  intros Hfg. induction l as [|x l IH]; [done|]. cbn.
  rewrite (Hfg x) by left. rewrite IH; [done|]. intros y Hy. apply Hfg. by right.
Qed.

Lemma list_filter_none f l : (forall x, x ∈ l -> f x = false) -> List.filter f l = [].
Proof.
  induction l as [|x l IH]; intros Hf; [done|]. cbn.
  rewrite (Hf x) by left. apply IH. intros y Hy. apply Hf. by right.
Qed.

Lemma list_filter_all f l : (forall x, x ∈ l -> f x = true) -> List.filter f l = l.
Proof.
  induction l as [|x l IH]; intros Hf; [done|]. cbn.
  rewrite (Hf x) by left. f_equal. apply IH. intros y Hy. apply Hf. by right.
Qed.

Lemma list_filter_perm f l l' : l ≡ₚ l' -> List.filter f l ≡ₚ List.filter f l'.
Proof.
  induction 1 as [|x l l' _ IH|x y l|l l' l'' _ IH1 _ IH2]; cbn.
  - done.
  - destruct (f x); by rewrite IH.
  - destruct (f x), (f y); try done. apply perm_swap.
  - by rewrite IH1.
Qed.

Lemma sorted_app_le (R : A -> A -> Prop) (l1 l2 : list A) :
  StronglySorted R (l1 ++ l2) -> forall a b, a ∈ l1 -> b ∈ l2 -> R a b.
Proof.
  induction l1 as [|x l1 IH]; intros Hs a b Ha Hb; [by apply elem_of_nil in Ha|].
  cbn in Hs. apply StronglySorted_inv in Hs as [Hs Hx].
  apply elem_of_cons in Ha as [->|Ha]; [|by apply IH].
  rewrite List.Forall_forall in Hx. apply Hx, list_elem_of_In, elem_of_app. by right.
Qed.
End ListFacts.

Lemma ltb_nan_l (x : float) : PrimFloat.ltb PrimFloat.nan x = false.
Proof. rewrite FloatAxioms.ltb_spec. change (Prim2SF nan) with S754_nan. reflexivity. Qed.

Lemma ltb_nan_r (x : float) : PrimFloat.ltb x PrimFloat.nan = false.
Proof.
  rewrite FloatAxioms.ltb_spec. change (Prim2SF nan) with S754_nan.
  unfold SFltb, SFcompare. by destruct (Prim2SF x) as [| | |].
Qed.

Lemma leb_nan_l (x : float) : PrimFloat.leb PrimFloat.nan x = false.
Proof. rewrite FloatAxioms.leb_spec. change (Prim2SF nan) with S754_nan. reflexivity. Qed.

Lemma leb_nan_r (x : float) : PrimFloat.leb x PrimFloat.nan = false.
Proof.
  rewrite FloatAxioms.leb_spec. change (Prim2SF nan) with S754_nan.
  unfold SFleb, SFcompare. by destruct (Prim2SF x) as [| | |].
Qed.

Lemma eqb_nan_l (x : float) : PrimFloat.eqb PrimFloat.nan x = false.
Proof. rewrite FloatAxioms.eqb_spec. change (Prim2SF nan) with S754_nan. reflexivity. Qed.

(* ------------------------------------------------------------------ *)
(** *** Filtering rows *)

Section Filtering.
Context {rt : JSRuntime}.
Import DataTransform.

Lemma filter_unfold (data : list row) (cs : list FilterCondition) :
  filter data cs = List.filter (passes cs) data.
Proof.
  destruct cs as [|c cs]; [|reflexivity].
  cbn. induction data as [|r data IH]; [done|]. cbn. by rewrite <- IH.
Qed.

(** X1: the conditions of a filter form a conjunction. Filtering by two
    lists of conditions one after the other is filtering by their
    concatenation; in a list of conditions the order does not matter, and
    filtering the result again by the same conditions changes nothing. *)
Theorem filter_conditions_conjoin (data : list row) (cs1 cs2 : list FilterCondition) :
  filter (filter data cs1) cs2 = filter data (cs1 ++ cs2)
  /\ filter data (cs1 ++ cs2) = filter data (cs2 ++ cs1)
  /\ filter (filter data cs1) cs1 = filter data cs1.
Proof.
  rewrite !filter_unfold, !list_filter_filter. repeat split.
  - apply list_filter_ext_in. intros r _. unfold passes. by rewrite forallb_app.
  - apply list_filter_ext_in. intros r _. unfold passes.
    rewrite !forallb_app. apply andb_comm.
  - apply list_filter_ext_in. intros r _. by destruct (passes cs1 r).
Qed.

(** X2: a filter selects. Its result is a subsequence of the input (no row
    is added, changed or moved), and it holds exactly the rows that pass
    every condition; with no condition it is the input. *)
Theorem filter_selects (data : list row) (cs : list FilterCondition) :
  sublist (filter data cs) data
  /\ (forall r, r ∈ filter data cs <->
                r ∈ data /\ forall c, c ∈ cs -> testCondition r c = true)
  /\ filter data [] = data
  /\ length (filter data cs) <= length data.
Proof.
  rewrite filter_unfold. split; [|split; [|split]].
  - apply list_filter_sublist.
  - intros r. rewrite elem_of_list_filter. unfold passes. rewrite forallb_forall.
    split; intros [Hr Hall]; (split; [done|]); intros c Hc; apply Hall;
      by apply list_elem_of_In.
  - reflexivity.
  - apply sublist_length, list_filter_sublist.
Qed.

(** X3: an operator outside the nine known ones rejects every row: a filter
    with such a condition returns no row, whatever the other conditions. *)
Theorem filter_unknown_operator (data : list row) (cs : list FilterCondition)
    (c : FilterCondition) :
  c ∈ cs -> fc_operator c = OpOther -> filter data cs = [].
Proof.
  intros Hc Hop. rewrite filter_unfold.
  induction data as [|r data IH]; [done|]. cbn.
  replace (passes cs r) with false; [done|]. symmetry.
  apply not_true_is_false. intros Hp. unfold passes in Hp.
  rewrite forallb_forall in Hp. specialize (Hp c (proj1 (list_elem_of_In _ _) Hc)).
  unfold testCondition in Hp. by rewrite Hop in Hp.
Qed.

(** X4: the four numeric comparisons never hold for [NaN]. A row in which
    the compared field reads [undefined] is rejected by [gt], [gte], [lt] and [lte],
    and a condition of that kind whose value is [undefined] rejects every
    row. *)
Theorem filter_numeric_needs_field (data : list row) (cs : list FilterCondition)
    (c : FilterCondition) :
  c ∈ cs -> numericOperator (fc_operator c) = true ->
  (forall r, r ∈ filter data cs -> getField r (fc_field c) <> VUndefined)
  /\ (fc_value c = VUndefined -> filter data cs = []).
Proof.
  intros Hc Hop.
  assert (Hrej : forall r, getField r (fc_field c) = VUndefined
                           \/ fc_value c = VUndefined -> passes cs r = false).
  { intros r Hr. apply not_true_is_false. intros Hp. unfold passes in Hp.
    rewrite forallb_forall in Hp. specialize (Hp c (proj1 (list_elem_of_In _ _) Hc)).
    unfold testCondition in Hp.
    destruct Hr as [Hr|Hr]; rewrite Hr in Hp; cbn in Hp;
      destruct (fc_operator c); try discriminate Hop;
      rewrite ?ltb_nan_l, ?ltb_nan_r, ?leb_nan_l, ?leb_nan_r in Hp; discriminate Hp. }
  rewrite filter_unfold. split.
  - intros r Hr Hf. apply elem_of_list_filter in Hr as [_ Hp].
    rewrite Hrej in Hp by by left. discriminate Hp.
  - intros Hv. induction data as [|r data IH]; [done|]. cbn.
    rewrite Hrej by by right. exact IH.
Qed.

End Filtering.

Lemma filter_unknown_operator_witness :
  DataTransform.filter (rt := Scenario.runtime) Scenario.sourceRows
    [ Scenario.conditionOnA OpGt (VNum 1); Scenario.conditionOnA OpOther (VNum 1) ]
  = [].
Proof.
  apply (filter_unknown_operator (rt := Scenario.runtime) _ _
           (Scenario.conditionOnA OpOther (VNum 1))); [|reflexivity].
  right. left.
Defined.

Lemma filter_numeric_needs_field_witness :
  DataTransform.filter (rt := Scenario.runtime) Scenario.sourceRows
    [ Scenario.conditionOnA OpLte VUndefined ]
  = [].
Proof.
  apply (proj2 (filter_numeric_needs_field (rt := Scenario.runtime) Scenario.sourceRows
                  [ Scenario.conditionOnA OpLte VUndefined ]
                  (Scenario.conditionOnA OpLte VUndefined)
                  ltac:(left) eq_refl)).
  reflexivity.
Defined.

(* ------------------------------------------------------------------ *)
(** *** Transforming rows *)

Section Transforming.
Context {rt : JSRuntime}.
Import DataTransform.





(** X7: renames do not chain. After [rename a to b] and then
    [rename b to c], the field [c] holds the input value of [b], not the
    one of [a]: the second rename reads the input row. The value of [a] is
    in no field of the output. The two targets are names other than
    ["__proto__"]. *)
Theorem transform_renames_do_not_chain (r : row) (a b c : string) :
  a <> "" -> b <> "" -> c <> "" -> a <> b -> b <> c -> a <> c ->
  b <> "__proto__" -> c <> "__proto__" ->
  transform [r] [Scenario.renameOp a b; Scenario.renameOp b c]
  = [ <[c := getField r b]> (delete b (delete a r)) ].
Proof.
  intros Ha Hb Hc Hab Hbc Hac Hpb Hpc. cbn.
  rewrite !bool_decide_eq_false_2 by done. rewrite !setField_ordinary by done. f_equal.
  apply map_eq. intros f.
  destruct (decide (f = c)) as [->|Hfc].
  { rewrite lookup_delete_ne, !lookup_insert_eq by done. done. }
  rewrite (lookup_insert_ne _ c f) by done.
  destruct (decide (f = b)) as [->|Hfb].
  { by rewrite !lookup_delete_eq. }
  rewrite !(lookup_delete_ne _ b f) by done.
  rewrite lookup_insert_ne by done.
  destruct (decide (f = a)) as [->|Hfa].
  { by rewrite !lookup_delete_eq. }
  rewrite !(lookup_delete_ne _ a f) by done.
  by rewrite lookup_insert_ne.
Qed.

End Transforming.


Lemma transform_renames_do_not_chain_witness :
  DataTransform.transform (rt := Scenario.runtime)
    [ {[ "a" := VNum 1; "b" := VNum 2 ]} ]
    [ Scenario.renameOp "a" "b"; Scenario.renameOp "b" "c" ]
  = [ {[ "c" := VNum 2 ]} ].
Proof.
  refine (eq_trans (transform_renames_do_not_chain (rt := Scenario.runtime)
                      {[ "a" := VNum 1; "b" := VNum 2 ]} "a" "b" "c" _ _ _ _ _ _ _ _) _);
    [discriminate..|reflexivity].
Defined.

(* ------------------------------------------------------------------ *)
(** *** Grouping and aggregating *)

Section KeyedLists.
Context {V : Type}.

Lemma distinctKeys_elem (k : string) (keys : list string) :
  k ∈ distinctKeys keys <-> k ∈ keys.
Proof.
  induction keys as [|x keys IH]; [done|]. cbn [distinctKeys].
  rewrite !elem_of_cons, elem_of_list_filter, IH.
  destruct (decide (k = x)) as [->|Hne]; [by intuition|].
  rewrite bool_decide_eq_false_2 by done. cbn. by intuition.
Qed.

Lemma distinctKeys_NoDup (keys : list string) : NoDup (distinctKeys keys).
Proof.
  induction keys as [|x keys IH]; [constructor|]. cbn [distinctKeys].
  constructor.
  - rewrite elem_of_list_filter. intros [_ Hx].
    by rewrite bool_decide_eq_true_2 in Hx.
  - clear -IH. induction IH as [|y l Hy _ IHl]; [constructor|]. cbn.
    destruct (negb (bool_decide (y = x))); [|done].
    constructor; [|done]. rewrite elem_of_list_filter. by intros [? _].
Qed.

Lemma distinctKeys_length (keys : list string) : length (distinctKeys keys) <= length keys.
Proof.
  induction keys as [|x keys IH]; [done|]. cbn [distinctKeys].
  pose proof (List.filter_length_le (fun k' => negb (bool_decide (k' = x)))
                (distinctKeys keys)).
  rewrite !length_cons. lia.
Qed.

Lemma distinctKeys_snoc (keys : list string) (k : string) :
  distinctKeys (keys ++ [k])
  = if bool_decide (k ∈ keys) then distinctKeys keys else distinctKeys keys ++ [k].
Proof.
  induction keys as [|x keys IH]; [done|]. cbn [app distinctKeys]. rewrite IH.
  destruct (decide (k = x)) as [->|Hne].
  - rewrite (bool_decide_eq_true_2 (x ∈ x :: keys)) by left.
    destruct (bool_decide (x ∈ keys)); [done|].
    rewrite List.filter_app. cbn. rewrite bool_decide_eq_true_2 by done. cbn.
    by rewrite app_nil_r.
  - destruct (bool_decide (k ∈ keys)) eqn:Hk.
    + apply bool_decide_eq_true_1 in Hk.
      by rewrite (bool_decide_eq_true_2 (k ∈ x :: keys)) by by right.
    + apply bool_decide_eq_false_1 in Hk.
      rewrite (bool_decide_eq_false_2 (k ∈ x :: keys)).
      2:{ intros [?|?]%elem_of_cons; done. }
      rewrite List.filter_app. cbn. by rewrite bool_decide_eq_false_2 by done.
Qed.

Lemma mapGet_tabulate (g : string -> V) (keys : list string) (k : string) :
  JS.mapGet k (map (fun k' => (k', g k')) keys)
  = if bool_decide (k ∈ keys) then Some (g k) else None.
Proof.
  induction keys as [|x keys IH]; [done|]. cbn.
  destruct (decide (x = k)) as [->|Hne].
  - rewrite bool_decide_eq_true_2 by done.
    by rewrite (bool_decide_eq_true_2 (k ∈ k :: keys)) by left.
  - rewrite bool_decide_eq_false_2 by done. rewrite IH.
    destruct (bool_decide (k ∈ keys)) eqn:Hk.
    + apply bool_decide_eq_true_1 in Hk.
      by rewrite (bool_decide_eq_true_2 (k ∈ x :: keys)) by by right.
    + apply bool_decide_eq_false_1 in Hk.
      rewrite (bool_decide_eq_false_2 (k ∈ x :: keys)); [done|].
      intros [?|?]%elem_of_cons; done.
Qed.

Lemma mapSet_tabulate (g g' : string -> V) (keys : list string) (k : string) :
  NoDup keys -> k ∈ keys ->
  (forall k', k' <> k -> g' k' = g k') ->
  JS.mapSet k (g' k) (map (fun k' => (k', g k')) keys) = map (fun k' => (k', g' k')) keys.
Proof.
  intros Hnd Hk Hg. induction Hnd as [|x keys Hx Hnd IH]; [by apply elem_of_nil in Hk|].
  cbn. destruct (decide (x = k)) as [->|Hne].
  - rewrite bool_decide_eq_true_2 by done. f_equal.
    apply map_ext_in. intros y Hy%list_elem_of_In.
    rewrite Hg; [done|]. by intros ->.
  - rewrite bool_decide_eq_false_2 by done. rewrite (Hg x) by done. f_equal.
    apply IH. apply elem_of_cons in Hk as [->|Hk]; done.
Qed.

End KeyedLists.

Section Grouping.
Context {rt : JSRuntime}.
Import DataTransform.

Lemma rowsOfGroup_snoc (gb : list string) (k : string) (data : list row) (r : row) :
  rowsOfGroup gb k (data ++ [r])
  = rowsOfGroup gb k data ++ (if bool_decide (groupKey gb r = k) then [r] else []).
Proof. unfold rowsOfGroup. rewrite List.filter_app. cbn. by destruct (bool_decide _). Qed.

Lemma rowsOfGroup_absent (gb : list string) (k : string) (data : list row) :
  k ∉ map (groupKey gb) data -> rowsOfGroup gb k data = [].
Proof.
  intros Hk. unfold rowsOfGroup. induction data as [|x data IH]; [done|]. cbn.
  rewrite bool_decide_eq_false_2.
  - apply IH. intros Hin. apply Hk. cbn. by right.
  - intros Hx. apply Hk. cbn. rewrite Hx. left.
Qed.

(** The [groups] map that [aggregate] builds: one entry per key, in the
    order in which the keys first occur, holding the rows of the key in
    their order. *)
Lemma groups_spec (gb : list string) (data : list row) :
  fold_left (addToGroups gb) data []
  = map (fun k => (k, rowsOfGroup gb k data)) (distinctKeys (map (groupKey gb) data)).
Proof.
  induction data as [|r data IH] using rev_ind; [done|].
  rewrite fold_left_app, IH, map_app. cbn [fold_left map].
  unfold addToGroups.
  rewrite (mapGet_tabulate (fun k => rowsOfGroup gb k data)), distinctKeys_snoc.
  destruct (bool_decide (groupKey gb r ∈ distinctKeys (map (groupKey gb) data))) eqn:Hk.
  - apply bool_decide_eq_true_1 in Hk.
    rewrite bool_decide_eq_true_2 by by apply distinctKeys_elem.
    replace (rowsOfGroup gb (groupKey gb r) data ++ [r])
      with (rowsOfGroup gb (groupKey gb r) (data ++ [r])).
    2:{ by rewrite rowsOfGroup_snoc, bool_decide_eq_true_2. }
    rewrite (mapSet_tabulate (fun k => rowsOfGroup gb k data)
               (fun k => rowsOfGroup gb k (data ++ [r]))); [done| |done|].
    + apply distinctKeys_NoDup.
    + intros k' Hne. rewrite rowsOfGroup_snoc, bool_decide_eq_false_2 by done.
      by rewrite app_nil_r.
  - apply bool_decide_eq_false_1 in Hk.
    rewrite bool_decide_eq_false_2 by by rewrite <- distinctKeys_elem.
    rewrite mapSet_new.
    2:{ rewrite mapGet_tabulate. by rewrite bool_decide_eq_false_2. }
    rewrite map_app. cbn [map]. f_equal.
    + apply map_ext_in. intros k' Hk'%list_elem_of_In.
      rewrite rowsOfGroup_snoc, bool_decide_eq_false_2, app_nil_r; [done|].
      by intros <-.
    + rewrite rowsOfGroup_snoc, bool_decide_eq_true_2 by done.
      rewrite rowsOfGroup_absent; [done|]. by rewrite <- distinctKeys_elem.
Qed.








(** The fields that a group reports from its first row. *)
Lemma aggregate_unfold (data : list row) (gb : list string) (aggs : list AggregationOperation) :
  gb <> [] ->
  aggregate data gb aggs
  = map (fun k =>
           let groupData := rowsOfGroup gb k data in
           addAggregations groupData aggs
             (fold_left (fun acc field =>
                           setField field (getField (default ∅ (head groupData)) field) acc)
                        gb (∅ : row)))
        (distinctKeys (map (groupKey gb) data)).
Proof.
  intros Hgb. destruct gb as [|f gb]; [done|].
  unfold aggregate. rewrite groups_spec, map_map. reflexivity.
Qed.

(** X9: with group-by fields an aggregate returns one row per group key, in
    the order in which the keys first occur in the input. The row of a key
    is computed from the input rows with that key, in their order, and
    reports the group-by fields of the first of them. No group is empty,
    and there are at most as many output rows as input rows. *)
Theorem aggregate_groups (data : list row) (gb : list string)
    (aggs : list AggregationOperation) :
  gb <> [] ->
  let keys := distinctKeys (map (groupKey gb) data) in
  aggregate data gb aggs
  = map (fun k =>
           let groupData := rowsOfGroup gb k data in
           addAggregations groupData aggs
             (fold_left (fun acc field =>
                           setField field (getField (default ∅ (head groupData)) field) acc)
                        gb (∅ : row)))
        keys
  /\ NoDup keys
  /\ (forall k, k ∈ keys <-> exists r, r ∈ data /\ groupKey gb r = k)
  /\ (forall k, k ∈ keys -> rowsOfGroup gb k data <> [])
  /\ (forall k r, r ∈ rowsOfGroup gb k data <-> r ∈ data /\ groupKey gb r = k)
  /\ length (aggregate data gb aggs) <= length data.
Proof.
  intros Hgb keys.
  assert (Hkeys : forall k, k ∈ keys <-> exists r, r ∈ data /\ groupKey gb r = k).
  { intros k. unfold keys. rewrite distinctKeys_elem, list_elem_of_In, in_map_iff.
    split; intros (r & H1 & H2); exists r; rewrite ?list_elem_of_In in *; done. }
  assert (Hrows : forall k r, r ∈ rowsOfGroup gb k data <-> r ∈ data /\ groupKey gb r = k).
  { intros k r. unfold rowsOfGroup. rewrite elem_of_list_filter.
    by rewrite bool_decide_eq_true. }
  split; [by apply aggregate_unfold|]. split; [apply distinctKeys_NoDup|].
  split; [exact Hkeys|]. split; [|split; [exact Hrows|]].
  - intros k (r & Hr & Hk)%Hkeys Hnil.
    assert (Hin : r ∈ rowsOfGroup gb k data) by by apply Hrows.
    rewrite Hnil in Hin. by apply elem_of_nil in Hin.
  - rewrite aggregate_unfold by done. rewrite length_map.
    etrans; [apply distinctKeys_length|]. by rewrite length_map.
Qed.

(** X10: the group key is the text of the group-by values joined by a bar,
    in which [null], [undefined] and the empty string all read as the empty
    string. Two rows whose group-by values have the same text form one
    group, reported under the values of the first row. *)
Theorem aggregate_merges_equal_texts (r r' : row) (gb : list string)
    (aggs : list AggregationOperation) :
  gb <> [] ->
  (forall f, f ∈ gb -> JS.joinItem (getField r f) = JS.joinItem (getField r' f)) ->
  groupKey gb r = groupKey gb r'
  /\ aggregate [r; r'] gb aggs
     = [ addAggregations [r; r'] aggs
           (fold_left (fun acc field => setField field (getField r field) acc)
                      gb (∅ : row)) ].
Proof.
  intros Hgb Hsame.
  assert (Hkey : groupKey gb r = groupKey gb r').
  { unfold groupKey. f_equal. apply map_ext_in. intros f Hf%list_elem_of_In.
    by apply Hsame. }
  split; [exact Hkey|].
  rewrite aggregate_unfold by done. cbn [map distinctKeys List.filter].
  rewrite <- Hkey. rewrite bool_decide_eq_true_2 by done. cbn [negb map].
  unfold rowsOfGroup. cbn [List.filter]. rewrite <- Hkey.
  rewrite !bool_decide_eq_true_2 by done. reflexivity.
Qed.

End Grouping.

Lemma aggregate_groups_witness :
  length (DataTransform.aggregate (rt := Scenario.runtime)
            [ Scenario.rowIn (VStr "Oslo"); Scenario.rowIn (VStr "Rome");
              Scenario.rowIn (VStr "Oslo") ]
            ["city"] [Scenario.countCities])
  <= 3.
Proof.
  exact (proj2 (proj2 (proj2 (proj2 (proj2
    (aggregate_groups (rt := Scenario.runtime)
       [ Scenario.rowIn (VStr "Oslo"); Scenario.rowIn (VStr "Rome");
         Scenario.rowIn (VStr "Oslo") ]
       ["city"] [Scenario.countCities] ltac:(discriminate))))))).
Defined.

Lemma aggregate_merges_equal_texts_witness :
  DataTransform.aggregate (rt := Scenario.runtime)
    [ Scenario.rowIn VNull; Scenario.rowIn (VStr "") ] ["city"] [Scenario.countCities]
  = [ {[ "city" := VNull; "n" := VNum 1 ]} ].
Proof.
  refine (eq_trans (proj2 (aggregate_merges_equal_texts (rt := Scenario.runtime)
            (Scenario.rowIn VNull) (Scenario.rowIn (VStr "")) ["city"]
            [Scenario.countCities] _ _)) _).
  - discriminate.
  - intros f Hf. apply list_elem_of_singleton in Hf as ->. reflexivity.
  - reflexivity.
Defined.

(* ------------------------------------------------------------------ *)
(** *** Joining rows *)

Section Joining.
Context {rt : JSRuntime}.
Import DataTransform.


Lemma push_all (leftRow : row) (matches results : list row) :
  fold_left (fun acc rightRow => acc ++ [rightRow ∪ leftRow]) matches results
  = results ++ map (fun rightRow => rightRow ∪ leftRow) matches.
Proof.
  revert results. induction matches as [|m matches IH]; intros results.
  - by rewrite app_nil_r.
  - cbn [fold_left map]. rewrite IH, <- app_assoc. done.
Qed.

Lemma joinLeftRow_spec rightData lf rf jt results leftRow :
  joinLeftRow rightData lf rf jt results leftRow
  = results ++ joinedWith rightData lf rf jt leftRow.
Proof.
  unfold joinLeftRow, joinedWith.
  destruct (matchesOfLeft rightData lf rf leftRow) as [|m matches] eqn:Hm.
  - cbn. destruct (bool_decide (jt = "left")); [done|by rewrite app_nil_r].
  - cbn [length Nat.ltb Nat.leb]. apply push_all.
Qed.

Lemma joinLeft_fold rightData lf rf jt (leftData results : list row) :
  fold_left (joinLeftRow rightData lf rf jt) leftData results
  = results ++ concat (map (joinedWith rightData lf rf jt) leftData).
Proof.
  revert results. induction leftData as [|x leftData IH]; intros results.
  - by rewrite app_nil_r.
  - cbn [fold_left map concat]. by rewrite IH, joinLeftRow_spec, <- app_assoc.
Qed.

Lemma joinRight_fold leftData lf rf (rightData results : list row) :
  fold_left (joinRightRow leftData lf rf "right") rightData results
  = results ++ List.filter (unmatched leftData lf rf) rightData.
Proof.
  revert results. induction rightData as [|x rightData IH]; intros results.
  - by rewrite app_nil_r.
  - cbn [fold_left List.filter]. rewrite IH. unfold joinRightRow, unmatched.
    destruct (Nat.eqb _ 0); [|done].
    decide_literals. cbn. by rewrite <- app_assoc.
Qed.

Lemma joinOuter_fold leftData lf rf (rightData : list row) : forall results,
  exists added,
    fold_left (joinRightRow leftData lf rf "outer") rightData results = results ++ added
    /\ sublist added (List.filter (unmatched leftData lf rf) rightData).
Proof.
  induction rightData as [|x rightData IH]; intros results.
  - exists []. by rewrite app_nil_r.
  - cbn [fold_left List.filter]. unfold joinRightRow at 2. fold (unmatched leftData lf rf x).
    destruct (unmatched leftData lf rf x).
    + decide_literals. cbn. destruct (existsb _ results).
      * destruct (IH results) as (added & -> & Hsub). exists added.
        split; [done|]. by constructor.
      * destruct (IH (results ++ [x])) as (added & -> & Hsub). exists (x :: added).
        split; [by rewrite <- app_assoc|]. by constructor.
    + apply IH.
Qed.

Lemma join_inner leftData rightData lf rf :
  join leftData rightData lf rf "inner"
  = concat (map (joinedWith rightData lf rf "inner") leftData).
Proof. unfold join. decide_literals. cbn. apply joinLeft_fold. Qed.

Lemma join_left leftData rightData lf rf :
  join leftData rightData lf rf "left"
  = concat (map (joinedWith rightData lf rf "left") leftData).
Proof. unfold join. decide_literals. cbn. apply joinLeft_fold. Qed.

Lemma joinedWith_inner_left rightData lf rf leftRow :
  sublist (joinedWith rightData lf rf "inner" leftRow)
          (joinedWith rightData lf rf "left" leftRow)
  /\ 1 <= length (joinedWith rightData lf rf "left" leftRow).
Proof.
  unfold joinedWith. destruct (matchesOfLeft rightData lf rf leftRow);
    decide_literals; cbn.
  - split; [constructor; constructor|lia].
  - split; [reflexivity|lia].
Qed.

Lemma elem_of_join_inner (leftData rightData : list row) (lf rf : string) (out : row) :
  out ∈ join leftData rightData lf rf "inner" <->
  exists leftRow rightRow,
    leftRow ∈ leftData /\ rightRow ∈ rightData
    /\ JS.strictEq (getField leftRow lf) (getField rightRow rf) = true
    /\ out = rightRow ∪ leftRow.
Proof.
  rewrite join_inner, list_elem_of_In, in_concat. split.
  - intros (piece & Hpiece & Hout%list_elem_of_In).
    apply in_map_iff in Hpiece as (leftRow & <- & Hl%list_elem_of_In).
    unfold joinedWith in Hout.
    destruct (matchesOfLeft rightData lf rf leftRow) as [|m ms] eqn:Hm.
    { by apply elem_of_nil in Hout. }
    apply list_elem_of_In, in_map_iff in Hout as (rightRow & <- & Hr%list_elem_of_In).
    rewrite <- Hm in Hr. unfold matchesOfLeft in Hr.
    apply elem_of_list_filter in Hr as [Hr Heq]. by exists leftRow, rightRow.
  - intros (leftRow & rightRow & Hl & Hr & Heq & ->).
    exists (joinedWith rightData lf rf "inner" leftRow). split.
    + apply in_map_iff. exists leftRow. by rewrite <- list_elem_of_In.
    + assert (Hin : rightRow ∈ matchesOfLeft rightData lf rf leftRow).
      { unfold matchesOfLeft. by apply elem_of_list_filter. }
      unfold joinedWith.
      destruct (matchesOfLeft rightData lf rf leftRow) as [|m ms];
        [by apply elem_of_nil in Hin|].
      apply in_map_iff. exists rightRow. by rewrite <- list_elem_of_In.
Qed.

(** X11: an inner join holds, for every left row in turn, that row merged
    with each right row whose join field is strictly equal to its own, and
    nothing else; in a merged row the fields of the right row win. A left
    join holds in addition every left row without a match, unchanged: it
    has at least one row per left row, and the inner join is a subsequence
    of it. *)
Theorem join_inner_and_left (leftData rightData : list row) (lf rf : string) :
  (forall out, out ∈ join leftData rightData lf rf "inner" <->
     exists leftRow rightRow,
       leftRow ∈ leftData /\ rightRow ∈ rightData
       /\ JS.strictEq (getField leftRow lf) (getField rightRow rf) = true
       /\ out = rightRow ∪ leftRow)
  /\ (forall (leftRow rightRow : row) f,
        getField (rightRow ∪ leftRow) f
        = if bool_decide (is_Some (rightRow !! f)) then getField rightRow f
          else getField leftRow f)
  /\ sublist (join leftData rightData lf rf "inner") (join leftData rightData lf rf "left")
  /\ length leftData <= length (join leftData rightData lf rf "left")
  /\ join leftData [] lf rf "left" = leftData
  /\ join leftData [] lf rf "inner" = [].
Proof.
  split; [|split; [|split; [|split; [|split]]]]; rewrite ?join_inner, ?join_left.
  - intros out. rewrite <- join_inner. apply elem_of_join_inner.
  - intros leftRow rightRow f. unfold getField. rewrite lookup_union.
    destruct (rightRow !! f) eqn:Hf.
    + rewrite bool_decide_eq_true_2 by by eexists. by destruct (leftRow !! f).
    + rewrite bool_decide_eq_false_2 by by intros [? ?]. by destruct (leftRow !! f).
  - induction leftData as [|x leftData IH]; [constructor|]. cbn [map concat].
    apply sublist_app; [apply joinedWith_inner_left|exact IH].
  - induction leftData as [|x leftData IH]; [done|]. cbn [map concat].
    rewrite length_app, length_cons.
    pose proof (proj2 (joinedWith_inner_left rightData lf rf x)). lia.
  - induction leftData as [|x leftData IH]; [done|]. cbn [map concat].
    by rewrite IH.
  - induction leftData as [|x leftData IH]; [done|]. cbn [map concat].
    by rewrite IH.
Qed.

(** X12: a [right] join holds the right rows that no left row matches, and
    only those; an [outer] join holds a subsequence of them. Neither holds
    a left row or a merged row: when every right row has a match, and in
    particular when there is no right row, both are empty. A join type
    other than the four known ones gives no row. *)
Theorem join_right_and_outer (leftData rightData : list row) (lf rf : string) :
  join leftData rightData lf rf "right" = List.filter (unmatched leftData lf rf) rightData
  /\ sublist (join leftData rightData lf rf "outer")
             (join leftData rightData lf rf "right")
  /\ (forall out, out ∈ join leftData rightData lf rf "outer" ->
        out ∈ rightData
        /\ forall leftRow, leftRow ∈ leftData ->
             JS.strictEq (getField leftRow lf) (getField out rf) = false)
  /\ ((forall rightRow, rightRow ∈ rightData ->
         exists leftRow, leftRow ∈ leftData
           /\ JS.strictEq (getField leftRow lf) (getField rightRow rf) = true) ->
      join leftData rightData lf rf "right" = []
      /\ join leftData rightData lf rf "outer" = [])
  /\ (forall joinType,
        joinType ∉ ["inner"; "left"; "right"; "outer"] ->
        join leftData rightData lf rf joinType = []).
Proof.
  assert (Hright : join leftData rightData lf rf "right"
                   = List.filter (unmatched leftData lf rf) rightData).
  { unfold join. decide_literals. cbn. by rewrite joinRight_fold. }
  assert (Houter : sublist (join leftData rightData lf rf "outer")
                           (List.filter (unmatched leftData lf rf) rightData)).
  { unfold join. decide_literals. cbn.
    by destruct (joinOuter_fold leftData lf rf rightData []) as (added & -> & Hsub). }
  assert (Hun : forall rightRow, unmatched leftData lf rf rightRow = true ->
            forall leftRow, leftRow ∈ leftData ->
              JS.strictEq (getField leftRow lf) (getField rightRow rf) = false).
  { intros rightRow Hu leftRow Hl. apply not_true_is_false. intros Heq.
    unfold unmatched in Hu. apply Nat.eqb_eq in Hu.
    assert (Hin : leftRow ∈ matchesOfRight leftData lf rf rightRow).
    { unfold matchesOfRight. by apply elem_of_list_filter. }
    destruct (matchesOfRight leftData lf rf rightRow); [by apply elem_of_nil in Hin|].
    discriminate Hu. }
  split; [exact Hright|]. split; [by rewrite Hright|]. split; [|split].
  - intros out Hout. eapply elem_of_sublist in Hout; [|exact Houter].
    apply elem_of_list_filter in Hout as [Hr Hu]. split; [done|]. by apply Hun.
  - intros Hall.
    assert (Hnone : List.filter (unmatched leftData lf rf) rightData = []).
    { clear -Hall Hun.
      induction rightData as [|x rightData IH]; [done|]. cbn.
      destruct (unmatched leftData lf rf x) eqn:Hu.
      - destruct (Hall x) as (leftRow & Hl & Heq); [left|].
        by rewrite (Hun x Hu leftRow Hl) in Heq.
      - apply IH. intros y Hy. apply Hall. by right. }
    rewrite Hright, Hnone. split; [done|].
    rewrite Hnone in Houter. by apply sublist_nil_r in Houter.
  - intros joinType Hnot. unfold join.
    rewrite !bool_decide_eq_false_2; [done| | | |];
      intros ->; apply Hnot; repeat constructor.
Qed.

(** X13: the join fields are compared with [===]. Two rows whose join
    fields both read [undefined] are joined with each other ([undefined]
    equals itself), and so are two rows that both lack the one field they
    are joined on; a left row whose join field is [NaN] is joined with no
    row at all. *)
Theorem join_compares_strictly (leftData rightData : list row) (lf rf : string) :
  (forall leftRow rightRow,
      leftRow ∈ leftData -> rightRow ∈ rightData ->
      getField leftRow lf = VUndefined -> getField rightRow rf = VUndefined ->
      rightRow ∪ leftRow ∈ join leftData rightData lf rf "inner")
  /\ (forall leftRow rightRow,
        leftRow ∈ leftData -> rightRow ∈ rightData -> lf = rf ->
        leftRow !! lf = None -> rightRow !! rf = None ->
        rightRow ∪ leftRow ∈ join leftData rightData lf rf "inner")
  /\ ((forall leftRow, leftRow ∈ leftData -> getField leftRow lf = VNum PrimFloat.nan) ->
      join leftData rightData lf rf "inner" = []
      /\ join leftData rightData lf rf "left" = leftData).
Proof.
  split; [|split].
  - intros leftRow rightRow Hl Hr Hlf Hrf.
    apply elem_of_join_inner.
    exists leftRow, rightRow. repeat split; [done..|].
    by rewrite Hlf, Hrf.
  - intros leftRow rightRow Hl Hr <- Hlf Hrf.
    apply elem_of_join_inner.
    exists leftRow, rightRow. repeat split; [done..|].
    unfold getField. rewrite Hlf, Hrf. unfold inherited.
    destruct (existsb _ _); cbn; [by rewrite bool_decide_eq_true_2|done].
  - intros Hnan. rewrite join_inner, join_left.
    assert (Hno : forall leftRow, leftRow ∈ leftData ->
              matchesOfLeft rightData lf rf leftRow = []).
    { intros leftRow Hl. unfold matchesOfLeft. rewrite (Hnan leftRow Hl).
      clear. induction rightData as [|x rightData IH]; [done|]. cbn [List.filter].
      replace (JS.strictEq (VNum nan) (getField x rf)) with false; [exact IH|].
      destruct (getField x rf); cbn; try done. by rewrite eqb_nan_l. }
    clear Hnan. induction leftData as [|x leftData IH]; [done|]. cbn [map concat].
    unfold joinedWith at 1 3. rewrite Hno by left. cbn.
    destruct IH as [-> ->]; [|done]. intros y Hy. apply Hno. by right.
Qed.

End Joining.

(* ------------------------------------------------------------------ *)
(** *** Maps with one entry per key *)

(** A list of string literals without a duplicate. *)
Ltac nodup_literals :=
  repeat (apply NoDup_cons_2;
          [ let Hin := fresh "Hin" in
            intros Hin;
            repeat (apply elem_of_cons in Hin as [Hin|Hin]; [discriminate Hin|]);
            by apply elem_of_nil in Hin | ]);
  apply NoDup_nil_2.

Section KeyedMaps.
Context {V : Type}.
Implicit Types (m : list (string * V)) (k : string) (v : V).

Lemma deleteAll_filter (ks : list string) : forall m,
  fold_left (fun c key => JS.mapDelete key c) ks m
  = List.filter (fun kv => negb (bool_decide (fst kv ∈ ks))) m.
Proof.
  induction ks as [|k ks IH]; intros m.
  - cbn. induction m as [|kv m IHm]; [done|]. cbn.
    rewrite bool_decide_eq_false_2 by apply not_elem_of_nil. cbn. by rewrite <- IHm.
  - cbn [fold_left]. rewrite IH. unfold JS.mapDelete. rewrite list_filter_filter.
    apply list_filter_ext_in. intros kv _.
    destruct (decide (fst kv = k)) as [Heq|Hne].
    + rewrite (bool_decide_eq_true_2 (fst kv = k)) by done. cbn.
      rewrite (bool_decide_eq_true_2 (fst kv ∈ k :: ks)); [done|]. rewrite Heq. left.
    + rewrite (bool_decide_eq_false_2 (fst kv = k)) by done. cbn.
      destruct (decide (fst kv ∈ ks)) as [Hin|Hnot].
      * rewrite !bool_decide_eq_true_2; [done| |done]. by right.
      * rewrite !bool_decide_eq_false_2; [done| |done].
        intros [?|?]%elem_of_cons; done.
Qed.

Lemma deleteEntries_filter {W} (toDelete : list (string * W)) m :
  fold_left (fun c kv => JS.mapDelete (fst kv) c) toDelete m
  = List.filter (fun kv => negb (bool_decide (fst kv ∈ map fst toDelete))) m.
Proof.
  rewrite <- deleteAll_filter. revert m.
  induction toDelete as [|d toDelete IH]; intros m; [done|]. cbn. apply IH.
Qed.

Lemma mapGet_filter_keys (keep : string -> bool) k m :
  JS.mapGet k (List.filter (fun kv => keep (fst kv)) m)
  = if keep k then JS.mapGet k m else None.
Proof.
  induction m as [|[k' v'] m IH]; cbn; [by destruct (keep k)|].
  destruct (decide (k' = k)) as [->|Hne].
  - rewrite bool_decide_eq_true_2 by done.
    destruct (keep k) eqn:Hk; cbn; [by rewrite bool_decide_eq_true_2|exact IH].
  - rewrite (bool_decide_eq_false_2 (k' = k)) by done.
    destruct (keep k'); cbn; [rewrite bool_decide_eq_false_2 by done|]; exact IH.
Qed.

Lemma mapGet_deleteAll (ks : list string) k m :
  JS.mapGet k (fold_left (fun c key => JS.mapDelete key c) ks m)
  = if bool_decide (k ∈ ks) then None else JS.mapGet k m.
Proof.
  rewrite deleteAll_filter.
  pose proof (mapGet_filter_keys (fun key => negb (bool_decide (key ∈ ks))) k m) as Hget.
  cbn beta in Hget. rewrite Hget. by destruct (bool_decide (k ∈ ks)).
Qed.

Lemma wellKeyed_filter (f : string * V -> bool) m : wellKeyed m -> wellKeyed (List.filter f m).
Proof.
  unfold wellKeyed. intros Hnd.
  apply (sublist_NoDup _ (map fst m)); [exact Hnd|].
  apply (fmap_sublist fst), list_filter_sublist.
Qed.

Lemma keys_mapSet k v m :
  map fst (JS.mapSet k v m) = if bool_decide (k ∈ map fst m) then map fst m else map fst m ++ [k].
Proof.
  induction m as [|[k' v'] m IH]; [done|]. cbn.
  destruct (decide (k' = k)) as [->|Hne].
  - rewrite bool_decide_eq_true_2 by done. cbn.
    by rewrite (bool_decide_eq_true_2 (k ∈ k :: map fst m)) by left.
  - rewrite bool_decide_eq_false_2 by done. cbn. rewrite IH.
    destruct (decide (k ∈ map fst m)) as [Hin|Hnot].
    + rewrite !bool_decide_eq_true_2; [done| |done]. by right.
    + rewrite !bool_decide_eq_false_2; [done| |done].
      intros [?|?]%elem_of_cons; done.
Qed.

Lemma wellKeyed_mapSet k v m : wellKeyed m -> wellKeyed (JS.mapSet k v m).
Proof.
  unfold wellKeyed. intros Hnd. rewrite keys_mapSet. case_bool_decide as Hk; [done|].
  apply NoDup_app. split; [done|]. split; [|apply NoDup_singleton].
  intros x Hx ->%list_elem_of_singleton. done.
Qed.

Lemma wellKeyed_mapDelete k m : wellKeyed m -> wellKeyed (JS.mapDelete k m).
Proof. apply wellKeyed_filter. Qed.

Lemma wellKeyed_inj m (a b : string * V) :
  wellKeyed m -> a ∈ m -> b ∈ m -> fst a = fst b -> a = b.
Proof.
  unfold wellKeyed. induction m as [|x m IH]; intros Hnd Ha Hb Hab.
  - by apply elem_of_nil in Ha.
  - cbn in Hnd. apply NoDup_cons in Hnd as [Hx Hnd].
    apply elem_of_cons in Ha as [->|Ha], Hb as [->|Hb]; [done| | |by apply IH].
    + exfalso. apply Hx. rewrite Hab. by apply list_elem_of_fmap_2.
    + exfalso. apply Hx. rewrite <- Hab. by apply list_elem_of_fmap_2.
Qed.

Lemma mapGet_Some_elem k v m : JS.mapGet k m = Some v -> (k, v) ∈ m.
Proof.
  induction m as [|[k' v'] m IH]; cbn; [done|].
  case_bool_decide as Hk; [intros [= <-]; subst; left|].
  intros Hm. right. by apply IH.
Qed.

Lemma wellKeyed_lookup k v m : wellKeyed m -> (k, v) ∈ m -> JS.mapGet k m = Some v.
Proof.
  intros Hnd Hin. destruct (JS.mapGet k m) as [v'|] eqn:Hget.
  - apply mapGet_Some_elem in Hget.
    by pose proof (wellKeyed_inj m (k, v') (k, v) Hnd Hget Hin eq_refl) as [= ->].
  - apply mapGet_None_keys in Hget. exfalso. apply Hget.
    by apply (list_elem_of_fmap_2 fst) in Hin.
Qed.

End KeyedMaps.

Lemma byTimestamp_consistent {T} : ConsistentComparator (@byTimestamp T).
Proof.
  split; unfold byTimestamp.
  - intros a b. apply Z.compare_antisym.
  - intros a b c Hab Hbc. rewrite Z.compare_le_iff in *. lia.
Qed.

(* ------------------------------------------------------------------ *)
(** *** Eviction *)

Section Eviction.
Context {host : Host} {T : Type}.
Import CacheManager.
Implicit Types (cache : list (string * CacheEntry T)).

(** X14: [enforceMaxEntries] leaves at most [maxEntries] entries, and as
    many as it can: the map it returns has the smaller of the two sizes. It
    removes entries and changes none, and it removes the oldest: no entry
    that is removed carries a later timestamp than one that stays. *)
Theorem enforceMaxEntries_evicts_oldest (maxEntries : nat) cache :
  wellKeyed cache ->
  let kept := enforceMaxEntries maxEntries cache in
  length kept = Nat.min (length cache) maxEntries
  /\ sublist kept cache
  /\ wellKeyed kept
  /\ (forall old new, old ∈ cache -> old ∉ kept -> new ∈ kept ->
        (timestamp (snd old) <= timestamp (snd new))%Z).
Proof.
  intros Hnd kept. unfold kept, enforceMaxEntries.
  destruct (Nat.leb (length cache) maxEntries) eqn:Hle.
  { apply Nat.leb_le in Hle. split; [lia|]. split; [done|]. split; [done|].
    intros old new Hold Hnot. done. }
  apply Nat.leb_gt in Hle.
  change (fun a b : string * CacheEntry T => Z.compare (timestamp (snd a)) (timestamp (snd b)))
    with (@byTimestamp T).
  set (sorted := JS.sort byTimestamp cache).
  set (n := length cache - maxEntries).
  rewrite deleteEntries_filter.
  set (keep := fun kv : string * CacheEntry T =>
                 negb (bool_decide (fst kv ∈ map fst (take n sorted)))).
  assert (Hperm : sorted ≡ₚ cache) by apply sort_perm.
  assert (Hsplit : sorted = take n sorted ++ drop n sorted) by by rewrite take_drop.
  assert (Hnds : wellKeyed sorted).
  { unfold wellKeyed. by rewrite Hperm. }
  assert (Hdrop : List.filter keep sorted = drop n sorted).
  { rewrite Hsplit at 1. rewrite List.filter_app.
    rewrite (list_filter_none keep (take n sorted)), (list_filter_all keep (drop n sorted));
      [done| |].
    - intros kv Hkv. unfold keep. rewrite bool_decide_eq_false_2; [done|].
      intros Hin. unfold wellKeyed in Hnds. rewrite Hsplit, map_app in Hnds.
      apply NoDup_app in Hnds as (_ & Hdisj & _). apply (Hdisj _ Hin).
      by apply list_elem_of_fmap_2.
    - intros kv Hkv. unfold keep. rewrite bool_decide_eq_true_2; [done|].
      by apply list_elem_of_fmap_2. }
  assert (Hkept : List.filter keep cache ≡ₚ drop n sorted).
  { rewrite <- Hdrop. apply list_filter_perm. by symmetry. }
  split; [|split; [apply list_filter_sublist|split; [by apply wellKeyed_filter|]]].
  - rewrite Hkept, length_drop.
    replace (length sorted) with (length cache) by by rewrite Hperm.
    unfold n. lia.
  - intros old new Hold Hnot Hnew.
    assert (Hin : old ∈ take n sorted).
    { destruct (keep old) eqn:Hkeep.
      { exfalso. apply Hnot. by apply elem_of_list_filter. }
      unfold keep in Hkeep. apply negb_false_iff, bool_decide_eq_true_1 in Hkeep.
      apply list_elem_of_fmap in Hkeep as (d & Hfst & Hd).
      replace old with d; [done|].
      apply (wellKeyed_inj sorted); [done| | |done].
      - rewrite Hsplit. apply elem_of_app. by left.
      - by rewrite Hperm. }
    rewrite Hkept in Hnew.
    pose proof (sort_sorted byTimestamp byTimestamp_consistent cache) as Hsorted.
    fold sorted in Hsorted. rewrite Hsplit in Hsorted.
    pose proof (sorted_app_le _ _ _ Hsorted old new Hin Hnew) as Hcmp.
    unfold cmpLe, byTimestamp in Hcmp. by apply Z.compare_le_iff.
Qed.

(** With no capacity nothing stays. *)
Lemma enforceMaxEntries_zero cache : enforceMaxEntries 0 cache = [].
Proof.
  unfold enforceMaxEntries. destruct cache as [|kv cache]; [done|].
  cbn [length Nat.leb]. rewrite Nat.sub_0_r, deleteEntries_filter.
  set (sorted := JS.sort _ _).
  assert (Hperm : sorted ≡ₚ kv :: cache) by apply sort_perm.
  rewrite firstn_all2 by by rewrite Hperm.
  apply list_filter_none. intros x Hx.
  rewrite bool_decide_eq_true_2; [done|].
  apply list_elem_of_fmap_2. by rewrite Hperm.
Qed.

(** What stays in the map was in the map. *)
Lemma enforceMaxEntries_sublist (maxEntries : nat) cache :
  sublist (enforceMaxEntries maxEntries cache) cache.
Proof.
  unfold enforceMaxEntries. destruct (Nat.leb _ _); [done|].
  rewrite deleteEntries_filter. apply list_filter_sublist.
Qed.

Lemma enforceMaxEntries_wellKeyed (maxEntries : nat) cache :
  wellKeyed cache -> wellKeyed (enforceMaxEntries maxEntries cache).
Proof.
  intros Hnd. unfold enforceMaxEntries. destruct (Nat.leb _ _); [done|].
  rewrite deleteEntries_filter. by apply wellKeyed_filter.
Qed.

End Eviction.

Lemma enforceMaxEntries_evicts_oldest_witness :
  length (CacheManager.enforceMaxEntries 2 Scenario.threeEntries) = Nat.min 3 2
  /\ map fst (CacheManager.enforceMaxEntries 2 Scenario.threeEntries) = ["a"; "c"].
Proof.
  split; [|reflexivity].
  refine (proj1 (enforceMaxEntries_evicts_oldest 2 Scenario.threeEntries _)).
  unfold wellKeyed. cbn. nodup_literals.
Defined.

(* ------------------------------------------------------------------ *)
(** *** Keys with a prefix *)

Lemma string_prefix_app (p s : string) : String.prefix p (p +:+ s) = true.
Proof.
  induction p as [|a p IH]; [by destruct s|]. simpl.
  destruct (ascii_dec a a); [exact IH|done].
Qed.

Lemma string_prefix_extend (p s t : string) :
  String.prefix p s = true -> String.prefix p (s +:+ t) = true.
Proof.
  revert s. induction p as [|a p IH]; intros s; [by destruct (s +:+ t)|].
  destruct s as [|b s]; [done|]. simpl.
  destruct (ascii_dec a b); [apply IH|done].
Qed.

Lemma compositeKey_prefix (owner item : string) :
  JS.startsWith (CacheManager.compositeKey owner item) (owner +:+ ":") = true.
Proof.
  unfold JS.startsWith, CacheManager.compositeKey.
  induction owner as [|a owner IH]; [by destruct item|]. simpl.
  destruct (ascii_dec a a); [exact IH|done].
Qed.

Lemma compositeKey_inj (owner owner' item item' : string) :
  colonFree owner -> colonFree owner' ->
  CacheManager.compositeKey owner item = CacheManager.compositeKey owner' item' ->
  owner = owner' /\ item = item'.
Proof.
  unfold CacheManager.compositeKey, colonFree.
  revert owner'.
  induction owner as [|a owner IH]; intros [|b owner'] Ho Ho' Heq; simpl in Heq.
  - injection Heq as Hrest. split; [done|exact Hrest].
  - injection Heq as Hhead Hrest. exfalso. apply Ho'. left. by symmetry.
  - injection Heq as Hhead Hrest. exfalso. apply Ho. by left.
  - injection Heq as Hhead Hrest.
    destruct (IH owner') as [Howner Hitem]; [| |done|].
    + intros Hin. apply Ho. by right.
    + intros Hin. apply Ho'. by right.
    + by rewrite Hhead, Howner, Hitem.
Qed.

Section KeysWhere.
Context {host : Host} {T : Type}.
Import CacheManager.
Implicit Types (cache : list (string * CacheEntry T)).

Lemma elem_of_keysWhere (test : string -> CacheEntry T -> bool) cache key :
  key ∈ keysWhere test cache <-> exists entry, (key, entry) ∈ cache /\ test key entry = true.
Proof.
  unfold keysWhere. rewrite list_elem_of_fmap. split.
  - intros ([k entry] & -> & Hin%elem_of_list_filter). by exists entry.
  - intros (entry & Hin & Htest). exists (key, entry). split; [done|].
    by apply elem_of_list_filter.
Qed.

Lemma mapGet_deleteKeys (keysToDelete : list string) cache key :
  JS.mapGet key (deleteKeys keysToDelete cache)
  = if bool_decide (key ∈ keysToDelete) then None else JS.mapGet key cache.
Proof. apply mapGet_deleteAll. Qed.

(** Deleting the keys that start with a prefix. *)
Lemma mapGet_deletePrefix (prefix : string) cache key :
  JS.mapGet key (deleteKeys (keysWhere (fun k _ => JS.startsWith k prefix) cache) cache)
  = if JS.startsWith key prefix then None else JS.mapGet key cache.
Proof.
  rewrite mapGet_deleteKeys. case_bool_decide as Hin.
  - apply elem_of_keysWhere in Hin as (entry & _ & ->). done.
  - destruct (JS.startsWith key prefix) eqn:Hp; [|done].
    destruct (JS.mapGet key cache) as [entry|] eqn:Hget; [|done].
    exfalso. apply Hin, elem_of_keysWhere. exists entry.
    split; [by apply mapGet_Some_elem|done].
Qed.

(** Cleaning keeps the entries that have not expired. *)
Lemma cleanExpired_filter (t : Z) cache :
  wellKeyed cache ->
  cleanExpired t cache = List.filter (fun kv => negb (expired t (snd kv))) cache.
Proof.
  intros Hnd. unfold cleanExpired, deleteKeys. rewrite deleteAll_filter.
  apply list_filter_ext_in. intros [k entry] Hin. cbn. f_equal.
  destruct (expired t entry) eqn:Hexp.
  - apply bool_decide_eq_true_2, elem_of_keysWhere. by exists entry.
  - apply bool_decide_eq_false_2. intros (entry' & Hin' & Hexp')%elem_of_keysWhere.
    pose proof (wellKeyed_inj cache (k, entry') (k, entry) Hnd Hin' Hin eq_refl) as [= ->].
    congruence.
Qed.

Lemma mapGet_cleanExpired (t : Z) cache key :
  wellKeyed cache ->
  JS.mapGet key (cleanExpired t cache)
  = match JS.mapGet key cache with
    | Some entry => if expired t entry then None else Some entry
    | None => None
    end.
Proof.
  intros Hnd. unfold cleanExpired. rewrite mapGet_deleteKeys.
  destruct (JS.mapGet key cache) as [entry|] eqn:Hget.
  - pose proof (mapGet_Some_elem _ _ _ Hget) as Hin.
    destruct (expired t entry) eqn:Hexp.
    + rewrite bool_decide_eq_true_2; [done|]. apply elem_of_keysWhere. by exists entry.
    + rewrite bool_decide_eq_false_2; [done|].
      intros (entry' & Hin' & Hexp')%elem_of_keysWhere.
      pose proof (wellKeyed_inj cache (key, entry') (key, entry) Hnd Hin' Hin eq_refl)
        as [= ->].
      congruence.
  - by destruct (bool_decide _).
Qed.

End KeysWhere.

(* ------------------------------------------------------------------ *)
(** *** The configuration, the dashboard elements and the node metadata *)

Section OtherCaches.
Context {host : Host}.
Import CacheManager.

Lemma invalidateAll_unfold (ids : list string) : forall w,
  fold_left (fun w' id => invalidatePipelineExecution id w') ids w
  = setCache w (deleteKeys ids (pipelineExecutionCache w)).
Proof.
  induction ids as [|id ids IH]; intros w; [by destruct w|].
  cbn [fold_left]. rewrite IH. reflexivity.
Qed.

Lemma usesDatabase_spec (db : string) (pipeline : Pipeline) :
  usesDatabase db pipeline = true <->
  exists node, node ∈ nodes pipeline /\ node_type node = TDataSource
               /\ databaseId (node_config node) = Some db.
Proof.
  unfold usesDatabase. rewrite existsb_exists. split.
  - intros (node & Hin%list_elem_of_In & Htest). exists node.
    apply andb_true_iff in Htest as [Ht Hd].
    by apply bool_decide_eq_true_1 in Ht, Hd.
  - intros (node & Hin & Ht & Hd). exists node. split; [by apply list_elem_of_In|].
    by rewrite !bool_decide_eq_true_2.
Qed.

(** X15: [updateConfig] overrides the fields that are given and keeps the
    others. It touches no entry: what a lookup returns is the same before
    and after, so a new TTL or row cap does not reach the entries already
    stored. The entries written afterwards carry the new TTL and are cut
    to the new caps. *)
Theorem updateConfig_applies_to_later_writes (given : PartialCacheConfig)
    (w : World) (id hash : string) :
  getConfig (updateConfig given w) = mergeConfig (config w) given
  /\ pipelineExecutionTTL (getConfig (updateConfig given w))
     = default (pipelineExecutionTTL (config w)) (new_pipelineExecutionTTL given)
  /\ pipelineExecutionCache (updateConfig given w) = pipelineExecutionCache w
  /\ fst (getPipelineExecution id hash (updateConfig given w))
     = fst (getPipelineExecution id hash w)
  /\ (forall results leaves time entry,
        JS.mapGet id (pipelineExecutionCache
                        (cachePipelineExecution id hash results leaves time
                           (updateConfig given w))) = Some entry ->
        ttl entry = default (pipelineExecutionTTL (config w)) (new_pipelineExecutionTTL given)
        /\ nodeResults (entry_data entry)
           = take (default (maxNodeResultRows (config w)) (new_maxNodeResultRows given))
               <$> results
        /\ leafResults (entry_data entry)
           = map (limitLeaf (default (maxExecutionResultRows (config w))
                                     (new_maxExecutionResultRows given))) leaves).
Proof.
  split; [reflexivity|]. split; [reflexivity|]. split; [reflexivity|]. split.
  - rewrite !getPipelineExecution_unfold. cbn.
    destruct (JS.mapGet id (pipelineExecutionCache w)) as [entry|]; [|done].
    by destruct (_ || _).
  - intros results leaves time entry Hget.
    apply cachePipelineExecution_lookup in Hget as ->. done.
Qed.

(** X16: [invalidateDashboard] removes the entries whose key starts with the
    dashboard id and a colon, and no other entry. Every element of the
    dashboard is gone afterwards, and so is every element of a dashboard
    whose own id starts with that id and a colon. The other two maps stay
    as they are. *)
Theorem invalidateDashboard_by_prefix (dashboardId : string) (c : Caches) :
  let c' := invalidateDashboard dashboardId c in
  (forall key,
      JS.mapGet key (dashboardElementCache c')
      = if JS.startsWith key (dashboardId +:+ ":") then None
        else JS.mapGet key (dashboardElementCache c))
  /\ (forall elementId, getDashboardElement dashboardId elementId c' = (None, c'))
  /\ (forall other elementId,
        JS.startsWith other (dashboardId +:+ ":") = true ->
        getDashboardElement other elementId c' = (None, c'))
  /\ world c' = world c
  /\ nodeMetadataCache c' = nodeMetadataCache c.
Proof.
  intros c'.
  assert (Hget : forall key,
            JS.mapGet key (dashboardElementCache c')
            = if JS.startsWith key (dashboardId +:+ ":") then None
              else JS.mapGet key (dashboardElementCache c)).
  { intros key. apply mapGet_deletePrefix. }
  split; [exact Hget|]. split; [|split; [|done]].
  - intros elementId. unfold getDashboardElement.
    by rewrite Hget, compositeKey_prefix.
  - intros other elementId Hother. unfold getDashboardElement. rewrite Hget.
    unfold JS.startsWith, compositeKey in *. by rewrite string_prefix_extend.
Qed.

(** X17: [invalidateNodeMetadata] with a node id removes the entry of that
    node and no other. Without a node id, and also with the empty string as
    node id, it removes every entry whose key starts with the pipeline id
    and a colon: no node of the pipeline has metadata afterwards. *)
Theorem invalidateNodeMetadata_scope (pipelineId : string) (c : Caches) :
  (forall nodeId key,
      nodeId <> "" ->
      JS.mapGet key (nodeMetadataCache (invalidateNodeMetadata pipelineId (Some nodeId) c))
      = if bool_decide (key = compositeKey pipelineId nodeId) then None
        else JS.mapGet key (nodeMetadataCache c))
  /\ invalidateNodeMetadata pipelineId (Some "") c = invalidateNodeMetadata pipelineId None c
  /\ (forall key,
        JS.mapGet key (nodeMetadataCache (invalidateNodeMetadata pipelineId None c))
        = if JS.startsWith key (pipelineId +:+ ":") then None
          else JS.mapGet key (nodeMetadataCache c))
  /\ (forall nodeId,
        fst (getNodeMetadata pipelineId nodeId (invalidateNodeMetadata pipelineId None c))
        = None)
  /\ (forall nodeId,
        dashboardElementCache (invalidateNodeMetadata pipelineId nodeId c)
        = dashboardElementCache c
        /\ world (invalidateNodeMetadata pipelineId nodeId c) = world c).
Proof.
  assert (Hall : forall key,
            JS.mapGet key (nodeMetadataCache (invalidateNodeMetadata pipelineId None c))
            = if JS.startsWith key (pipelineId +:+ ":") then None
              else JS.mapGet key (nodeMetadataCache c)).
  { intros key. apply mapGet_deletePrefix. }
  split; [|split; [reflexivity|split; [exact Hall|split; [|done]]]].
  - intros nodeId key Hnode. unfold invalidateNodeMetadata. cbn.
    rewrite bool_decide_eq_false_2 by done.
    case_bool_decide as Hkey.
    + subst key. apply mapGet_mapDelete_eq.
    + apply mapGet_mapDelete_ne. congruence.
  - intros nodeId. unfold getNodeMetadata.
    by rewrite Hall, compositeKey_prefix.
Qed.

End OtherCaches.

Section MoreCaches.
Context {host : Host}.
Import CacheManager.

(** X18: a dashboard element that is cached is found again under its ids
    until its TTL has elapsed, cut to the row cap for dashboard elements,
    and is a miss afterwards. This holds when the map is within its capacity
    of at least one entry and no entry in it is stamped after the write, so
    that the eviction keeps the new entry. *)
Theorem dashboardElement_round_trip (dashboardId elementId : string) (rows : list row)
    (c : Caches) :
  1 <= maxCacheEntries (config (world c)) ->
  length (dashboardElementCache c) <= maxCacheEntries (config (world c)) ->
  Forall (fun kv => (timestamp (snd kv) <= dateNow (clockReads (world c)))%Z)
         (dashboardElementCache c) ->
  let c' := cacheDashboardElement dashboardId elementId rows c in
  let written := dateNow (clockReads (world c)) in
  let read := dateNow (S (clockReads (world c))) in
  let stored := take (maxDashboardElementRows (config (world c))) rows in
  ((read - written <= dashboardCacheTTL (config (world c)))%Z ->
     fst (getDashboardElement dashboardId elementId c') = Some stored)
  /\ ((dashboardCacheTTL (config (world c)) < read - written)%Z ->
        fst (getDashboardElement dashboardId elementId c') = None
        /\ JS.mapGet (compositeKey dashboardId elementId)
             (dashboardElementCache (snd (getDashboardElement dashboardId elementId c')))
           = None)
  /\ length stored = Nat.min (length rows) (maxDashboardElementRows (config (world c)))
  /\ nodeMetadataCache c' = nodeMetadataCache c.
Proof.
  intros Hmax Hlen Hold c' written read stored.
  set (entry := {| entry_data := stored; timestamp := written;
                   ttl := dashboardCacheTTL (config (world c)) |}).
  assert (Hget : JS.mapGet (compositeKey dashboardId elementId) (dashboardElementCache c')
                 = Some entry).
  { unfold c', cacheDashboardElement. cbn.
    by apply (enforceMaxEntries_keeps_written _ _ _ entry). }
  split; [|split; [|split; [|done]]].
  - intros Hfresh. unfold getDashboardElement. rewrite Hget.
    unfold expired. cbn. fold written read.
    by rewrite (proj2 (Z.ltb_ge _ _)).
  - intros Hstale. unfold getDashboardElement. rewrite Hget.
    unfold expired. cbn. fold written read.
    rewrite (proj2 (Z.ltb_lt _ _)) by done. split; [done|]. cbn.
    apply mapGet_mapDelete_eq.
  - unfold stored. rewrite length_take. lia.
Qed.

(** X19: node metadata that is cached is found again under the same pipeline
    and node ids, with the columns and the row count that were given. When
    the two pipeline ids hold no colon, caching the metadata of one node
    leaves the metadata of every other node as it was, as long as the map
    has room. *)
Theorem nodeMetadata_round_trip (pipelineId nodeId : string) (cols : list string)
    (rows : option nat) (c : Caches) :
  length (JS.mapSet (compositeKey pipelineId nodeId)
            {| entry_data := {| meta_nodeId := nodeId; meta_pipelineId := pipelineId;
                                columns := cols; rowCount := rows;
                                lastUpdated := dateNow (clockReads (world c)) |};
               timestamp := dateNow (S (clockReads (world c)));
               ttl := nodeMetadataTTL (config (world c)) |}
            (nodeMetadataCache c))
  <= maxCacheEntries (config (world c)) ->
  let c' := cacheNodeMetadata pipelineId nodeId cols rows c in
  let written := dateNow (S (clockReads (world c))) in
  let read := dateNow (S (S (clockReads (world c)))) in
  ((read - written <= nodeMetadataTTL (config (world c)))%Z ->
     fst (getNodeMetadata pipelineId nodeId c')
     = Some {| meta_nodeId := nodeId; meta_pipelineId := pipelineId;
               columns := cols; rowCount := rows;
               lastUpdated := dateNow (clockReads (world c)) |})
  /\ (forall otherPipeline otherNode,
        colonFree pipelineId -> colonFree otherPipeline ->
        (otherPipeline, otherNode) <> (pipelineId, nodeId) ->
        JS.mapGet (compositeKey otherPipeline otherNode) (nodeMetadataCache c')
        = JS.mapGet (compositeKey otherPipeline otherNode) (nodeMetadataCache c))
  /\ dashboardElementCache c' = dashboardElementCache c.
Proof.
  intros Hroom c' written read.
  assert (Hcache : nodeMetadataCache c'
            = JS.mapSet (compositeKey pipelineId nodeId)
                {| entry_data := {| meta_nodeId := nodeId; meta_pipelineId := pipelineId;
                                    columns := cols; rowCount := rows;
                                    lastUpdated := dateNow (clockReads (world c)) |};
                   timestamp := written;
                   ttl := nodeMetadataTTL (config (world c)) |}
                (nodeMetadataCache c)).
  { unfold c', cacheNodeMetadata. cbn. by apply enforceMaxEntries_room. }
  split; [|split; [|done]].
  - intros Hfresh. unfold getNodeMetadata. rewrite Hcache, mapGet_mapSet_eq.
    unfold expired. cbn. fold written read.
    by rewrite (proj2 (Z.ltb_ge _ _)).
  - intros otherPipeline otherNode Hp Ho Hne. rewrite Hcache.
    apply mapGet_mapSet_ne. intros Hkey.
    apply compositeKey_inj in Hkey as [-> ->]; done.
Qed.

(** X20: [cleanExpiredCache] reads the clock once and removes from each of
    the three maps the entries that have expired at that reading; the
    others stay, in their order. A reader does not notice: when the clock
    does not run backwards, a lookup after the clean-up returns what it
    would have returned without it. *)
Theorem cleanExpiredCache_keeps_live_entries (c : Caches) :
  wellKeyed (pipelineExecutionCache (world c)) ->
  wellKeyed (nodeMetadataCache c) ->
  wellKeyed (dashboardElementCache c) ->
  let t := dateNow (clockReads (world c)) in
  let c' := cleanExpiredCache c in
  pipelineExecutionCache (world c')
  = List.filter (fun kv => negb (expired t (snd kv))) (pipelineExecutionCache (world c))
  /\ nodeMetadataCache c'
     = List.filter (fun kv => negb (expired t (snd kv))) (nodeMetadataCache c)
  /\ dashboardElementCache c'
     = List.filter (fun kv => negb (expired t (snd kv))) (dashboardElementCache c)
  /\ clockReads (world c') = S (clockReads (world c))
  /\ config (world c') = config (world c)
  /\ ((t <= dateNow (S (clockReads (world c))))%Z ->
      forall id hash,
        fst (getPipelineExecution id hash (world c'))
        = fst (getPipelineExecution id hash (snd (now (world c))))).
Proof.
  intros Hp Hm Hd t c'.
  assert (Hcache : pipelineExecutionCache (world c')
                   = cleanExpired t (pipelineExecutionCache (world c))) by reflexivity.
  split; [by rewrite Hcache, cleanExpired_filter|].
  split; [by rewrite <- cleanExpired_filter|].
  split; [by rewrite <- cleanExpired_filter|].
  split; [done|]. split; [done|].
  intros Hmono id hash. rewrite !getPipelineExecution_unfold, Hcache.
  rewrite mapGet_cleanExpired by done.
  change (pipelineExecutionCache (snd (now (world c))))
    with (pipelineExecutionCache (world c)).
  change (clockReads (snd (now (world c)))) with (S (clockReads (world c))).
  change (clockReads (world c')) with (S (clockReads (world c))).
  destruct (JS.mapGet id (pipelineExecutionCache (world c))) as [entry|]; [|done].
  destruct (expired t entry) eqn:Hexp.
  - unfold expired in Hexp. apply Z.ltb_lt in Hexp.
    rewrite (proj2 (Z.ltb_lt (ttl entry) _)) by lia. done.
  - by destruct (_ || _).
Qed.

End MoreCaches.

Lemma dashboardElement_round_trip_witness :
  fst (@CacheManager.getDashboardElement Scenario.host "sales" "chart"
         (@CacheManager.cacheDashboardElement Scenario.host "sales" "chart"
            Scenario.sourceRows Scenario.startCaches))
  = Some Scenario.sourceRows.
Proof.
  refine (proj1 (@dashboardElement_round_trip Scenario.host "sales" "chart"
                   Scenario.sourceRows Scenario.startCaches _ _ _) _).
  - cbn. lia.
  - cbn. lia.
  - constructor.
  - cbn. lia.
Defined.

Lemma nodeMetadata_round_trip_witness :
  fst (@CacheManager.getNodeMetadata Scenario.host "pipeline-1" "filter"
         (@CacheManager.cacheNodeMetadata Scenario.host "pipeline-1" "filter" ["a"] (Some 3)
            Scenario.startCaches))
  = Some {| CacheManager.meta_nodeId := "filter";
            CacheManager.meta_pipelineId := "pipeline-1";
            CacheManager.columns := ["a"];
            CacheManager.rowCount := Some 3;
            CacheManager.lastUpdated := 0 |}.
Proof.
  refine (proj1 (@nodeMetadata_round_trip Scenario.host "pipeline-1" "filter" ["a"] (Some 3)
                   Scenario.startCaches _) _).
  - cbn. lia.
  - cbn. lia.
Defined.

Lemma cleanExpiredCache_keeps_live_entries_witness :
  CacheManager.pipelineExecutionCache
    (CacheManager.world (@CacheManager.cleanExpiredCache (Scenario.hostAt 301001)
                           Scenario.stampedCaches))
  = []
  /\ CacheManager.pipelineExecutionCache
       (CacheManager.world (@CacheManager.cleanExpiredCache (Scenario.hostAt 301000)
                              Scenario.stampedCaches))
     = [("pipeline-1", Scenario.stampedEntry)].
Proof.
  split.
  - refine (proj1 (@cleanExpiredCache_keeps_live_entries (Scenario.hostAt 301001)
                     Scenario.stampedCaches _ _ _));
      unfold wellKeyed; cbn; nodup_literals.
  - refine (proj1 (@cleanExpiredCache_keeps_live_entries (Scenario.hostAt 301000)
                     Scenario.stampedCaches _ _ _));
      unfold wellKeyed; cbn; nodup_literals.
Defined.

(* ------------------------------------------------------------------ *)
(** *** Runs and the cache *)

Section EngineAndCache.
Context {rt : JSRuntime} {host : Host}.

(** The cache after a run: the map of a run that was not answered from the
    cache starts from [base], the map before the run, possibly without the
    stale entry of the pipeline. *)
Lemma execute_world (pipeline : Pipeline) (useCache : bool) w r w' :
  execute pipeline useCache w = (JS.Normal r, w') ->
  CacheManager.config w' = CacheManager.config w
  /\ (cached r = true ->
        useCache = true
        /\ CacheManager.pipelineExecutionCache w' = CacheManager.pipelineExecutionCache w)
  /\ (cached r = false ->
        exists base,
          (base = CacheManager.pipelineExecutionCache w
           \/ useCache = true
              /\ base = JS.mapDelete (pipeline_id pipeline)
                          (CacheManager.pipelineExecutionCache w))
          /\ (status r = success /\ useCache = true /\
              (exists entry,
                 CacheManager.pipelineExecutionCache w'
                 = CacheManager.enforceMaxEntries
                     (CacheManager.maxCacheEntries (CacheManager.config w))
                     (JS.mapSet (pipeline_id pipeline) entry base))
              \/ (status r = error \/ useCache = false)
                 /\ CacheManager.pipelineExecutionCache w' = base)).
Proof.
  unfold execute, executeWith. cbn [CacheManager.now].
  destruct useCache.
  - rewrite getPipelineExecution_unfold.
    cbn [CacheManager.pipelineExecutionCache CacheManager.clockReads CacheManager.config].
    destruct (JS.mapGet (pipeline_id pipeline) (CacheManager.pipelineExecutionCache w))
      as [entry|] eqn:Hentry.
    + cbv zeta. destruct (_ || _).
      * destruct (computeResults pipeline) as [[results leaves]|e]; intros [= <- <-].
        -- split; [done|]. split; [done|]. intros _. eexists. split; [by right|].
           left. split; [done|]. split; [done|]. eexists. reflexivity.
        -- split; [done|]. split; [done|]. intros _. eexists. split; [by right|].
           right. split; [by left|]. reflexivity.
      * intros [= <- <-]. split; [done|]. split; [done|]. done.
    + destruct (computeResults pipeline) as [[results leaves]|e]; intros [= <- <-].
      * split; [done|]. split; [done|]. intros _. eexists. split; [by left|].
        left. split; [done|]. split; [done|]. eexists. reflexivity.
      * split; [done|]. split; [done|]. intros _. eexists. split; [by left|].
        right. split; [by left|]. reflexivity.
  - destruct (computeResults pipeline) as [[results leaves]|e]; intros [= <- <-].
    + split; [done|]. split; [done|]. intros _. eexists. split; [by left|].
      right. split; [by right|]. reflexivity.
    + split; [done|]. split; [done|]. intros _. eexists. split; [by left|].
      right. split; [by right|]. reflexivity.
Qed.

(** X21: a run with [useCache = false] neither reads nor writes the cache,
    and a run that fails stores nothing: every entry found after it was
    there before, unchanged, and the entries of the other pipelines are all
    still there. A run that is answered from the cache leaves the map as it
    is. No run changes the configuration. *)
Theorem execute_leaves_cache_alone (pipeline : Pipeline) (useCache : bool)
    (w w' : CacheManager.World) (r : PipelineExecutionResult) :
  execute pipeline useCache w = (JS.Normal r, w') ->
  (useCache = false ->
     cached r = false
     /\ CacheManager.pipelineExecutionCache w' = CacheManager.pipelineExecutionCache w)
  /\ (status r = error ->
        (forall id entry,
            JS.mapGet id (CacheManager.pipelineExecutionCache w') = Some entry ->
            JS.mapGet id (CacheManager.pipelineExecutionCache w) = Some entry)
        /\ (forall id, id <> pipeline_id pipeline ->
              JS.mapGet id (CacheManager.pipelineExecutionCache w')
              = JS.mapGet id (CacheManager.pipelineExecutionCache w)))
  /\ (cached r = true ->
        CacheManager.pipelineExecutionCache w' = CacheManager.pipelineExecutionCache w)
  /\ CacheManager.config w' = CacheManager.config w.
Proof.
  intros Hrun. destruct (execute_world _ _ _ _ _ Hrun) as (Hcfg & Hhit & Hmiss).
  split; [|split; [|split; [by intros [_ ?]%Hhit|done]]].
  - intros ->. destruct (cached r) eqn:Hc; [by destruct (Hhit eq_refl)|].
    split; [done|].
    destruct (Hmiss eq_refl) as (base & [->|[? _]] & [(_ & ? & _)|[_ ->]]); done.
  - intros Herr. destruct (cached r) eqn:Hc.
    { destruct (execute_hit_inv pipeline w r w') as (? & _ & _ & _ & Hs & _);
        [by destruct (Hhit eq_refl) as [-> _]|done|congruence]. }
    destruct (Hmiss eq_refl) as (base & Hbase & [(Hs & _)|[_ ->]]); [congruence|].
    destruct Hbase as [->|[_ ->]]; [done|]. split.
    + intros id entry. apply mapGet_mapDelete_Some.
    + intros id Hid. by apply mapGet_mapDelete_ne.
Qed.

(** X22: with [maxCacheEntries = 0] the entry that a run writes is evicted
    at once. Starting from an empty map, no run is answered from the cache
    and the map stays empty. *)
Theorem zero_capacity_caches_nothing (pipeline : Pipeline) (useCache : bool)
    (w w' : CacheManager.World) (r : PipelineExecutionResult) :
  CacheManager.maxCacheEntries (CacheManager.config w) = 0 ->
  execute pipeline useCache w = (JS.Normal r, w') ->
  (cached r = false -> status r = success -> useCache = true ->
     CacheManager.pipelineExecutionCache w' = [])
  /\ (CacheManager.pipelineExecutionCache w = [] ->
        cached r = false
        /\ CacheManager.pipelineExecutionCache w' = []
        /\ CacheManager.maxCacheEntries (CacheManager.config w') = 0).
Proof.
  intros Hzero Hrun. destruct (execute_world _ _ _ _ _ Hrun) as (Hcfg & Hhit & Hmiss).
  assert (Hwrite : cached r = false -> status r = success -> useCache = true ->
                   CacheManager.pipelineExecutionCache w' = []).
  { intros Hc Hs Hu.
    destruct (Hmiss Hc) as (base & _ & [(_ & _ & entry & ->)|[[?|?] _]]); [|congruence..].
    rewrite Hzero. apply enforceMaxEntries_zero. }
  split; [exact Hwrite|]. intros Hempty.
  assert (Hc : cached r = false).
  { destruct (cached r) eqn:Hc; [|done]. destruct (Hhit eq_refl) as [-> _].
    destruct (execute_hit_inv pipeline w r w' Hrun Hc) as (entry & Hget & _).
    by rewrite Hempty in Hget. }
  split; [done|]. split; [|by rewrite Hcfg].
  destruct (Hmiss Hc) as (base & Hbase & [(Hs & Hu & _)|[_ ->]]); [by apply Hwrite|].
  destruct Hbase as [->|[_ ->]]; by rewrite Hempty.
Qed.

(** X23: [invalidatePipelinesByDatabase] removes the entry of every listed
    pipeline that has a data source node on the database, and no other
    entry. The next run of such a pipeline is not answered from the
    cache. *)
Theorem invalidatePipelinesByDatabase_scope (db : string) (allPipelines : list Pipeline)
    (w : CacheManager.World) :
  let w' := CacheManager.invalidatePipelinesByDatabase db allPipelines w in
  let affected pipeline :=
    exists node, node ∈ nodes pipeline /\ node_type node = TDataSource
                 /\ databaseId (node_config node) = Some db in
  (forall pipeline, pipeline ∈ allPipelines -> affected pipeline ->
      JS.mapGet (pipeline_id pipeline) (CacheManager.pipelineExecutionCache w') = None)
  /\ (forall id,
        (forall pipeline, pipeline ∈ allPipelines -> affected pipeline ->
                          pipeline_id pipeline <> id) ->
        JS.mapGet id (CacheManager.pipelineExecutionCache w')
        = JS.mapGet id (CacheManager.pipelineExecutionCache w))
  /\ (forall pipeline r w'',
        pipeline ∈ allPipelines -> affected pipeline ->
        execute pipeline true w' = (JS.Normal r, w'') -> cached r = false)
  /\ CacheManager.config w' = CacheManager.config w
  /\ CacheManager.clockReads w' = CacheManager.clockReads w.
Proof.
  intros w' affected.
  assert (Hcache : CacheManager.pipelineExecutionCache w'
            = CacheManager.deleteKeys
                (map pipeline_id (List.filter (CacheManager.usesDatabase db) allPipelines))
                (CacheManager.pipelineExecutionCache w)).
  { unfold w', CacheManager.invalidatePipelinesByDatabase.
    by rewrite invalidateAll_unfold. }
  assert (Hgone : forall pipeline, pipeline ∈ allPipelines -> affected pipeline ->
            JS.mapGet (pipeline_id pipeline) (CacheManager.pipelineExecutionCache w') = None).
  { intros pipeline Hin Haff. rewrite Hcache, mapGet_deleteKeys.
    rewrite bool_decide_eq_true_2; [done|].
    apply list_elem_of_fmap_2, elem_of_list_filter. split; [done|].
    by apply usesDatabase_spec. }
  split; [exact Hgone|]. split; [|split; [|split]].
  - intros id Hother. rewrite Hcache, mapGet_deleteKeys.
    rewrite bool_decide_eq_false_2; [done|].
    intros (pipeline & -> & [Hin Huses]%elem_of_list_filter)%list_elem_of_fmap.
    apply (Hother pipeline); [done| |done]. by apply usesDatabase_spec.
  - intros pipeline r w'' Hin Haff Hrun. destruct (cached r) eqn:Hc; [|done].
    destruct (execute_hit_inv pipeline w' r w'' Hrun Hc) as (entry & Hget & _).
    by rewrite (Hgone pipeline Hin Haff) in Hget.
  - unfold w', CacheManager.invalidatePipelinesByDatabase.
    by rewrite invalidateAll_unfold.
  - unfold w', CacheManager.invalidatePipelinesByDatabase.
    by rewrite invalidateAll_unfold.
Qed.

End EngineAndCache.

Lemma execute_leaves_cache_alone_witness :
  exists r w',
    @execute Scenario.runtime Scenario.host Scenario.linear false Scenario.stampedWorld
      = (JS.Normal r, w')
    /\ cached r = false
    /\ CacheManager.pipelineExecutionCache w' = [("pipeline-1", Scenario.stampedEntry)].
Proof.
  eexists _, _. split; [reflexivity|].
  exact (proj1 (@execute_leaves_cache_alone Scenario.runtime Scenario.host Scenario.linear
                  false Scenario.stampedWorld _ _ eq_refl) eq_refl).
Defined.

Lemma zero_capacity_caches_nothing_witness :
  exists r w',
    @execute Scenario.runtime Scenario.host Scenario.linear true Scenario.noCapacity
      = (JS.Normal r, w')
    /\ status r = success
    /\ cached r = false
    /\ CacheManager.pipelineExecutionCache w' = [].
Proof.
  eexists _, _. split; [reflexivity|]. split; [reflexivity|].
  destruct (proj2 (@zero_capacity_caches_nothing Scenario.runtime Scenario.host
                     Scenario.linear true Scenario.noCapacity _ _ eq_refl eq_refl) eq_refl)
    as (Hc & Hempty & _).
  by split.
Defined.

(* ------------------------------------------------------------------ *)
(** *** Failures and inputs *)

Section EngineExtras.
Context {rt : JSRuntime} {host : Host}.

(** X24: a data source node and a custom node wrap what fails in them.
    Whatever the row store or the function built from the custom code
    throws, an [Error] or any other value, the handler throws an [Error]:
    its message starts with the text of the handler and ends with the
    message of the cause, or with the fallback text when the cause is not
    an [Error]. A custom node fails only when its code is not blank and the
    function throws or returns something that is not an array; a data
    source node only when it names no database or the row store fails. *)
Theorem handler_failures_are_wrapped (node : PipelineNode) (input : inputData)
    (e : JS.thrown) :
  (executeDataSource node = JS.Throw e ->
   exists cause,
     e = JS.ErrorObj ("データソース「" +:+ node_label node +:+ cause)
     /\ (JS.truthy (databaseId (node_config node)) = None
         /\ cause = "」に参照データが設定されていません。ノードをクリックして設定パネルからデータベースを選択してください。"
         \/ exists dbId e',
              JS.truthy (databaseId (node_config node)) = Some dbId
              /\ getDatabaseData dbId 1 (10 * 1000) = JS.Throw e'
              /\ cause = "」のデータ取得に失敗しました: " +:+
                         match e' with
                         | JS.ErrorObj message => message
                         | JS.NotAnError => "不明なエラー"
                         end))
  /\ (executeCustom node input = JS.Throw e ->
      exists code cause,
        e = JS.ErrorObj ("Custom code execution failed: " +:+ cause)
        /\ JS.truthy (customCode (node_config node)) = Some code
        /\ trim code <> ""
        /\ (userFunction code (positionalArguments input) = JS.Normal None
            /\ cause = "Custom function must return an array"
            \/ exists e',
                 userFunction code (positionalArguments input) = JS.Throw e'
                 /\ cause = match e' with
                            | JS.ErrorObj message => message
                            | JS.NotAnError => "Unknown error"
                            end)).
Proof.
  split.
  - unfold executeDataSource. destruct (JS.truthy _) as [dbId|] eqn:Hdb.
    + destruct (getDatabaseData _ _ _) as [rows|e'] eqn:Hfetch; [discriminate|].
      intros [= <-]. eexists. split; [reflexivity|]. right. exists dbId, e'.
      split; [done|]. split; [done|]. by destruct e'.
    + intros [= <-]. eexists. split; [reflexivity|]. by left.
  - unfold executeCustom. destruct (JS.truthy _) as [code|] eqn:Hcode.
    + case_bool_decide as Hblank.
      { destruct input as [|[|]]; discriminate. }
      destruct (userFunction _ _) as [[result|]|e'] eqn:Hrun; [discriminate| |];
        intros [= <-]; exists code; eexists; (split; [reflexivity|]);
        (split; [done|]); (split; [done|]).
      * by left.
      * right. exists e'. split; [done|]. by destruct e'.
    + destruct input as [|[|]]; discriminate.
Qed.

(** X25: a node that is not a custom node has one input. With several
    incoming edges it receives the result of the source of the edge that is
    declared first, and the other edges are not read. A join, a
    visualization and a dashboard node, and a node of an unknown type,
    return that input as it is: a join node joins nothing. *)
Theorem single_input_nodes_read_first_edge (node : PipelineNode) (pipeline : Pipeline)
    (results : ResultsObject) (first : PipelineEdge) (rest : list PipelineEdge) :
  node_type node <> TCustom ->
  incoming (edges pipeline) (node_id node) = first :: rest ->
  getNodeInputData node pipeline results = Single (resultOf results (edge_source first))
  /\ (node_type node ∈ [TJoin; TVisualization; TDashboard; TOther] ->
      executeNode node (getNodeInputData node pipeline results)
      = JS.Normal (resultOf results (edge_source first))).
Proof.
  intros Htype Hin.
  assert (Hinput : getNodeInputData node pipeline results
                   = Single (resultOf results (edge_source first))).
  { unfold getNodeInputData. unfold incoming in Hin. rewrite Hin.
    destruct rest; [done|]. by rewrite bool_decide_eq_false_2. }
  split; [exact Hinput|]. rewrite Hinput. unfold executeNode, executeJoin.
  intros Hpass. repeat (apply elem_of_cons in Hpass as [->|Hpass]);
    [| | | |by apply elem_of_nil in Hpass]; try done.
  by destruct (joinCondition _).
Qed.

End EngineExtras.

Lemma single_input_nodes_read_first_edge_witness :
  executeNode (rt := Scenario.runtime) (host := Scenario.host) Scenario.joinNode
    (getNodeInputData (rt := Scenario.runtime) Scenario.joinNode
       (Scenario.merging Scenario.taggedEdges) Scenario.mergeResults)
  = JS.Normal (resultOf Scenario.mergeResults "left").
Proof.
  refine (proj2 (single_input_nodes_read_first_edge (rt := Scenario.runtime)
                   (host := Scenario.host) Scenario.joinNode
                   (Scenario.merging Scenario.taggedEdges) Scenario.mergeResults
                   _ _ _ eq_refl) _).
  - discriminate.
  - left.
Defined.

(* ------------------------------------------------------------------ *)
(** *** Leaves and the execution order *)

Section Discovery.
Context {rt : JSRuntime} {host : Host}.
Variable es : list PipelineEdge.

(** A visit appends the nodes it discovers, the visited node first. *)
Lemma reachVisit_extends fuel : forall id v v',
  reachVisit fuel es id v = Some v' ->
  exists added,
    v' = v ++ added
    /\ (NoDup v -> NoDup v')
    /\ (id ∉ v -> exists rest, added = id :: rest).
Proof.
  induction fuel as [|fuel IH]; intros id v v'; rewrite reachVisit_unfold;
    case_bool_decide as Hin; intros Hrun; try discriminate;
    try (injection Hrun as <-; exists []; by rewrite app_nil_r).
  pose (I := fun (seen : list PipelineEdge) (s : list string) =>
     exists added, s = (v ++ [id]) ++ added /\ (NoDup (v ++ [id]) -> NoDup s)).
  assert (HI : I (outgoing es id) v').
  { refine (forEachVisit_inv _ I _ _ _ _ _ Hrun).
    - exists []. by rewrite app_nil_r.
    - intros seen e s s' _ (added & -> & Hnd) Hv.
      apply IH in Hv as (added' & -> & Hnd' & _).
      exists (added ++ added'). split; [by rewrite app_assoc|]. auto. }
  destruct HI as (added & -> & Hnd). exists (id :: added).
  split; [by rewrite <- app_assoc|]. split; [|by eexists].
  intros Hv. apply Hnd, NoDup_app. split; [done|]. split; [|apply NoDup_singleton].
  intros y Hy ->%list_elem_of_singleton. done.
Qed.

End Discovery.

Section Leaves.
Context {rt : JSRuntime} {host : Host}.

Lemma findReachableNodes_start (pipeline : Pipeline) (start : string) :
  NoDup (findReachableNodes pipeline start)
  /\ head (findReachableNodes pipeline start) = Some start.
Proof.
  unfold findReachableNodes.
  destruct (findReachableNodes_total pipeline start) as (v & Hv). rewrite Hv. cbn.
  apply reachVisit_extends in Hv as (added & -> & Hnd & Hhead).
  split; [apply Hnd, NoDup_nil_2|].
  destruct Hhead as (rest & ->); [apply not_elem_of_nil|done].
Qed.

Lemma collectLeafResults_inv (pipeline : Pipeline) results (leafNodes : list string) :
  forall leaves,
    collectLeafResults pipeline results leafNodes = JS.Normal leaves ->
    map nodeId leaves = leafNodes
    /\ Forall (fun leaf =>
                 leaf_data leaf = resultOf results (nodeId leaf)
                 /\ exists node, findNode pipeline (nodeId leaf) = Some node
                      /\ nodeLabel leaf = node_label node
                      /\ nodeType leaf = node_type node) leaves.
Proof.
  induction leafNodes as [|id leafNodes IH]; intros leaves; cbn.
  - intros [= <-]. by split.
  - destruct (findNode pipeline id) as [node|] eqn:Hnode; [|discriminate].
    destruct (collectLeafResults pipeline results leafNodes) as [others|]; cbn;
      [|discriminate].
    intros [= <-]. destruct (IH others eq_refl) as [Hids Hall]. cbn. split; [by f_equal|].
    constructor; [|done]. cbn. split; [done|]. by exists node.
Qed.

Lemma elem_of_findLeafNodes (pipeline : Pipeline) (R : list string) (x : string) :
  x ∈ findLeafNodes pipeline R <->
  x ∈ R /\ forall e, e ∈ edges pipeline -> edge_source e <> x.
Proof.
  unfold findLeafNodes. rewrite elem_of_list_filter, negb_true_iff.
  split; intros [Hx Hout]; (split; [done|]).
  - intros e He Hsrc. apply not_true_iff_false in Hout. apply Hout.
    apply existsb_exists. exists e. split; [by apply list_elem_of_In|].
    by apply bool_decide_eq_true_2.
  - apply not_true_iff_false. intros (e & He%list_elem_of_In & Hsrc)%existsb_exists.
    apply bool_decide_eq_true_1 in Hsrc. by apply (Hout e).
Qed.

Lemma setAdd_NoDup (x : string) (s : list string) : NoDup s -> NoDup (JS.setAdd x s).
Proof.
  intros Hnd. unfold JS.setAdd. case_bool_decide as Hx; [done|].
  apply NoDup_app. split; [done|]. split; [|apply NoDup_singleton].
  intros y Hy ->%list_elem_of_singleton. done.
Qed.

Lemma setAddAll_NoDup (l : list string) : forall acc,
  NoDup acc -> NoDup (fold_left (fun a id => JS.setAdd id a) l acc).
Proof.
  induction l as [|x l IH]; intros acc Hnd; [done|]. cbn. by apply IH, setAdd_NoDup.
Qed.

Lemma collectReachable_NoDup (pipeline : Pipeline) (sources : list PipelineNode) :
  NoDup (collectReachable pipeline sources).
Proof.
  unfold collectReachable.
  assert (Hgen : forall acc, NoDup acc ->
            NoDup (fold_left
                     (fun reachableNodes dataSourceNode =>
                        fold_left (fun a id => JS.setAdd id a)
                          (findReachableNodes pipeline (node_id dataSourceNode))
                          reachableNodes) sources acc)).
  { induction sources as [|n sources IH]; intros acc Hnd; [done|]. cbn.
    by apply IH, setAddAll_NoDup. }
  apply Hgen, NoDup_nil_2.
Qed.

Lemma Reachable_step (pipeline : Pipeline) (u v : string) :
  Reachable pipeline u -> edgeRel (edges pipeline) u v -> Reachable pipeline v.
Proof.
  intros (n & Hn & Ht & Hpath) Huv. exists n. split; [done|]. split; [done|].
  by eapply rtc_r.
Qed.

(** In an order that respects the edges the last node has no edge out. *)
Lemma last_in_order_is_leaf (pipeline : Pipeline) (init : list string) (v : string) :
  let R := collectReachable pipeline (dataSourceNodes pipeline) in
  acyclicOnReachable pipeline ->
  topologicalSort pipeline R = init ++ [v] ->
  v ∈ findLeafNodes pipeline R.
Proof.
  intros R Hacyclic Horder.
  destruct (topologicalSort_elements pipeline R) as [Hnd Helem].
  assert (Hv : v ∈ R).
  { apply Helem. rewrite Horder. apply elem_of_app. right. by left. }
  apply elem_of_findLeafNodes. split; [done|]. intros e He Hsrc.
  assert (Hedge : restrictedEdge (edges pipeline) R v (edge_target e)).
  { assert (HE : edgeRel (edges pipeline) v (edge_target e)) by by exists e.
    split; [done|]. split; [done|].
    apply reachableNodes_spec. eapply Reachable_step; [|exact HE].
    by apply reachableNodes_spec. }
  pose proof (topologicalSort_ordered pipeline R (acyclic_restricted pipeline Hacyclic)
                _ _ Hedge) as (i & j & Hi & Hj & Hij).
  rewrite Horder in Hi, Hj, Hnd.
  apply lookup_lt_Some in Hj as Hjlen. rewrite length_app in Hjlen. cbn in Hjlen.
  rewrite lookup_app_l in Hi by lia.
  apply NoDup_app in Hnd as (_ & Hdisj & _).
  apply (Hdisj v); [by eapply list_elem_of_lookup_2|by left].
Qed.

(** X26: the leaf results of a computed run are the sinks of the reachable
    graph: one per reachable node without an outgoing edge, none twice,
    each with the label and the type of its node and with the rows that
    [nodeResults] holds for it; [data] is the rows of the first of them.
    When the reachable graph has no cycle there is at least one. *)
Theorem leafResults_are_the_sinks (pipeline : Pipeline) (useCache : bool)
    (w w' : CacheManager.World) (r : PipelineExecutionResult) :
  execute pipeline useCache w = (JS.Normal r, w') ->
  status r = success ->
  cached r = false ->
  exists results leaves,
    nodeResults r = Some results
    /\ leafResults r = Some leaves
    /\ (forall x, x ∈ map nodeId leaves <->
                  Reachable pipeline x
                  /\ forall e, e ∈ edges pipeline -> edge_source e <> x)
    /\ NoDup (map nodeId leaves)
    /\ (forall leaf, leaf ∈ leaves ->
          leaf_data leaf = resultOf results (nodeId leaf)
          /\ exists node, findNode pipeline (nodeId leaf) = Some node
               /\ nodeLabel leaf = node_label node /\ nodeType leaf = node_type node)
    /\ data r = Some (match leaves with leaf :: _ => leaf_data leaf | [] => [] end)
    /\ (acyclicOnReachable pipeline -> leaves <> []).
Proof.
  intros Hrun Hok Hfresh.
  pose proof (execute_fresh_inv pipeline useCache w r w' Hrun Hfresh) as Hinv.
  destruct (computeResults pipeline) as [[results leaves]|e] eqn:Hc;
    [|destruct Hinv as (? & _); congruence].
  destruct Hinv as (_ & Hnr & Hlr & Hdata & _). exists results, leaves.
  apply computeResults_inv in Hc as (Hsrc & _ & Hleaves).
  apply collectLeafResults_inv in Hleaves as [Hids Hall].
  split; [done|]. split; [done|]. split; [|split; [|split; [|split; [done|]]]].
  - intros x. by rewrite Hids, elem_of_findLeafNodes, reachableNodes_spec.
  - rewrite Hids. unfold findLeafNodes.
    apply (sublist_NoDup _ (collectReachable pipeline (dataSourceNodes pipeline)));
      [apply collectReachable_NoDup|apply list_filter_sublist].
  - intros leaf Hleaf. rewrite List.Forall_forall in Hall. by apply Hall, list_elem_of_In.
  - intros Hacyclic Hnil. subst leaves. cbn in Hids.
    assert (Hex : exists n, n ∈ dataSourceNodes pipeline).
    { destruct (dataSourceNodes pipeline) as [|n sources]; [done|]. exists n. left. }
    destruct Hex as (n & Hin).
    set (R := collectReachable pipeline (dataSourceNodes pipeline)) in *.
    destruct (topologicalSort_elements pipeline R) as [_ Helem].
    assert (Hn : node_id n ∈ R).
    { apply reachableNodes_spec.
      apply elem_of_dataSourceNodes in Hin as [Hin Ht]. by exists n. }
    apply Helem in Hn.
    destruct (topologicalSort pipeline R) as [|x order] eqn:Horder using rev_ind;
      [by apply elem_of_nil in Hn|].
    clear IHorder.
    pose proof (last_in_order_is_leaf pipeline order x Hacyclic) as Hleaf.
    fold R in Hleaf. rewrite <- Hids in Hleaf.
    by apply elem_of_nil in Hleaf.
Qed.

(** X27: an edge to an id that no node carries makes the run fail when
    that id is a sink of the reachable graph. The loop over the execution
    order skips the id, but the leaf results are built from the node that
    [find] does not return. *)
Theorem dangling_leaf_fails (pipeline : Pipeline) (x : string) (useCache : bool)
    (w w' : CacheManager.World) (r : PipelineExecutionResult) :
  Reachable pipeline x ->
  (forall e, e ∈ edges pipeline -> edge_source e <> x) ->
  ~ namesNode pipeline x ->
  execute pipeline useCache w = (JS.Normal r, w') ->
  cached r = false ->
  status r = error /\ nodeResults r = None /\ leafResults r = None.
Proof.
  intros Hreach Hsink Hghost Hrun Hfresh.
  pose proof (execute_fresh_inv pipeline useCache w r w' Hrun Hfresh) as Hinv.
  destruct (computeResults pipeline) as [[results leaves]|e] eqn:Hc;
    [|by destruct Hinv as (? & ? & ? & _)].
  exfalso. apply computeResults_inv in Hc as (_ & _ & Hleaves).
  apply collectLeafResults_inv in Hleaves as [Hids Hall].
  assert (Hx : x ∈ map nodeId leaves).
  { rewrite Hids. apply elem_of_findLeafNodes. split; [|done].
    by apply reachableNodes_spec. }
  apply list_elem_of_fmap in Hx as (leaf & -> & Hleaf).
  rewrite List.Forall_forall in Hall.
  destruct (Hall leaf) as (_ & node & Hnode & _); [by apply list_elem_of_In|].
  apply Hghost, findNode_is_Some. by eexists.
Qed.

(** X28: every reachable node stands in the execution order exactly once,
    whether the graph has cycles or not: the order is a rearrangement of the
    reachable set, which itself lists no node twice. What
    [findReachableNodes] returns lists no node twice either, and begins
    with the start node. *)
Theorem execution_order_lists_reachable_once (pipeline : Pipeline) :
  let R := collectReachable pipeline (dataSourceNodes pipeline) in
  let order := topologicalSort pipeline R in
  NoDup R
  /\ order ≡ₚ R
  /\ length order = length R
  /\ (forall x, x ∈ order <-> Reachable pipeline x)
  /\ (forall start,
        NoDup (findReachableNodes pipeline start)
        /\ head (findReachableNodes pipeline start) = Some start).
Proof.
  intros R order.
  destruct (topologicalSort_elements pipeline R) as [Hnd Helem].
  assert (HR : NoDup R) by apply collectReachable_NoDup.
  assert (Hperm : order ≡ₚ R) by by apply NoDup_Permutation.
  split; [done|]. split; [done|]. split; [by rewrite Hperm|].
  split; [|apply findReachableNodes_start].
  intros x. etrans; [apply Helem|apply reachableNodes_spec].
Qed.

End Leaves.

Lemma leafResults_are_the_sinks_witness :
  exists r w',
    @execute Scenario.runtime Scenario.host Scenario.linear false Scenario.startWorld
      = (JS.Normal r, w')
    /\ exists leaves,
         leafResults r = Some leaves
         /\ leaves <> []
         /\ map nodeId leaves = ["aggregate"].
Proof.
  eexists _, _. split; [reflexivity|].
  destruct (@leafResults_are_the_sinks Scenario.runtime Scenario.host Scenario.linear false
              Scenario.startWorld _ _ eq_refl eq_refl eq_refl)
    as (results & leaves & _ & Hleaves & _ & _ & _ & _ & Hsome).
  exists leaves. split; [exact Hleaves|]. split; [exact (Hsome linear_acyclic)|].
  injection Hleaves as <-. reflexivity.
Defined.

Lemma dangling_leaf_fails_witness :
  exists r w',
    @execute Scenario.runtime Scenario.host Scenario.dangling false Scenario.startWorld
      = (JS.Normal r, w')
    /\ status r = error.
Proof.
  eexists _, _. split; [reflexivity|].
  refine (proj1 (@dangling_leaf_fails Scenario.runtime Scenario.host Scenario.dangling
                   "ghost" false Scenario.startWorld _ _ _ _ _ eq_refl eq_refl)).
  - exists (Scenario.mkNode "source" TDataSource (Scenario.sourceConfig "db")).
    split; [left|]. split; [reflexivity|].
    apply rtc_once. exists (Scenario.mkEdge "source" "ghost" None).
    split; [left|]. by split.
  - intros e He Hsrc. apply list_elem_of_singleton in He as ->. discriminate Hsrc.
  - intros (n & Hn & Hid). apply list_elem_of_singleton in Hn as ->. discriminate Hid.
Defined.

Section Hashing.
Context {rt : JSRuntime} {host : Host}.

(** X29: the hash of a pipeline reads of a node its id, type and config, as
    they are written, and of an edge its two ends. Two pipelines that agree
    on these have the same hash, whatever their labels and positions, their
    edge ids, their handles, their name and their dates: with the same
    pipeline id a lookup does not tell them apart, and a run of one that is
    answered from the cache returns what a run of the other returns. *)
Theorem hash_ignores_edge_handles (p p' : Pipeline) :
  map (fun n => (node_id n, node_type n, node_config n, node_shape n)) (nodes p')
  = map (fun n => (node_id n, node_type n, node_config n, node_shape n)) (nodes p) ->
  map (fun e => (edge_source e, edge_target e)) (edges p')
  = map (fun e => (edge_source e, edge_target e)) (edges p) ->
  CacheManager.calculatePipelineHash p' = CacheManager.calculatePipelineHash p
  /\ (pipeline_id p' = pipeline_id p ->
      (forall w,
          CacheManager.getPipelineExecution (pipeline_id p')
            (CacheManager.calculatePipelineHash p') w
          = CacheManager.getPipelineExecution (pipeline_id p)
              (CacheManager.calculatePipelineHash p) w)
      /\ (forall w r w',
            execute p true w = (JS.Normal r, w') -> cached r = true ->
            execute p' true w = (JS.Normal r, w'))).
Proof.
  intros Hnodes Hedges.
  assert (Hnorm : CacheManager.normalize p' = CacheManager.normalize p).
  { unfold CacheManager.normalize. f_equal.
    - apply (f_equal (map (fun t : string * NodeType * NodeConfig * string =>
                             {| n_id := t.1.1.1; n_type := t.1.1.2; n_config := t.1.2;
                                n_shape := t.2 |})))
        in Hnodes.
      by rewrite !map_map in Hnodes.
    - apply (f_equal (map (fun t : string * string =>
                             {| e_source := t.1; e_target := t.2 |}))) in Hedges.
      by rewrite !map_map in Hedges. }
  assert (Hhash : CacheManager.calculatePipelineHash p'
                  = CacheManager.calculatePipelineHash p).
  { unfold CacheManager.calculatePipelineHash. by rewrite Hnorm. }
  split; [exact Hhash|]. intros Hid. split; [by rewrite Hhash, Hid|].
  intros w r w'. unfold execute, executeWith. cbn [CacheManager.now]. rewrite Hhash, Hid.
  destruct (CacheManager.getPipelineExecution _ _ _) as [[c|] w1]; [done|].
  destruct (computeResults p) as [[? ?]|?]; intros [= <- <-]; discriminate.
Qed.

End Hashing.

Lemma hash_ignores_edge_handles_witness :
  @CacheManager.calculatePipelineHash Scenario.host (Scenario.merging Scenario.swappedHandles)
  = @CacheManager.calculatePipelineHash Scenario.host (Scenario.merging Scenario.taggedEdges)
  /\ getNodeInputData (rt := Scenario.runtime) Scenario.mergeNode
       (Scenario.merging Scenario.swappedHandles) Scenario.mergeResults
     <> getNodeInputData (rt := Scenario.runtime) Scenario.mergeNode
          (Scenario.merging Scenario.taggedEdges) Scenario.mergeResults.
Proof.
  split; [|intros Heq; discriminate Heq].
  exact (proj1 (@hash_ignores_edge_handles Scenario.runtime Scenario.host
                  (Scenario.merging Scenario.taggedEdges)
                  (Scenario.merging Scenario.swappedHandles) eq_refl eq_refl)).
Defined.

Section Casting.
Context {rt : JSRuntime}.
Import DataTransform.

(** X30: a cast to [boolean] asks whether the value is truthy, not what it
    says: every text but the empty one becomes [true], the texts [false]
    and [0] included. A cast to [number] turns [null] into [0] and a missing
    value into [NaN]; a data type that is not known leaves the value as it
    is; and a cast to [string], [number] or [boolean] changes nothing when
    it is applied a second time. *)
Theorem castValue_conversions (v : value) (text dataType : string) :
  castValue (VStr text) "boolean" = VBool (negb (bool_decide (text = "")))
  /\ castValue (VStr "false") "boolean" = VBool true
  /\ castValue VNull "number" = VNum 0
  /\ (exists n, castValue VUndefined "number" = VNum n /\ JS.isNaN n = true)
  /\ (dataType ∉ ["string"; "number"; "boolean"; "date"] -> castValue v dataType = v)
  /\ (dataType <> "date" ->
      castValue (castValue v dataType) dataType = castValue v dataType).
Proof.
  split; [reflexivity|]. split; [reflexivity|]. split; [reflexivity|].
  split; [by eexists|].
  assert (Hother : dataType ∉ ["string"; "number"; "boolean"; "date"] ->
                   forall u, castValue u dataType = u).
  { intros Hnot u. unfold castValue.
    rewrite !bool_decide_eq_false_2; [done|..]; intros ->; apply Hnot;
      repeat constructor. }
  split; [by intros Hnot; apply Hother|].
  intros Hdate.
  destruct (decide (dataType = "string")) as [->|Hs]; [reflexivity|].
  destruct (decide (dataType = "number")) as [->|Hn]; [reflexivity|].
  destruct (decide (dataType = "boolean")) as [->|Hb]; [reflexivity|].
  apply Hother. intros Hin.
  repeat (apply elem_of_cons in Hin as [->|Hin]); try done.
  by apply elem_of_nil in Hin.
Qed.

End Casting.
